(** * Entity recognition, relation extraction and the graph store

  A shallow embedding of the three core modules of the repository,
  [custom_ner.py], [relation_extraction.py] and [knowledge_graph.py],
  and of the loop of [main_pipeline.py] that feeds the store, together
  with the properties their specification states and further
  properties of the code.

  Conventions of the embedding:
  - a Python [str] is a [string]; the character functions ([isalnum],
    [lower], [upper], [title], the regular-expression classes) are the
    ASCII ones, which is where every concrete text of this file lives;
  - a Python [int] offset is a [Z];
  - a [dict] compared by content is a [gmap]; a [set] that is only
    added to and asked for membership is a [gset]; a [set] or [dict]
    that is walked is a list in the order of the walk;
  - a Python [list] is a [list]; where the source appends to a list it
    is iterating, the list is modelled as shared state;
  - the regular expressions of the source are kept as their pattern
    strings and compiled by [Re.compile], a model of the fragment of
    Python's [re] that the source uses;
  - where a text beyond ASCII decides, a string is the list of its code
    points ([CodePoints]), and a statement that rests on the ASCII
    character functions says that its text is ASCII ([isascii]). *)

From Stdlib Require Import ZArith Ascii String List Bool Lia Sorted.
From stdpp Require Import gmap strings list.
Import ListNotations.

(** ** Python strings *)

Module Py.

Definition code (c : ascii) : N := N_of_ascii c.

Definition between (lo hi : N) (c : ascii) : bool :=
  ((lo <=? code c) && (code c <=? hi))%N.

Definition is_upper : ascii -> bool := between 65 90.
Definition is_lower : ascii -> bool := between 97 122.
Definition is_digit : ascii -> bool := between 48 57.
Definition is_alpha (c : ascii) : bool := is_upper c || is_lower c.

(** [c.isalnum()] *)
Definition isalnum (c : ascii) : bool := is_alpha c || is_digit c.

Definition lower_char (c : ascii) : ascii :=
  if is_upper c then ascii_of_N (code c + 32) else c.
Definition upper_char (c : ascii) : ascii :=
  if is_lower c then ascii_of_N (code c - 32) else c.

Fixpoint map_chars (f : ascii -> ascii) (s : string) : string :=
  match s with
  | EmptyString => EmptyString
  | String c s' => String (f c) (map_chars f s')
  end.

(** [s.lower()] and [s.upper()] *)
Definition lower : string -> string := map_chars lower_char.
Definition upper : string -> string := map_chars upper_char.

(** [s.title()]: a letter that follows a letter is lower-cased, any
    other letter is upper-cased. *)
Fixpoint title_from (previous_is_cased : bool) (s : string) : string :=
  match s with
  | EmptyString => EmptyString
  | String c s' =>
      String (if previous_is_cased then lower_char c else upper_char c)
             (title_from (is_alpha c) s')
  end.
Definition title : string -> string := title_from false.

Definition len (s : string) : Z := Z.of_nat (String.length s).

(** [s[i]] for an offset inside the string *)
Definition char_at (s : string) (i : nat) : option ascii := String.get i s.

(** [s[a:b]], with Python's treatment of negative and oversized bounds *)
Definition clamp (n : Z) (i : Z) : Z :=
  (if i <? 0 then Z.max 0 (i + n) else Z.min i n)%Z.
Definition slice (s : string) (a b : Z) : string :=
  let a' := clamp (len s) a in
  let b' := clamp (len s) b in
  String.substring (Z.to_nat a') (Z.to_nat (b' - a')) s.

(** [s.find(sub, start)]; [None] stands for [-1] *)
Definition find (s sub : string) (start : nat) : option nat :=
  String.index start sub s.

(** [x in xs] for a list of strings *)
Definition str_in (x : string) (xs : list string) : bool :=
  existsb (String.eqb x) xs.

(** Truthiness of an optional string argument: [None] and [''] are
    falsy. *)
Definition truthy (o : option string) : bool :=
  match o with
  | Some s => negb (String.eqb s "")
  | None => false
  end.

(** [sorted(l, key=...)] is stable; [le a b] says that the key of [a]
    is at most the key of [b].  Insertion from the right keeps equal
    keys in their original order. *)
Fixpoint insert_sorted {A : Type} (le : A -> A -> bool) (x : A) (l : list A)
  : list A :=
  match l with
  | [] => [x]
  | y :: l' => if le x y then x :: y :: l' else y :: insert_sorted le x l'
  end.
Definition sorted {A : Type} (le : A -> A -> bool) (l : list A) : list A :=
  fold_right (insert_sorted le) [] l.

(** [enumerate(l)] *)
Definition enumerate {A : Type} (l : list A) : list (nat * A) :=
  imap (fun i x => (i, x)) l.

End Py.

(** ** The fragment of Python's [re] used by the source *)

Module Re.

(** Abstract syntax of a pattern. *)
Inductive regex : Type :=
| Eps                         (* the empty pattern *)
| Lit (c : ascii)             (* a literal character *)
| Set_ (cs : list ascii)      (* [...] of literal characters *)
| Digit                       (* \d *)
| Space                       (* \s *)
| Any                         (* . *)
| WordB                       (* \b *)
| Seq (r1 r2 : regex)
| Alt (r1 r2 : regex)         (* r1|r2, r1 tried first *)
| Star (r : regex)            (* r*, greedy *)
| Look (r : regex).           (* (?=r) *)

Definition Opt (r : regex) : regex := Alt r Eps.       (* r? *)
Definition Plus (r : regex) : regex := Seq r (Star r). (* r+ *)

(** r{m,n} with n = m + extra, greedy *)
Fixpoint Upto (extra : nat) (r : regex) : regex :=
  match extra with
  | O => Eps
  | S k => Opt (Seq r (Upto k r))
  end.
Fixpoint Times (m : nat) (r rest : regex) : regex :=
  match m with
  | O => rest
  | S k => Seq r (Times k r rest)
  end.
Definition Repeat (m extra : nat) (r : regex) : regex :=
  Times m r (Upto extra r).

(** *** Parsing a pattern string *)

Definition digit_val (c : ascii) : option nat :=
  if Py.is_digit c then Some (N.to_nat (Py.code c - 48)) else None.

Fixpoint parse_nat (acc : nat) (s : string) : nat * string :=
  match s with
  | String c s' =>
      match digit_val c with
      | Some d => parse_nat (10 * acc + d)%nat s'
      | None => (acc, s)
      end
  | EmptyString => (acc, s)
  end.

(** The characters of a class up to the closing bracket; a range
    [a-z] is outside the fragment ([-] is accepted as last character
    only, where it is literal). *)
Fixpoint parse_class (s : string) : option (list ascii * string) :=
  match s with
  | EmptyString => None
  | String "]" s' => Some ([], s')
  | String "-" (String "]" s') => Some (["-"%char], s')
  | String "-" _ => None
  | String "\" _ => None
  | String c s' =>
      match parse_class s' with
      | Some (cs, rest) => Some (c :: cs, rest)
      | None => None
      end
  end.

(** A quantifier following an atom. *)
Definition parse_quant (r : regex) (s : string) : option (regex * string) :=
  match s with
  | String "*" s' => Some (Star r, s')
  | String "+" s' => Some (Plus r, s')
  | String "?" s' => Some (Opt r, s')
  | String "{" s' =>
      let '(m, s1) := parse_nat 0 s' in
      match s1 with
      | String "}" s2 => Some (Repeat m 0 r, s2)
      | String "," s2 =>
          let '(n, s3) := parse_nat 0 s2 in
          match s3 with
          | String "}" s4 => Some (Repeat m (n - m)%nat r, s4)
          | _ => None
          end
      | _ => None
      end
  | _ => Some (r, s)
  end.

Definition seq_ (r tl : regex) : regex :=
  match tl with Eps => r | _ => Seq r tl end.

(** [parse_alt] reads alternatives up to a closing parenthesis or the
    end of the pattern; [parse_seq] reads one alternative.  The fuel
    bounds the nesting and the length and is the length of the
    pattern. *)
Fixpoint parse_alt (fuel : nat) (s : string) : option (regex * string) :=
  match fuel with
  | O => None
  | S fuel' =>
      let parse_atom (s : string) : option (regex * string) :=
        match s with
        | String "(" (String "?" (String ":" s')) =>
            match parse_alt fuel' s' with
            | Some (r, String ")" rest) => Some (r, rest)
            | _ => None
            end
        | String "(" (String "?" (String "=" s')) =>
            match parse_alt fuel' s' with
            | Some (r, String ")" rest) => Some (Look r, rest)
            | _ => None
            end
        | String "(" _ => None
        | String "[" s' =>
            match parse_class s' with
            | Some (cs, rest) => Some (Set_ cs, rest)
            | None => None
            end
        | String "\" (String "d" s') => Some (Digit, s')
        | String "\" (String "s" s') => Some (Space, s')
        | String "\" (String "b" s') => Some (WordB, s')
        | String "\" (String c s') =>
            if Py.isalnum c then None else Some (Lit c, s')
        | String "." s' => Some (Any, s')
        | String c s' =>
            if existsb (Ascii.eqb c) ["*"; "+"; "?"; "{"; "}"; "]"; "^"; "$"; "\"]%char
            then None else Some (Lit c, s')
        | EmptyString => None
        end in
      let fix parse_seq (n : nat) (acc : regex -> regex) (s : string)
        : option (regex * string) :=
        match n with
        | O => None
        | S n' =>
            match s with
            | EmptyString | String "|" _ | String ")" _ => Some (acc Eps, s)
            | _ =>
                match parse_atom s with
                | Some (a, s1) =>
                    match parse_quant a s1 with
                    | Some (q, s2) =>
                        parse_seq n' (fun tl => acc (seq_ q tl)) s2
                    | None => None
                    end
                | None => None
                end
            end
        end in
      match parse_seq fuel id s with
      | Some (r1, String "|" s') =>
          match parse_alt fuel' s' with
          | Some (r2, rest) => Some (Alt r1 r2, rest)
          | None => None
          end
      | other => other
      end
  end.

(** [re.compile(src)].  A pattern outside the fragment compiles to the
    pattern that matches nothing; [compiles] tells the two apart. *)
Definition compile (src : string) : regex :=
  match parse_alt (S (String.length src)) src with
  | Some (r, EmptyString) => r
  | _ => Set_ []
  end.
Definition compiles (src : string) : bool :=
  match parse_alt (S (String.length src)) src with
  | Some (_, EmptyString) => true
  | _ => false
  end.

(** *** Matching *)

(** A position in the subject string: the offset, the character before
    it (for [\b]) and the characters from it on. *)
Record cursor : Type := Cursor {
  pos : nat;
  before : option ascii;
  rest : string
}.

Definition advance (c : cursor) : option (ascii * cursor) :=
  match rest c with
  | EmptyString => None
  | String a s => Some (a, Cursor (S (pos c)) (Some a) s)
  end.

Definition is_space (c : ascii) : bool :=
  Py.between 9 13 c || Py.between 28 32 c.
Definition is_word (c : ascii) : bool :=
  Py.isalnum c || Ascii.eqb c "_".
Definition is_word_opt (o : option ascii) : bool :=
  match o with Some c => is_word c | None => false end.
Definition next_char (c : cursor) : option ascii :=
  match rest c with EmptyString => None | String a _ => Some a end.

(** Equality of characters, under [re.IGNORECASE] when [icase]. *)
Definition char_eq (icase : bool) (a b : ascii) : bool :=
  if icase then Ascii.eqb (Py.lower_char a) (Py.lower_char b)
  else Ascii.eqb a b.

Definition step_class (p : ascii -> bool) (c : cursor)
    (k : cursor -> option cursor) : option cursor :=
  match advance c with
  | Some (x, c') => if p x then k c' else None
  | None => None
  end.

(** Backtracking matcher in continuation-passing style: [run r c k]
    matches [r] at [c] and hands the cursor after it to [k]; the first
    success in the order alternatives first-to-last, repetitions
    longest-first is the answer, as in Python.  An iteration of a
    star that consumes nothing is not repeated. *)
Fixpoint run (icase : bool) (r : regex) (c : cursor)
    (k : cursor -> option cursor) {struct r} : option cursor :=
  match r with
  | Eps => k c
  | Lit a => step_class (char_eq icase a) c k
  | Set_ cs => step_class (fun x => existsb (char_eq icase x) cs) c k
  | Digit => step_class Py.is_digit c k
  | Space => step_class is_space c k
  | Any => step_class (fun x => negb (Ascii.eqb x "010")) c k
  | WordB =>
      if xorb (is_word_opt (before c)) (is_word_opt (next_char c))
      then k c else None
  | Seq r1 r2 => run icase r1 c (fun c' => run icase r2 c' k)
  | Alt r1 r2 =>
      match run icase r1 c k with
      | Some e => Some e
      | None => run icase r2 c k
      end
  | Star r1 =>
      (fix loop (n : nat) (c : cursor) {struct n} : option cursor :=
         match n with
         | O => k c
         | S n' =>
             match run icase r1 c
                     (fun c' => if (pos c <? pos c')%nat then loop n' c'
                                else None) with
             | Some e => Some e
             | None => k c
             end
         end) (S (String.length (rest c))) c
  | Look r1 =>
      match run icase r1 c Some with
      | Some _ => k c
      | None => None
      end
  end.

(** A compiled pattern object: its source and whether [re.IGNORECASE]
    was given. *)
Record pattern : Type := Pattern {
  source : string;
  ignorecase : bool
}.

(** The end of the match of [p] that starts at cursor [c], if any. *)
Definition match_here (p : pattern) (c : cursor) : option nat :=
  match run (ignorecase p) (compile (source p)) c Some with
  | Some e => Some (pos e)
  | None => None
  end.

(** Leftmost match at or after the cursor: [(start, end)].  The fuel
    is the number of characters left, one round per offset. *)
Fixpoint search_from (p : pattern) (c : cursor) (fuel : nat)
  : option (nat * nat) :=
  match match_here p c with
  | Some e => Some (pos c, e)
  | None =>
      match fuel, advance c with
      | S fuel', Some (_, c') => search_from p c' fuel'
      | _, _ => None
      end
  end.

Definition start_cursor (s : string) : cursor := Cursor 0 None s.

(** [p.search(s)] as a truth value *)
Definition search (p : pattern) (s : string) : bool :=
  match search_from p (start_cursor s) (String.length s) with
  | Some _ => true
  | None => false
  end.

(** The cursor [n] characters further. *)
Fixpoint skip (n : nat) (c : cursor) : cursor :=
  match n with
  | O => c
  | S n' => match advance c with Some (_, c') => skip n' c' | None => c end
  end.

(** [p.finditer(s)]: the successive non-overlapping matches, as
    [(match.start(), match.end())].  After an empty match the scan
    moves one character on, so every round moves on and one round per
    offset is enough fuel. *)
Fixpoint finditer_from (p : pattern) (c : cursor) (fuel : nat)
  : list (nat * nat) :=
  match fuel with
  | O => []
  | S fuel' =>
      match search_from p c (String.length (rest c)) with
      | None => []
      | Some (b, e) =>
          let next := if (b <? e)%nat then e else S e in
          (b, e) :: finditer_from p (skip (next - pos c) c) fuel'
      end
  end.
Definition finditer (p : pattern) (s : string) : list (nat * nat) :=
  finditer_from p (start_cursor s) (S (String.length s)).

End Re.

(** ** [custom_ner.py]: class [CustomNER] *)

Module CustomNER.

(** A candidate or resolved entity: [(entity_type, text, start, end)]. *)
Definition span : Type := string * string * Z * Z.

Definition span_type (e : span) : string := e.1.1.1.
Definition span_text (e : span) : string := e.1.1.2.
Definition span_start (e : span) : Z := e.1.2.
Definition span_end (e : span) : Z := e.2.

(** [_build_dictionaries].  The source holds each dictionary in a
    [set]; the terms are listed here in the order of the source text.
    No term occurs twice, so two dictionary candidates never cover the
    same offsets, and the order in which a set is walked does not
    change what [_resolve_overlaps] keeps
    ([resolve_overlaps_walk_order] below). *)
Definition entity_dictionaries : list (string * list string) :=
  [ ("PERSON",
     [ "trump"; "donald trump"; "biden"; "joe biden"; "xi jinping";
       "modi"; "narendra modi"; "trudeau"; "justin trudeau";
       "macron"; "emmanuel macron"; "johnson"; "boris johnson";
       "putin"; "vladimir putin"; "obama"; "barack obama";
       "yellen"; "janet yellen"; "powell"; "jerome powell" ]);
    ("LOCATION",
     [ "usa"; "united states"; "america"; "us"; "china"; "india";
       "canada"; "mexico"; "japan"; "germany"; "france"; "uk";
       "united kingdom"; "britain"; "russia"; "australia"; "brazil";
       "south korea"; "italy"; "spain"; "eu"; "european union";
       "asia"; "europe"; "north america"; "africa"; "middle east";
       "washington"; "beijing"; "new delhi"; "london"; "tokyo";
       "brussels"; "moscow"; "ottawa" ]);
    ("ORGANIZATION",
     [ "bbc"; "cnn"; "fox news"; "reuters"; "bloomberg"; "wsj";
       "wall street journal"; "new york times"; "nyt"; "washington post";
       "financial times"; "economist"; "al jazeera"; "abc news";
       "nbc"; "msnbc"; "cnbc"; "forbes"; "politico";
       "wto"; "world trade organization"; "imf"; "world bank";
       "un"; "united nations"; "nato"; "oecd";
       "apple"; "google"; "amazon"; "microsoft"; "tesla"; "walmart";
       "general motors"; "gm"; "ford"; "boeing"; "caterpillar";
       "harley davidson"; "samsung"; "huawei"; "alibaba";
       "congress"; "senate"; "house"; "white house"; "treasury";
       "commerce department"; "state department" ]);
    ("POLICY",
     [ "maga"; "make america great again"; "america first";
       "nafta"; "usmca"; "trade war"; "section 232"; "section 301";
       "reciprocal tariff"; "national security tariff"; "steel tariff";
       "aluminum tariff"; "auto tariff"; "trade deal"; "trade agreement";
       "free trade"; "protectionism"; "tariff policy" ]);
    ("ECONOMIC_SECTOR",
     [ "agriculture"; "manufacturing"; "automotive"; "steel"; "aluminum";
       "technology"; "tech"; "energy"; "oil"; "gas"; "solar";
       "semiconductor"; "electronics"; "textile"; "aerospace";
       "pharmaceuticals"; "chemicals" ]) ].

(** [_build_patterns] *)
Definition entity_patterns : list (string * list Re.pattern) :=
  [ ("MONEY",
     [ Re.Pattern "\$\s*\d+(?:,\d{3})*(?:\.\d+)?\s*(?:billion|million|thousand|trillion|bn|mn|k|m|b)?" true;
       Re.Pattern "\d+(?:,\d{3})*(?:\.\d+)?\s*(?:dollars|usd|yuan|euros?|pounds?)" true ]);
    ("PERCENTAGE",
     [ Re.Pattern "\d+(?:\.\d+)?\s*%" false;
       Re.Pattern "\d+(?:\.\d+)?\s*percent" true ]);
    ("DATE",
     [ Re.Pattern "\b(?:january|february|march|april|may|june|july|august|september|october|november|december)\s+\d{1,2},?\s+\d{4}\b" true;
       Re.Pattern "\b\d{1,2}[/-]\d{1,2}[/-]\d{2,4}\b" false;
       Re.Pattern "\b(?:jan|feb|mar|apr|may|jun|jul|aug|sep|sept|oct|nov|dec)\.?\s+\d{1,2},?\s+\d{4}\b" true;
       Re.Pattern "\b\d{4}\b(?=\s+(?:tariff|trade|deal))" true ]);
    ("TARIFF_RATE",
     [ Re.Pattern "\d+(?:\.\d+)?\s*%\s*tariff" true;
       Re.Pattern "tariff\s+of\s+\d+(?:\.\d+)?\s*%" true ]);
    ("PRODUCT",
     [ Re.Pattern "\b(?:steel|aluminum|cars?|automobile|solar panels?|washing machines?|electronics?|semiconductors?|chips?|soybeans?|pork|beef|wheat|corn)\b" true ]) ].

(** [text_lower[i].isalnum()] *)
Definition isalnum_at (s : string) (i : nat) : bool :=
  match Py.char_at s i with
  | Some c => Py.isalnum c
  | None => false
  end.

(** The [while True] loop of [_match_dictionary] for one dictionary
    term, from offset [start]; [entities] is the list being appended
    to.  Each round either leaves the loop or moves [start] forward, so
    the loop of a non-empty term ends within [len(text) + 1] rounds
    ([find_occurrences_fuel] below): with that much fuel the last
    branch is never taken. *)
Fixpoint find_occurrences (fuel : nat) (entity_type text text_lower entity : string)
    (start : nat) (entities : list span) : list span :=
  match fuel with
  | S fuel' =>
      match Py.find text_lower entity start with
      | None => entities                                   (* break *)
      | Some pos =>
          if (0 <? pos)%nat && isalnum_at text_lower (pos - 1) then
            find_occurrences fuel' entity_type text text_lower entity
              (pos + 1) entities
          else
            let end_pos := (pos + String.length entity)%nat in
            if (end_pos <? String.length text_lower)%nat
               && isalnum_at text_lower end_pos then
              find_occurrences fuel' entity_type text text_lower entity
                (pos + 1) entities
            else
              let original_text :=
                Py.slice text (Z.of_nat pos) (Z.of_nat end_pos) in
              find_occurrences fuel' entity_type text text_lower entity
                end_pos
                (entities ++
                 [(entity_type, original_text, Z.of_nat pos, Z.of_nat end_pos)])
      end
  | O => entities
  end.

(** [_match_dictionary] *)
Definition _match_dictionary (text : string) : list span :=
  let text_lower := Py.lower text in
  fold_left
    (fun entities '(entity_type, dictionary) =>
       fold_left
         (fun entities entity =>
            find_occurrences (S (String.length text)) entity_type text
              text_lower entity 0 entities)
         dictionary entities)
    entity_dictionaries [].

(** [_match_patterns] *)
Definition _match_patterns (text : string) : list span :=
  fold_left
    (fun entities '(entity_type, pattern_list) =>
       fold_left
         (fun entities pattern =>
            fold_left
              (fun entities '(b, e) =>
                 entities ++
                 [(entity_type, Py.slice text (Z.of_nat b) (Z.of_nat e),
                   Z.of_nat b, Z.of_nat e)])
              (Re.finditer pattern text) entities)
         pattern_list entities)
    entity_patterns [].

(** [_capitalize_entity] *)
Definition _capitalize_entity (text entity_type : string) : string :=
  if Py.str_in entity_type ["MONEY"; "PERCENTAGE"; "DATE"; "TARIFF_RATE"] then
    text
  else if Py.str_in entity_type ["PERSON"; "LOCATION"; "ORGANIZATION"] then
    if Py.str_in (Py.upper text)
         ["USA"; "UK"; "EU"; "UN"; "WTO"; "IMF"; "NATO"; "OECD";
          "CNN"; "BBC"; "ABC"; "NBC"; "NYT"; "WSJ"; "MSNBC"; "CNBC"]
    then Py.upper text
    else if Py.str_in (Py.lower text) ["usmca"; "nafta"] then Py.upper text
    else Py.title text
  else text.

(** The sort key of [_resolve_overlaps], [(x[2], -(x[3] - x[2]))],
    compared as Python compares tuples. *)
Definition overlap_key (e : span) : Z * Z :=
  (span_start e, (- (span_end e - span_start e))%Z).
Definition key_le (a b : Z * Z) : bool :=
  ((a.1 <? b.1) || ((a.1 =? b.1) && (a.2 <=? b.2)))%Z.
Definition span_le (a b : span) : bool :=
  key_le (overlap_key a) (overlap_key b).

(** The sweep of [_resolve_overlaps]: the state is
    [(resolved, last_end)]. *)
Definition sweep_step (st : list span * Z) (entity : span) : list span * Z :=
  let '(resolved, last_end) := st in
  if (span_start entity >=? last_end)%Z
  then (resolved ++ [entity], span_end entity)
  else (resolved, last_end).

(** [_resolve_overlaps] *)
Definition _resolve_overlaps (entities : list span) : list span :=
  match entities with
  | [] => []
  | _ =>
      let sorted_entities := Py.sorted span_le entities in
      (fold_left sweep_step sorted_entities ([], (-1)%Z)).1
  end.

(** What a caller may pass for [text]: the source tests
    [not text or not isinstance(text, str)]. *)
Inductive pyvalue : Type :=
| PyNone
| PyBool (b : bool)
| PyInt (n : Z)
| PyStr (s : string).

(** The guard [not text or not isinstance(text, str)] answers with the
    string when it is a non-empty [str]. *)
Definition usable_text (text : pyvalue) : option string :=
  match text with
  | PyStr s => if String.eqb s "" then None else Some s
  | _ => None
  end.

(** [extract_entities] *)
Definition extract_entities (text : pyvalue) : list (string * string) :=
  match usable_text text with
  | None => []
  | Some text =>
      let dict_entities := _match_dictionary text in
      let pattern_entities := _match_patterns text in
      let all_entities := dict_entities ++ pattern_entities in
      let resolved_entities := _resolve_overlaps all_entities in
      fold_left
        (fun result '(entity_type, entity_text, _, _) =>
           let normalized_text := _capitalize_entity entity_text entity_type in
           result ++ [(entity_type, normalized_text)])
        resolved_entities []
  end.

(** [extract_entities_with_positions] *)
Definition extract_entities_with_positions (text : pyvalue) : list span :=
  match usable_text text with
  | None => []
  | Some text =>
      let dict_entities := _match_dictionary text in
      let pattern_entities := _match_patterns text in
      let all_entities := dict_entities ++ pattern_entities in
      let resolved_entities := _resolve_overlaps all_entities in
      fold_left
        (fun result '(entity_type, entity_text, start, end_) =>
           let normalized_text := _capitalize_entity entity_text entity_type in
           result ++ [(entity_type, normalized_text, start, end_)])
        resolved_entities []
  end.

End CustomNER.

(** ** [relation_extraction.py]: class [RelationExtractor] *)

Module RelationExtractor.

Import CustomNER.

(** A triple [(subject, predicate, object)]. *)
Definition triple : Type := string * string * string.

(** One entry of the rule table. *)
Record relation_pattern : Type := RelationPattern {
  subject_types : list string;
  predicate : string;
  object_types : list string;
  connecting_words : list string
}.

(** [_build_relation_patterns] *)
Definition relation_patterns : list relation_pattern :=
  [ RelationPattern ["PERSON"; "ORGANIZATION"; "LOCATION"] "ANNOUNCES"
      ["POLICY"; "TARIFF_RATE"; "MONEY"; "PERCENTAGE"]
      ["announce[sd]?"; "propose[sd]?"; "introduce[sd]?"; "implement[sd]?";
       "impose[sd]?"; "declare[sd]?"];
    RelationPattern ["PERSON"; "ORGANIZATION"; "LOCATION"] "INCREASES"
      ["TARIFF_RATE"; "PERCENTAGE"; "MONEY"]
      ["increase[sd]?"; "raise[sd]?"; "boost[sd]?"; "hike[sd]?"; "up";
       "raise[sd]?"];
    RelationPattern ["PERSON"; "ORGANIZATION"; "LOCATION"] "DECREASES"
      ["TARIFF_RATE"; "PERCENTAGE"; "MONEY"]
      ["decrease[sd]?"; "reduce[sd]?"; "lower[sd]?"; "cut[s]?";
       "slash(?:es)?"; "drop[s]?"];
    RelationPattern ["ORGANIZATION"] "REPORTS"
      ["POLICY"; "PERSON"; "LOCATION"; "ORGANIZATION"]
      ["report[sd]?"; "state[sd]?"; "announce[sd]?"; "say[s]?"; "claim[sd]?";
       "indicate[sd]?"];
    RelationPattern ["LOCATION"; "ORGANIZATION"] "TRADES_WITH"
      ["LOCATION"; "ORGANIZATION"]
      ["trade[sd]?\s+with"; "trading\s+with"; "export[sd]?\s+to";
       "import[sd]?\s+from"; "deal[s]?\s+with"];
    RelationPattern ["POLICY"; "TARIFF_RATE"; "PERSON"] "IMPACTS"
      ["ECONOMIC_SECTOR"; "LOCATION"; "ORGANIZATION"; "PRODUCT"]
      ["impact[sd]?"; "affect[sd]?"; "influence[sd]?"; "hurt[s]?"; "harm[s]?";
       "damage[sd]?"; "benefit[s]?"; "help[s]?"];
    RelationPattern ["PERSON"; "ORGANIZATION"; "LOCATION"] "SUPPORTS"
      ["POLICY"; "PERSON"]
      ["support[s]?"; "back[s]?"; "endorse[sd]?"; "favor[s]?"; "promote[sd]?";
       "champion[s]?"];
    RelationPattern ["PERSON"; "ORGANIZATION"; "LOCATION"] "OPPOSES"
      ["POLICY"; "PERSON"]
      ["oppose[sd]?"; "against"; "reject[sd]?"; "resist[s]?"; "fight[s]?";
       "criticize[sd]?"; "condemn[s]?"];
    RelationPattern ["PERSON"; "LOCATION"; "ORGANIZATION"] "NEGOTIATES"
      ["POLICY"; "PERSON"; "LOCATION"]
      ["negotiate[sd]?"; "discuss(?:es)?"; "talk[s]?\s+with";
       "meet[s]?\s+with"; "negotiating\s+with"];
    RelationPattern ["POLICY"; "TARIFF_RATE"; "PERSON"] "TARGETS"
      ["LOCATION"; "PRODUCT"; "ECONOMIC_SECTOR"; "ORGANIZATION"]
      ["target[s]?"; "aim[s]?\s+at"; "focus(?:es)?\s+on"; "directed\s+at";
       "against"];
    RelationPattern ["PERSON"] "LEADS"
      ["ORGANIZATION"; "LOCATION"]
      ["lead[s]?"; "head[s]?"; "run[s]?"; "president\s+of"; "leader\s+of";
       "prime\s+minister\s+of"];
    RelationPattern ["LOCATION"; "ORGANIZATION"] "EXPORTS"
      ["PRODUCT"; "ECONOMIC_SECTOR"; "MONEY"]
      ["export[s]?"; "sell[s]?"; "ship[s]?"; "send[s]?"];
    RelationPattern ["LOCATION"; "ORGANIZATION"] "IMPORTS"
      ["PRODUCT"; "ECONOMIC_SECTOR"; "MONEY"]
      ["import[s]?"; "buy[s]?"; "purchase[s]?"; "receive[s]?"] ].

(** [_find_connecting_phrase]: [(found, matching_phrase)] *)
Definition _find_connecting_phrase (text : string) (start_pos end_pos : Z)
    (connecting_words : list string) : bool * string :=
  let middle_text := Py.lower (Py.slice text start_pos end_pos) in
  match
    List.find (fun pattern_str => Re.search (Re.Pattern pattern_str true) middle_text)
              connecting_words
  with
  | Some pattern_str => (true, pattern_str)
  | None => (false, "")
  end.

(** The state of the loops of [extract_relations]:
    [(triples, seen_triples)]. *)
Definition relations_state : Type := list triple * gset triple.

(** The dedup key of a triple. *)
Definition triple_key (t : triple) : triple :=
  (Py.lower t.1.1, t.1.2, Py.lower t.2).

(** The body of [if found:]. *)
Definition emit_triple (st : relations_state) (t : triple) : relations_state :=
  if decide (triple_key t ∈ st.2) then st
  else (st.1 ++ [t], st.2 ∪ {[ triple_key t ]}).

(** The innermost loop, over the rule table, for one pair of entities. *)
Definition match_rules (text : string) (subj obj : span)
    (st : relations_state) : relations_state :=
  fold_left
    (fun st pattern =>
       if Py.str_in (span_type subj) (subject_types pattern)
          && Py.str_in (span_type obj) (object_types pattern)
       then
         let '(found, _) :=
           _find_connecting_phrase text (span_end subj) (span_start obj)
             (connecting_words pattern) in
         if found
         then emit_triple st (span_text subj, predicate pattern, span_text obj)
         else st
       else st)
    relation_patterns st.

(** [extract_relations] *)
Definition extract_relations (text : pyvalue) : list triple :=
  match usable_text text with
  | None => []
  | Some s =>
      let entities := extract_entities_with_positions text in
      if (length entities <? 2)%nat then []
      else
        (fold_left
           (fun st '(i, subj) =>
              fold_left
                (fun st '(j, obj) =>
                   if (i =? j)%nat then st
                   else if (span_start subj >=? span_start obj)%Z then st
                   else match_rules s subj obj st)
                (Py.enumerate entities) st)
           (Py.enumerate entities) ([], ∅)).1
  end.

(** [_infer_relation] *)
Definition type_relations : list (string * string * string) :=
  [ ("PERSON", "POLICY", "ASSOCIATED_WITH");
    ("PERSON", "LOCATION", "ASSOCIATED_WITH");
    ("PERSON", "ORGANIZATION", "ASSOCIATED_WITH");
    ("LOCATION", "LOCATION", "RELATED_TO");
    ("LOCATION", "POLICY", "RELATED_TO");
    ("LOCATION", "ECONOMIC_SECTOR", "HAS_SECTOR");
    ("LOCATION", "PRODUCT", "PRODUCES");
    ("ORGANIZATION", "POLICY", "RELATED_TO");
    ("ORGANIZATION", "LOCATION", "OPERATES_IN");
    ("POLICY", "ECONOMIC_SECTOR", "AFFECTS");
    ("POLICY", "PRODUCT", "AFFECTS");
    ("TARIFF_RATE", "PRODUCT", "APPLIES_TO");
    ("TARIFF_RATE", "LOCATION", "APPLIES_TO");
    ("PERCENTAGE", "PRODUCT", "APPLIES_TO");
    ("MONEY", "LOCATION", "RELATED_TO") ].

Definition _infer_relation (type1 type2 : string) : string :=
  match
    List.find (fun '(t1, t2, _) => String.eqb t1 type1 && String.eqb t2 type2)
              type_relations
  with
  | Some (_, _, relation) => relation
  | None => "MENTIONED_WITH"
  end.

(** The state of the loops of [extract_simple_triples]:
    [(triples, seen_pairs)]. *)
Definition simple_state : Type := list triple * gset (string * string).

(** The body of the inner loop for [i < j]. *)
Definition pair_step (e1 e2 : string * string) (st : simple_state)
  : simple_state :=
  let '(type1, text1) := e1 in
  let '(type2, text2) := e2 in
  let pair_key := (Py.lower text1, Py.lower text2) in
  if decide (pair_key ∈ st.2) then st
  else
    let predicate := _infer_relation type1 type2 in
    if negb (String.eqb predicate "")
    then (st.1 ++ [(text1, predicate, text2)], st.2 ∪ {[ pair_key ]})
    else st.

(** [extract_simple_triples] *)
Definition extract_simple_triples (text : pyvalue) : list triple :=
  match usable_text text with
  | None => []
  | Some _ =>
      let entities := extract_entities text in
      if (length entities <? 2)%nat then []
      else
        (fold_left
           (fun st '(i, e1) =>
              fold_left
                (fun st '(j, e2) =>
                   if (j <=? i)%nat then st else pair_step e1 e2 st)
                (Py.enumerate entities) st)
           (Py.enumerate entities) ([], ∅)).1
  end.

End RelationExtractor.

(** ** [knowledge_graph.py]: class [KnowledgeGraph] *)

Module KnowledgeGraph.

Definition triple : Type := string * string * string.

(** *** The part of [networkx.MultiDiGraph] the class relies on

    Nodes are kept in insertion order with their attribute
    [entity_type] (absent for a node that only [add_edge] created);
    every edge is kept, with the key that tells parallel edges apart
    and its attribute [relation]. *)
Record edge : Type := Edge {
  edge_source : string;
  edge_target : string;
  edge_key : nat;
  edge_relation : string
}.

Record MultiDiGraph : Type := Graph {
  nodes : list (string * option string);
  edges : list edge
}.

Definition empty_graph : MultiDiGraph := Graph [] [].

Definition has_node (g : MultiDiGraph) (n : string) : bool :=
  existsb (fun nd => String.eqb nd.1 n) (nodes g).

(** The attribute [entity_type] of node [n]. *)
Definition node_entity_type (g : MultiDiGraph) (n : string) : option string :=
  match List.find (fun nd => String.eqb nd.1 n) (nodes g) with
  | Some nd => nd.2
  | None => None
  end.

(** [g.add_node(n, entity_type=t)]: a new node is appended, the
    attributes of a present node are updated. *)
Definition add_node (n : string) (entity_type : string) (g : MultiDiGraph)
  : MultiDiGraph :=
  if has_node g n then
    Graph (map (fun nd => if String.eqb nd.1 n then (n, Some entity_type) else nd)
               (nodes g))
          (edges g)
  else Graph (nodes g ++ [(n, Some entity_type)]) (edges g).

(** The node [add_edge] creates for a missing end point. *)
Definition ensure_node (n : string) (g : MultiDiGraph) : MultiDiGraph :=
  if has_node g n then g else Graph (nodes g ++ [(n, None)]) (edges g).

Definition parallel_edges (g : MultiDiGraph) (u v : string) : list edge :=
  filter (fun e => String.eqb (edge_source e) u && String.eqb (edge_target e) v)
         (edges g).

(** [g.add_edge(u, v, relation=r)]: always a new edge; its key is the
    number of edges already between [u] and [v] (no edge is ever
    removed, so that key is free). *)
Definition add_edge (u v : string) (relation : string) (g : MultiDiGraph)
  : MultiDiGraph :=
  let g := ensure_node v (ensure_node u g) in
  Graph (nodes g)
        (edges g ++ [Edge u v (length (parallel_edges g u v)) relation]).

Definition number_of_nodes (g : MultiDiGraph) : nat := length (nodes g).
Definition number_of_edges (g : MultiDiGraph) : nat := length (edges g).

Definition out_degree (g : MultiDiGraph) (n : string) : Z :=
  Z.of_nat (length (filter (fun e => String.eqb (edge_source e) n) (edges g))).
Definition in_degree (g : MultiDiGraph) (n : string) : Z :=
  Z.of_nat (length (filter (fun e => String.eqb (edge_target e) n) (edges g))).
Definition degree (g : MultiDiGraph) (n : string) : Z :=
  (in_degree g n + out_degree g n)%Z.

(** [dict(g.degree())] and its siblings, in node order *)
Definition degree_view (f : MultiDiGraph -> string -> Z) (g : MultiDiGraph)
  : list (string * Z) :=
  map (fun nd => (nd.1, f g nd.1)) (nodes g).

(** *** The store *)

Record KnowledgeGraph : Type := KG {
  graph : MultiDiGraph;
  triples : list triple;
  entity_types : gmap string string
}.

(** [__init__] *)
Definition init : KnowledgeGraph := KG empty_graph [] ∅.

(** [t or 'UNKNOWN'] *)
Definition or_unknown (t : option string) : string :=
  match t with
  | Some s => if Py.truthy t then s else "UNKNOWN"
  | None => "UNKNOWN"
  end.

(** [if t: self.entity_types[name] = t] *)
Definition record_type (name : string) (t : option string)
    (m : gmap string string) : gmap string string :=
  match t with
  | Some s => if Py.truthy t then <[name := s]> m else m
  | None => m
  end.

(** [add_triple] *)
Definition add_triple (subject predicate obj : string)
    (subject_type object_type : option string) (self : KnowledgeGraph)
  : KnowledgeGraph :=
  let g := add_node subject (or_unknown subject_type) (graph self) in
  let g := add_node obj (or_unknown object_type) g in
  let g := add_edge subject obj predicate g in
  let triples := triples self ++ [(subject, predicate, obj)] in
  let entity_types := record_type subject subject_type (entity_types self) in
  let entity_types := record_type obj object_type entity_types in
  KG g triples entity_types.

(** [add_triples_batch] *)
Definition add_triples_batch (ts : list triple) (self : KnowledgeGraph)
  : KnowledgeGraph :=
  fold_left (fun self '(subject, predicate, obj) =>
               add_triple subject predicate obj None None self)
            ts self.

(** The three counts of [get_statistics]: ['num_nodes'], ['num_edges']
    and ['num_triples']. *)
Definition num_nodes (self : KnowledgeGraph) : nat :=
  number_of_nodes (graph self).
Definition num_edges (self : KnowledgeGraph) : nat :=
  number_of_edges (graph self).
Definition num_triples (self : KnowledgeGraph) : nat :=
  length (triples self).

(** [get_entity_types_distribution]: how many nodes carry each value
    of the attribute [entity_type]. *)
Definition get_entity_types_distribution (self : KnowledgeGraph)
  : gmap string nat :=
  fold_left
    (fun type_counts nd =>
       let entity_type := default "UNKNOWN" nd.2 in
       <[entity_type := S (default 0%nat (type_counts !! entity_type))]>
         type_counts)
    (nodes (graph self)) ∅.

(** *** Outcomes of a call that may raise *)

Inductive exception : Type :=
| ValueError (message : string)
| FileNotFoundError (path : string).

Inductive outcome (A : Type) : Type :=
| Return (a : A)
| Raise (e : exception).
Arguments Return {A} a.
Arguments Raise {A} e.

(** *** [get_top_entities]

    PageRank and betweenness are networkx's, computed in floating
    point; they are taken as given, with the type of floats and its
    order. *)
Section TopEntities.

Context {float : Type}.
Variable float_of_int : Z -> float.
Variable float_le : float -> float -> bool.
Variable pagerank : MultiDiGraph -> list (string * float).
Variable betweenness_centrality : MultiDiGraph -> list (string * float).

Inductive score : Type :=
| IntScore (n : Z)
| FloatScore (x : float).

Definition score_le (a b : score) : bool :=
  match a, b with
  | IntScore m, IntScore n => (m <=? n)%Z
  | IntScore m, FloatScore y => float_le (float_of_int m) y
  | FloatScore x, IntScore n => float_le x (float_of_int n)
  | FloatScore x, FloatScore y => float_le x y
  end.

Definition int_scores (l : list (string * Z)) : list (string * score) :=
  map (fun '(n, d) => (n, IntScore d)) l.
Definition float_scores (l : list (string * float)) : list (string * score) :=
  map (fun '(n, x) => (n, FloatScore x)) l.

(** [l[:n]] *)
Definition take {A : Type} (n : Z) (l : list A) : list A :=
  if (n <? 0)%Z then firstn (length l - Z.to_nat (- n)) l
  else firstn (Z.to_nat n) l.

Definition get_top_entities (n : Z) (metric : string) (self : KnowledgeGraph)
  : outcome (list (string * score)) :=
  if (number_of_nodes (graph self) =? 0)%nat then Return []
  else
    let sort_and_cut (scores : list (string * score)) :=
      (* sorted(scores.items(), key=lambda x: x[1], reverse=True)[:n] *)
      Return (take n (Py.sorted (fun a b => score_le b.2 a.2) scores)) in
    if String.eqb metric "degree" then
      sort_and_cut (int_scores (degree_view degree (graph self)))
    else if String.eqb metric "in_degree" then
      sort_and_cut (int_scores (degree_view in_degree (graph self)))
    else if String.eqb metric "out_degree" then
      sort_and_cut (int_scores (degree_view out_degree (graph self)))
    else if String.eqb metric "pagerank" then
      sort_and_cut (float_scores (pagerank (graph self)))
    else if String.eqb metric "betweenness" then
      sort_and_cut (float_scores (betweenness_centrality (graph self)))
    else Raise (ValueError ("Unknown metric: " +:+ metric)).

End TopEntities.

(** *** [save_graph] and [load_graph]

    The file holds the JSON object
    [{"triples": [...], "entity_types": {...}}]; the JSON text itself
    is not modelled, a file's content is the object.  The file system
    maps paths to contents. *)
Record graph_file : Type := GraphFile {
  file_triples : list triple;
  file_entity_types : option (gmap string string)
}.

Definition file_system : Type := gmap string graph_file.

(** [save_graph] *)
Definition save_graph (filepath : string) (self : KnowledgeGraph)
    (fs : file_system) : file_system :=
  let data := GraphFile (triples self) (Some (entity_types self)) in
  <[filepath := data]> fs.

(** The loop [for subject, predicate, obj in self.triples:
    self.add_triple(...)] of [load_graph].  The list walked is
    [self.triples] itself, the list [add_triple] appends to: the
    iterator holds an index [i] into the current list and stops when
    [i] reaches its current length.  [rebuild fuel i self] runs at most
    [fuel] rounds; [None] says the loop is still running after them. *)
Fixpoint rebuild (fuel : nat) (i : nat) (self : KnowledgeGraph)
  : option KnowledgeGraph :=
  match triples self !! i with
  | None => Some self
  | Some (subject, predicate, obj) =>
      match fuel with
      | O => None
      | S fuel' =>
          rebuild fuel' (S i)
            (add_triple subject predicate obj
               (entity_types self !! subject) (entity_types self !! obj)
               self)
      end
  end.

(** [load_graph], with the fuel of its loop *)
Definition load_graph (fuel : nat) (filepath : string) (fs : file_system)
    (self : KnowledgeGraph) : option (outcome KnowledgeGraph) :=
  match fs !! filepath with
  | None => Some (Raise (FileNotFoundError filepath))
  | Some data =>
      let self := KG (graph self) (file_triples data)
                     (default ∅ (file_entity_types data)) in
      let self := KG empty_graph (triples self) (entity_types self) in
      Return <$> rebuild fuel 0 self
  end.

(** *** Queries

    [collections.Counter]: [counts[k] += 1]. *)
Definition counter_add (k : string) (counts : gmap string nat)
  : gmap string nat :=
  <[k := S (default 0%nat (counts !! k))]> counts.

(** [get_all_relations]: every edge of the model carries its relation,
    so the default ['UNKNOWN'] of [data.get] is never used. *)
Definition get_all_relations (self : KnowledgeGraph) : gset string :=
  fold_left (fun relations e => relations ∪ {[ edge_relation e ]})
            (edges (graph self)) ∅.

(** [get_relation_distribution] *)
Definition get_relation_distribution (self : KnowledgeGraph)
  : gmap string nat :=
  fold_left (fun relation_counts e => counter_add (edge_relation e) relation_counts)
            (edges (graph self)) ∅.

(** [subject is not None and s != subject] *)
Definition differs (filter_ : option string) (s : string) : bool :=
  match filter_ with
  | Some x => negb (String.eqb s x)
  | None => false
  end.

(** [query_triples] *)
Definition query_triples (subject predicate obj : option string)
    (self : KnowledgeGraph) : list triple :=
  fold_left
    (fun results '(s, p, o) =>
       if differs subject s then results
       else if differs predicate p then results
       else if differs obj o then results
       else results ++ [(s, p, o)])
    (triples self) [].

(** The keys of an adjacency dict, in the order in which they were first
    inserted. *)
Definition first_seen (l : list string) : list string :=
  fold_left (fun seen x => if Py.str_in x seen then seen else seen ++ [x]) l [].

(** [g.successors(n)] and [g.predecessors(n)] *)
Definition successors (g : MultiDiGraph) (n : string) : list string :=
  first_seen
    (map edge_target (filter (fun e => String.eqb (edge_source e) n) (edges g))).
Definition predecessors (g : MultiDiGraph) (n : string) : list string :=
  first_seen
    (map edge_source (filter (fun e => String.eqb (edge_target e) n) (edges g))).

(** [get_neighbors]: [(relation, neighbor, direction)]; the values of
    [g.get_edge_data(u, v)] are the parallel edges in key order. *)
Definition get_neighbors (entity : string) (direction : string)
    (self : KnowledgeGraph) : list (string * string * string) :=
  if negb (has_node (graph self) entity) then []
  else
    let neighbors := [] in
    let neighbors :=
      if Py.str_in direction ["out"; "both"] then
        fold_left
          (fun neighbors neighbor =>
             fold_left
               (fun neighbors edge_data =>
                  neighbors ++ [(edge_relation edge_data, neighbor, "out")])
               (parallel_edges (graph self) entity neighbor) neighbors)
          (successors (graph self) entity) neighbors
      else neighbors in
    let neighbors :=
      if Py.str_in direction ["in"; "both"] then
        fold_left
          (fun neighbors neighbor =>
             fold_left
               (fun neighbors edge_data =>
                  neighbors ++ [(edge_relation edge_data, neighbor, "in")])
               (parallel_edges (graph self) neighbor entity) neighbors)
          (predecessors (graph self) entity) neighbors
      else neighbors in
    neighbors.

(** *** [get_subgraph]

    The state of the breadth-first search from one seed:
    [(nodes_to_include, visited, queue)]. *)
Definition search_state : Type :=
  gset string * gset string * list (string * Z).

(** The body of the two loops over the neighbours of a node found at
    [depth]. *)
Definition visit (depth : Z) (st : search_state) (neighbor : string)
  : search_state :=
  let '(nodes_to_include, visited, queue) := st in
  let nodes_to_include := nodes_to_include ∪ {[ neighbor ]} in
  if decide (neighbor ∈ visited) then (nodes_to_include, visited, queue)
  else (nodes_to_include, visited ∪ {[ neighbor ]},
        queue ++ [(neighbor, (depth + 1)%Z)]).

(** The loop [while queue:]; [None] says that it is still running after
    [fuel] rounds. *)
Fixpoint search (fuel : nat) (g : MultiDiGraph) (max_depth : Z)
    (st : search_state) : option (gset string) :=
  let '(nodes_to_include, visited, queue) := st in
  match queue with
  | [] => Some nodes_to_include
  | (node, depth) :: queue =>
      match fuel with
      | O => None
      | S fuel' =>
          if (depth >=? max_depth)%Z then
            search fuel' g max_depth (nodes_to_include, visited, queue)
          else
            let st := fold_left (visit depth) (successors g node)
                                (nodes_to_include, visited, queue) in
            let st := fold_left (visit depth) (predecessors g node) st in
            search fuel' g max_depth st
      end
  end.

(** The loop over the seeds. *)
Fixpoint collect (fuel : nat) (g : MultiDiGraph) (max_depth : Z)
    (entities : list string) (nodes_to_include : gset string)
  : option (gset string) :=
  match entities with
  | [] => Some nodes_to_include
  | entity :: entities =>
      if negb (has_node g entity) then
        collect fuel g max_depth entities nodes_to_include
      else
        match search fuel g max_depth
                (nodes_to_include, {[ entity ]}, [(entity, 0%Z)]) with
        | Some nodes_to_include =>
            collect fuel g max_depth entities nodes_to_include
        | None => None
        end
  end.

(** The store built from the triples whose two ends are kept. *)
Definition restrict (nodes_to_include : gset string) (self : KnowledgeGraph)
  : KnowledgeGraph :=
  fold_left
    (fun subgraph_kg '((s, p, o) : triple) =>
       if bool_decide (s ∈ nodes_to_include)
          && bool_decide (o ∈ nodes_to_include)
       then add_triple s p o (entity_types self !! s) (entity_types self !! o)
              subgraph_kg
       else subgraph_kg)
    (triples self) init.

(** [get_subgraph], with the fuel of each search *)
Definition get_subgraph (fuel : nat) (entities : list string) (max_depth : Z)
    (self : KnowledgeGraph) : option KnowledgeGraph :=
  match collect fuel (graph self) max_depth entities (list_to_set entities) with
  | Some nodes_to_include => Some (restrict nodes_to_include self)
  | None => None
  end.

End KnowledgeGraph.

(** ** [main_pipeline.py]: class [Pipeline]

    What [process_text] and [process_posts] do to the store and to the
    statistics; the progress messages they print are left out. *)

Module Pipeline.

Import CustomNER.
Import RelationExtractor.
Import KnowledgeGraph.

(** [self.stats] *)
Record statistics : Type := Stats {
  total_posts_processed : nat;
  total_entities_extracted : nat;
  total_triples_extracted : nat;
  entity_type_counts : gmap string nat;
  relation_type_counts : gmap string nat;
  posts_with_entities : nat;
  posts_with_relations : nat
}.

(** The pipeline object: its store and its statistics. *)
Record pipeline : Type := Pipe {
  kg : KnowledgeGraph;
  stats : statistics
}.

(** [__init__] *)
Definition init_pipeline : pipeline :=
  Pipe init (Stats 0 0 0 ∅ ∅ 0 0).

(** Truth value of a Python value. *)
Definition truth (v : pyvalue) : bool :=
  match v with
  | PyNone => false
  | PyBool b => b
  | PyInt n => negb (n =? 0)%Z
  | PyStr s => negb (String.eqb s "")
  end.

(** The dict [process_text] returns; the key
    ['entities_with_positions'] is missing from the one returned for an
    unusable text. *)
Record text_result : Type := TextResult {
  result_entities : list (string * string);
  result_entities_with_positions : option (list span);
  result_triples : list triple
}.

(** [process_text] *)
Definition process_text (text : pyvalue) : text_result :=
  match usable_text text with
  | None => TextResult [] None []
  | Some _ =>
      let entities_with_pos := extract_entities_with_positions text in
      let entities := extract_entities text in
      let triples := extract_relations text in
      let triples :=
        if match triples with [] => true | _ => false end
           && (2 <=? length entities)%nat
        then extract_simple_triples text
        else triples in
      TextResult entities (Some entities_with_pos) triples
  end.

(** The loop that finds the types of the two ends of a triple among the
    entities of the text: the last entity with the text decides. *)
Definition find_types (entities : list (string * string)) (subject obj : string)
  : option string * option string :=
  fold_left
    (fun '(subject_type, object_type) '(etype, etext) =>
       let subject_type :=
         if String.eqb etext subject then Some etype else subject_type in
       let object_type :=
         if String.eqb etext obj then Some etype else object_type in
       (subject_type, object_type))
    entities (None, None).

(** The loop over the triples of one post. *)
Definition add_triples (entities : list (string * string))
    (triples : list triple) (self : pipeline) : pipeline :=
  fold_left
    (fun self '(subject, predicate, obj) =>
       let '(subject_type, object_type) := find_types entities subject obj in
       let kg := add_triple subject predicate obj subject_type object_type
                   (kg self) in
       let st := stats self in
       Pipe kg
         (Stats (total_posts_processed st) (total_entities_extracted st)
            (total_triples_extracted st) (entity_type_counts st)
            (counter_add predicate (relation_type_counts st))
            (posts_with_entities st) (posts_with_relations st)))
    triples self.

(** The body of the loop of [process_posts] for one post. *)
Definition process_post (self : pipeline) (post : gmap string pyvalue)
  : pipeline :=
  let text := default (PyStr "") (post !! "text_content") in
  if negb (truth text) then self
  else
    let result := process_text text in
    let entities := result_entities result in
    let triples := result_triples result in
    let st := stats self in
    let st :=
      Stats (total_posts_processed st + 1) (total_entities_extracted st)
        (total_triples_extracted st) (entity_type_counts st)
        (relation_type_counts st) (posts_with_entities st)
        (posts_with_relations st) in
    let st :=
      match entities with
      | [] => st
      | _ =>
          Stats (total_posts_processed st)
            (total_entities_extracted st + length entities)
            (total_triples_extracted st)
            (fold_left (fun counts '(entity_type, _) => counter_add entity_type counts)
                       entities (entity_type_counts st))
            (relation_type_counts st) (posts_with_entities st + 1)
            (posts_with_relations st)
      end in
    match triples with
    | [] => Pipe (kg self) st
    | _ =>
        let st :=
          Stats (total_posts_processed st) (total_entities_extracted st)
            (total_triples_extracted st + length triples)
            (entity_type_counts st) (relation_type_counts st)
            (posts_with_entities st) (posts_with_relations st + 1) in
        add_triples entities triples (Pipe (kg self) st)
    end.

(** [process_posts]; [limit] is [None] or an [int]. *)
Definition process_posts (posts : list (gmap string pyvalue))
    (limit : option Z) (self : pipeline) : pipeline :=
  let posts :=
    match limit with
    | Some n => if (n =? 0)%Z then posts else take n posts
    | None => posts
    end in
  fold_left process_post posts self.

End Pipeline.

(** ** [_match_dictionary] on a text beyond ASCII

    [str.lower()] can make a text longer: ['İ'.lower()] (U+0130) is
    ['i'] followed by the combining dot U+0307.  To follow
    [_match_dictionary] on such a text, a string is here the list of
    its code points.  [lower] and [isalnum] are Python's on the code
    points that [known] names and on their lower-cased forms; a text
    with any other code point is not followed ([None]). *)

Module CodePoints.

Import CustomNER.

Definition str : Type := list N.

(** The code points of an ASCII string. *)
Definition of_string (s : string) : str :=
  map N_of_ascii (list_ascii_of_string s).

(** ASCII and U+0130. *)
Definition known (c : N) : bool := ((c <? 128) || (c =? 304))%N.

(** [c.lower()] *)
Definition lower_char (c : N) : list N :=
  if (c =? 304)%N then [105%N; 775%N]
  else if ((65 <=? c) && (c <=? 90))%N then [(c + 32)%N]
  else [c].

(** [s.lower()] *)
Definition lower (s : str) : str := flat_map lower_char s.

(** [c.isalnum()]; U+0307 is a combining mark and not alphanumeric. *)
Definition isalnum (c : N) : bool :=
  (((48 <=? c) && (c <=? 57)) || ((65 <=? c) && (c <=? 90))
   || ((97 <=? c) && (c <=? 122)) || (c =? 304))%N.

Fixpoint starts_with (sub s : str) : bool :=
  match sub, s with
  | [], _ => true
  | a :: sub', b :: s' => (a =? b)%N && starts_with sub' s'
  | _ :: _, [] => false
  end.

Fixpoint find_from (sub s : str) (offset : nat) : option nat :=
  if starts_with sub s then Some offset
  else
    match s with
    | [] => None
    | _ :: s' => find_from sub s' (S offset)
    end.

(** [s.find(sub, start)]; [None] stands for [-1] *)
Definition find (s sub : str) (start : nat) : option nat :=
  if (length s <? start)%nat then None
  else find_from sub (skipn start s) start.

(** [s[i].isalnum()] *)
Definition isalnum_at (s : str) (i : nat) : bool :=
  match s !! i with
  | Some c => isalnum c
  | None => false
  end.

(** [s[a:b]] for [0 <= a <= b] *)
Definition slice (s : str) (a b : nat) : str := firstn (b - a) (skipn a s).

(** [(entity_type, original_text, pos, end_pos)] *)
Definition span : Type := string * str * Z * Z.

(** The [while True] loop of [_match_dictionary], as
    [CustomNER.find_occurrences]. *)
Fixpoint find_occurrences (fuel : nat) (entity_type : string)
    (text text_lower entity : str) (start : nat) (entities : list span)
  : list span :=
  match fuel with
  | S fuel' =>
      match find text_lower entity start with
      | None => entities                                   (* break *)
      | Some pos =>
          if (0 <? pos)%nat && isalnum_at text_lower (pos - 1) then
            find_occurrences fuel' entity_type text text_lower entity
              (pos + 1) entities
          else
            let end_pos := (pos + length entity)%nat in
            if (end_pos <? length text_lower)%nat
               && isalnum_at text_lower end_pos then
              find_occurrences fuel' entity_type text text_lower entity
                (pos + 1) entities
            else
              let original_text := slice text pos end_pos in
              find_occurrences fuel' entity_type text text_lower entity
                end_pos
                (entities ++
                 [(entity_type, original_text, Z.of_nat pos, Z.of_nat end_pos)])
      end
  | O => entities
  end.

(** The two loops over the dictionaries, with [fuel] rounds for the
    scan of each term. *)
Definition match_terms (fuel : nat) (text : str) : list span :=
  let text_lower := lower text in
  fold_left
    (fun entities '(entity_type, dictionary) =>
       fold_left
         (fun entities entity =>
            find_occurrences fuel entity_type text text_lower
              (of_string entity) 0 entities)
         dictionary entities)
    entity_dictionaries [].

(** [_match_dictionary]: a scan moves forward in every round, so it
    ends within [len(text_lower) + 1] rounds. *)
Definition _match_dictionary (text : str) : option (list span) :=
  if forallb known text then
    Some (match_terms (S (length (lower text))) text)
  else None.

End CodePoints.

(** ** Notions used to state the properties *)

Import CustomNER.
Import RelationExtractor.
Import KnowledgeGraph.
Import Pipeline.

(** Offset [k] lies inside the half-open span. *)
Definition covers (e : span) (k : Z) : Prop :=
  (span_start e <= k < span_end e)%Z.

(** No two spans of the list share an offset. *)
Definition pairwise_disjoint (l : list span) : Prop :=
  forall (i j : nat) (a b : span),
    i <> j -> l !! i = Some a -> l !! j = Some b ->
    forall k : Z, ~ (covers a k /\ covers b k).

(** Every span of the list ends before the later ones start. *)
Definition chained (l : list span) : Prop :=
  forall (i j : nat) (a b : span),
    (i < j)%nat -> l !! i = Some a -> l !! j = Some b ->
    (span_end a <= span_start b)%Z.

(** The sweep of [_resolve_overlaps] as a recursive function. *)
Fixpoint sweep (last_end : Z) (l : list span) : list span :=
  match l with
  | [] => []
  | e :: l' =>
      if (span_start e >=? last_end)%Z then e :: sweep (span_end e) l'
      else sweep last_end l'
  end.

(** The order [sorted] leaves the candidates in, as far as the sweep
    needs it. *)
Definition by_start (a b : span) : Prop := (span_start a <= span_start b)%Z.

(** What the last loop of [extract_entities_with_positions] does to a
    span: the text is normalised, the offsets are kept. *)
Definition normalize (e : span) : span :=
  (span_type e, _capitalize_entity (span_text e) (span_type e),
   span_start e, span_end e).

(** The [(entity_type, text)] components of a span. *)
Definition drop_positions (e : span) : string * string :=
  (span_type e, span_text e).

(** The character at offset [i] of the text, if any, is not
    alphanumeric. *)
Definition not_alnum_at (text : string) (i : nat) : Prop :=
  forall c : ascii, Py.char_at text i = Some c -> Py.isalnum c = false.

(** A span reported for [text] covers [pos .. end_pos), is a
    case-insensitive occurrence of a term of the dictionary of its type
    and has no alphanumeric neighbour in the text. *)
Definition bounded_occurrence (text : string) (e : span) : Prop :=
  exists (pos end_pos : nat) (dictionary : list string) (entity : string),
    (span_type e, dictionary) ∈ entity_dictionaries /\
    entity ∈ dictionary /\
    span_start e = Z.of_nat pos /\ span_end e = Z.of_nat end_pos /\
    end_pos = (pos + String.length entity)%nat /\
    String.substring pos (String.length entity) (Py.lower text) = entity /\
    span_text e = Py.slice text (Z.of_nat pos) (Z.of_nat end_pos) /\
    ((0 < pos)%nat -> not_alnum_at text (pos - 1)) /\
    not_alnum_at text end_pos.

(** All terms of all dictionaries. *)
Definition dictionary_terms : list string :=
  flat_map snd entity_dictionaries.

(** [_match_dictionary] for dictionaries whose sets are walked in the
    order of the given lists. *)
Definition match_dictionary_walk (dictionaries : list (string * list string))
    (text : string) : list span :=
  let text_lower := Py.lower text in
  fold_left
    (fun entities '(entity_type, dictionary) =>
       fold_left
         (fun entities entity =>
            find_occurrences (S (String.length text)) entity_type text
              text_lower entity 0 entities)
         dictionary entities)
    dictionaries [].

(** The spans one term contributes. *)
Definition occurrences (text entity_type entity : string) : list span :=
  find_occurrences (S (String.length text)) entity_type text (Py.lower text)
    entity 0 [].

(** The same sets, each walked in some other order. *)
Definition same_sets (d d' : list (string * list string)) : Prop :=
  Forall2 (fun a b => a.1 = b.1 /\ a.2 ≡ₚ b.2) d d'.

(** The offsets of a span. *)
Definition span_bounds (e : span) : Z * Z := (span_start e, span_end e).

(** The text between two offsets of the lower-cased text. *)
Definition term_at (text : string) (b : Z * Z) : string :=
  String.substring (Z.to_nat b.1) (Z.to_nat (b.2 - b.1)) (Py.lower text).

(** Both extraction loops append a candidate unless its key was seen
    before: the body of such a loop, on the state [(list, seen)]. *)
Definition dedup_step {A K : Type} `{Countable K} (key : A -> K)
    (st : list A * gset K) (x : A) : list A * gset K :=
  if decide (key x ∈ st.2) then st
  else (st.1 ++ [x], st.2 ∪ {[ key x ]}).

(** [first_occurrences key seen l] keeps, in order, the elements of [l]
    whose key is neither in [seen] nor the key of an earlier element. *)
Fixpoint first_occurrences {A K : Type} `{Countable K} (key : A -> K)
    (seen : gset K) (l : list A) : list A :=
  match l with
  | [] => []
  | x :: l' =>
      if decide (key x ∈ seen) then first_occurrences key seen l'
      else x :: first_occurrences key (seen ∪ {[ key x ]}) l'
  end.

(** What the loop [for x in candidates: if key(x) not in seen: ...]
    leaves in its list, started with nothing seen. *)
Definition emitted {A K : Type} `{Countable K} (key : A -> K)
    (candidates : list A) : list A :=
  (fold_left (dedup_step key) candidates ([], ∅)).1.

(** The three facts that make [out] the candidates with every repeated
    key dropped: no key twice, the order of the candidates, and every
    first occurrence present. *)
Definition first_occurrences_of {A K : Type} (key : A -> K)
    (candidates out : list A) : Prop :=
  NoDup (map key out) /\
  sublist out candidates /\
  (forall (pre post : list A) (x : A),
     candidates = pre ++ x :: post -> key x ∉ map key pre -> x ∈ out).

(** The triples for which the rule loop of [extract_relations] reaches
    [if found:], for one pair of entities, in rule order. *)
Definition rule_candidates (text : string) (subj obj : span) : list triple :=
  flat_map
    (fun pattern =>
       if Py.str_in (span_type subj) (subject_types pattern)
          && Py.str_in (span_type obj) (object_types pattern)
       then
         if (_find_connecting_phrase text (span_end subj) (span_start obj)
               (connecting_words pattern)).1
         then [(span_text subj, predicate pattern, span_text obj)]
         else []
       else [])
    relation_patterns.

(** The same over all index pairs, in loop order. *)
Definition pair_candidates (text : string) (entities : list span) : list triple :=
  flat_map
    (fun '(i, subj) =>
       flat_map
         (fun '(j, obj) =>
            if (i =? j)%nat then []
            else if (span_start subj >=? span_start obj)%Z then []
            else rule_candidates text subj obj)
         (Py.enumerate entities))
    (Py.enumerate entities).

(** The candidates of a call of [extract_relations]. *)
Definition relation_candidates (text : pyvalue) : list triple :=
  match usable_text text with
  | Some s => pair_candidates s (extract_entities_with_positions text)
  | None => []
  end.

(** The candidates of a call of [extract_simple_triples]: one per index
    pair [i < j], in loop order. *)
Definition simple_candidates (text : pyvalue) : list triple :=
  let entities := extract_entities text in
  flat_map
    (fun '(i, e1) =>
       flat_map
         (fun '(j, e2) =>
            if (j <=? i)%nat then []
            else [(e1.2, _infer_relation e1.1 e2.1, e2.2)])
         (Py.enumerate entities))
    (Py.enumerate entities).

(** The key [extract_simple_triples] remembers: the two lower-cased
    texts, subject first. *)
Definition ordered_pair_key (t : triple) : string * string :=
  (Py.lower t.1.1, Py.lower t.2).

(** The (subject, predicate) pair of a triple. *)
Definition subject_predicate (t : triple) : string * string := (t.1.1, t.1.2).

(** Two triples join the same two lower-cased texts, in the same or in
    the opposite order. *)
Definition same_texts_either_order (t1 t2 : triple) : Prop :=
  (Py.lower t1.1.1 = Py.lower t2.1.1 /\ Py.lower t1.2 = Py.lower t2.2) \/
  (Py.lower t1.1.1 = Py.lower t2.2 /\ Py.lower t1.2 = Py.lower t2.1.1).

(** No two triples of the list join the same unordered pair of texts. *)
Definition unordered_pairs_once (out : list triple) : Prop :=
  forall (i j : nat) (t1 t2 : triple),
    (i < j)%nat -> out !! i = Some t1 -> out !! j = Some t2 ->
    ~ same_texts_either_order t1 t2.

(** Three texts the properties are tried on. *)
Definition two_rates : pyvalue :=
  PyStr "Trump announces 25% tariff and 10% tariff".

Definition repeated_mention : pyvalue :=
  PyStr "China and India and China".

Definition repeated_sentence : pyvalue :=
  PyStr "Trump announces tariff policy and Trump announces tariff policy".

(** One call of [add_triple]:
    [(subject, predicate, obj, subject_type, object_type)]. *)
Definition call : Type :=
  string * string * string * option string * option string.

(** The call made on a store. *)
Definition apply_call (self : KnowledgeGraph) (c : call) : KnowledgeGraph :=
  let '(subject, predicate, obj, subject_type, object_type) := c in
  add_triple subject predicate obj subject_type object_type self.

(** The store after a sequence of calls on a fresh one. *)
Definition after_calls (calls : list call) : KnowledgeGraph :=
  fold_left apply_call calls init.

(** The metric names [get_top_entities] knows. *)
Definition known_metrics : list string :=
  ["degree"; "in_degree"; "out_degree"; "pagerank"; "betweenness"].

(** On this store every metric outside [known_metrics] raises
    [ValueError]. *)
Definition unknown_metric_always_raises (self : KnowledgeGraph) : Prop :=
  forall (float : Type) (float_of_int : Z -> float)
         (float_le : float -> float -> bool)
         (pagerank betweenness_centrality : MultiDiGraph -> list (string * float))
         (n : Z) (metric : string),
    metric ∉ known_metrics ->
    exists message : string,
      get_top_entities float_of_int float_le pagerank betweenness_centrality
        n metric self = Raise (ValueError message).

(** A store in which ["Trump"] is first named with a type and then
    without one. *)
Definition typed_then_untyped : KnowledgeGraph :=
  add_triple "BBC" "REPORTS" "Trump" (Some "ORGANIZATION") None
    (add_triple "Trump" "ANNOUNCES" "25% tariff" (Some "PERSON")
       (Some "TARIFF_RATE") init).

(** The order of the sort keys of [_resolve_overlaps]. *)
Definition by_key (a b : span) : Prop := span_le a b = true.

(** Every candidate starts at offset [-1] or later, as every candidate
    that matching produces does. *)
Definition starts_in_text (l : list span) : Prop :=
  Forall (fun c => (-1 <= span_start c)%Z) l.

(** The types whose texts [_capitalize_entity] re-cases. *)
Definition name_types : list string := ["PERSON"; "LOCATION"; "ORGANIZATION"].

(** The dictionaries with every set walked backwards. *)
Definition reversed_dictionaries : list (string * list string) :=
  map (fun entry => (entry.1, rev entry.2)) entity_dictionaries.

(** The least number of characters a match of the pattern takes. *)
Fixpoint min_len (r : Re.regex) : nat :=
  match r with
  | Re.Eps | Re.WordB | Re.Star _ | Re.Look _ => 0
  | Re.Lit _ | Re.Set_ _ | Re.Digit | Re.Space | Re.Any => 1
  | Re.Seq r1 r2 => min_len r1 + min_len r2
  | Re.Alt r1 r2 => Nat.min (min_len r1) (min_len r2)
  end.

(** Cursor [c'] is at least [n] characters after [c] in the same
    string. *)
Definition ahead (n : nat) (c c' : Re.cursor) : Prop :=
  (Re.pos c + n <= Re.pos c')%nat /\
  (Re.pos c' + String.length (Re.rest c')
   = Re.pos c + String.length (Re.rest c))%nat.

(** A match [(b, e)] of at least [n] characters in a string of [total]
    characters, at or after offset [from]. *)
Definition match_inside (n from total : nat) (m : nat * nat) : Prop :=
  (from <= m.1)%nat /\ (m.1 + n <= m.2)%nat /\ (m.2 <= total)%nat.

(** A span that lies in the text, is not empty and carries the text
    between its offsets. *)
Definition inside_text (text : string) (e : span) : Prop :=
  (0 <= span_start e < span_end e)%Z /\
  (span_end e <= Py.len text)%Z /\
  span_text e = Py.slice text (span_start e) (span_end e).

(** The triple an edge stands for. *)
Definition edge_triple (e : edge) : KnowledgeGraph.triple :=
  (edge_source e, edge_relation e, edge_target e).

(** The names of the nodes, in insertion order. *)
Definition node_names (g : MultiDiGraph) : list string := map fst (nodes g).

(** What [add_triple] keeps true of a store: the edges are the log, in
    its order; no node is there twice; the ends of the edges are
    nodes. *)
Definition coherent (self : KnowledgeGraph) : Prop :=
  map edge_triple (edges (graph self)) = triples self /\
  NoDup (node_names (graph self)) /\
  (forall e : edge,
     e ∈ edges (graph self) ->
     edge_source e ∈ node_names (graph self) /\
     edge_target e ∈ node_names (graph self)).

(** [sum(view.values())] *)
Definition total (view : list (string * Z)) : Z :=
  fold_right Z.add 0%Z (map snd view).

(** How often relation [r] is in a log. *)
Definition occurrences_of (r : string) (log : list KnowledgeGraph.triple) : nat :=
  length (filter (fun t : KnowledgeGraph.triple => t.1.2 = r) log).

(** A triple passes the three filters of [query_triples]. *)
Definition passes (subject predicate obj : option string)
    (t : KnowledgeGraph.triple) : Prop :=
  (forall x, subject = Some x -> t.1.1 = x) /\
  (forall x, predicate = Some x -> t.1.2 = x) /\
  (forall x, obj = Some x -> t.2 = x).

(** The metrics of [get_top_entities] that networkx computes as integer
    degrees, with the view each of them reads. *)
Definition degree_metrics : list (string * (MultiDiGraph -> string -> Z)) :=
  [("degree", degree); ("in_degree", in_degree); ("out_degree", out_degree)].

(** A list of scored entities is ranked: no score is above one before
    it. *)
Definition ranked (l : list (string * Z)) : Prop :=
  StronglySorted (fun a b => (b.2 <= a.2)%Z) l.

(** [sum(counts.values())] *)
Definition count_total (counts : gmap string nat) : nat :=
  map_fold (fun _ v acc => (v + acc)%nat) 0%nat counts.

(** The value of the attribute [entity_type] that
    [data.get('entity_type', 'UNKNOWN')] reads at a node. *)
Definition attribute_read (nd : string * option string) : string :=
  default "UNKNOWN" nd.2.

(** The entity types recognition can report: the keys of the
    dictionaries and of the pattern table. *)
Definition entity_type_names : list string :=
  map fst entity_dictionaries ++ map fst entity_patterns.

(** Every node has a type that recognition reports, as its attribute
    and in the type map alike. *)
Definition typed_store (self : KnowledgeGraph) : Prop :=
  forall n : string,
    n ∈ node_names (graph self) ->
    exists t : string,
      t ∈ entity_type_names /\
      node_entity_type (graph self) n = Some t /\
      entity_types self !! n = Some t.

(** What [process_posts] keeps true of a pipeline: the store is one
    that [add_triple] calls build, all its nodes are typed, and the
    statistics say what the store holds. *)
Definition consistent (self : pipeline) : Prop :=
  (exists calls : list call, kg self = after_calls calls) /\
  typed_store (kg self) /\
  total_triples_extracted (stats self) = num_triples (kg self) /\
  relation_type_counts (stats self) = get_relation_distribution (kg self) /\
  (posts_with_relations (stats self) <= posts_with_entities (stats self))%nat /\
  (posts_with_entities (stats self) <= total_posts_processed (stats self))%nat /\
  (posts_with_entities (stats self) <= total_entities_extracted (stats self))%nat /\
  (posts_with_relations (stats self) <= total_triples_extracted (stats self))%nat /\
  count_total (entity_type_counts (stats self))
  = total_entities_extracted (stats self).

(** The entities a list of triples names. *)
Definition named_in (ts : list KnowledgeGraph.triple) (n : string) : Prop :=
  exists t : KnowledgeGraph.triple, t ∈ ts /\ (n = t.1.1 \/ n = t.2).

(** The calls [add_triples_batch] makes. *)
Definition untyped_calls (ts : list KnowledgeGraph.triple) : list call :=
  map (fun t : KnowledgeGraph.triple => (t.1.1, t.1.2, t.2, None, None)) ts.

(** What bounds a breadth-first search over the nodes [U]: the nodes
    not yet visited and the entries still in the queue. *)
Definition search_measure (U : gset string) (st : search_state) : nat :=
  (size U - size st.1.2 + length st.2)%nat.

(** Both ends of the triple are among [nodes_to_include]. *)
Definition inside (nodes_to_include : gset string) (t : KnowledgeGraph.triple)
  : bool :=
  bool_decide (t.1.1 ∈ nodes_to_include) && bool_decide (t.2 ∈ nodes_to_include).

(** [s.isascii()] *)
Definition isascii (s : string) : bool :=
  forallb (fun c => (Py.code c <? 128)%N) (list_ascii_of_string s).


(** A span of the embedding on [string]s, with its text as code
    points. *)
Definition code_points_of_span (e : span) : CodePoints.span :=
  (span_type e, CodePoints.of_string (span_text e), span_start e, span_end e).

(** The last sentence of C4 for the other operation of the store that
    can raise: whatever [load_graph] raises is the invalid-argument
    error. *)
Definition raises_invalid_argument_only : Prop :=
  forall (fuel : nat) (filepath : string) (fs : file_system)
         (self : KnowledgeGraph) (e : exception),
    load_graph fuel filepath fs self = Some (Raise e) ->
    exists message : string, e = ValueError message.

(** [graph.edges]: networkx walks the edges node by node in the order of
    the nodes, under a node successor by successor in the order in
    which the successors were first seen, and between two nodes key by
    key. *)
Definition edges_view (g : MultiDiGraph) : list edge :=
  flat_map
    (fun u => flat_map (fun v => parallel_edges g u v) (successors g u))
    (node_names g).

(** ** Lists and loops *)

Lemma fold_left_snoc_map {A B : Type} (f : A -> B) (l : list A) (acc : list B) :
  fold_left (fun result x => result ++ [f x]) l acc = acc ++ map f l.
Proof.
  revert acc. induction l as [|x l IH]; intros acc; simpl.
  - by rewrite app_nil_r.
  - rewrite IH. by rewrite <- app_assoc.
Qed.

Lemma fold_left_ext {A B : Type} (f g : A -> B -> A) (l : list B) (a : A) :
  (forall a x, f a x = g a x) -> fold_left f l a = fold_left g l a.
Proof.
  intros Hfg. revert a. induction l as [|x l IH]; intros a; simpl; [done|].
  by rewrite Hfg, IH.
Qed.

Lemma fold_left_flat_map {A B C : Type} (f : A -> C -> A) (g : B -> list C)
    (l : list B) (a : A) :
  fold_left f (flat_map g l) a = fold_left (fun a x => fold_left f (g x) a) l a.
Proof.
  revert a. induction l as [|x l IH]; intros a; simpl; [done|].
  by rewrite fold_left_app, IH.
Qed.

Lemma fold_left_preserves_elem {A B : Type} (P : A -> Prop) (f : A -> B -> A)
    (l : list B) (a : A) :
  (forall a x, x ∈ l -> P a -> P (f a x)) -> P a -> P (fold_left f l a).
Proof.
  revert a. induction l as [|x l IH]; intros a Hstep Ha; simpl; [done|].
  apply IH.
  - intros a' y Hy. apply Hstep. by right.
  - apply Hstep; [by left|done].
Qed.

(** ** The pattern tables *)

(** Every regular expression of the source lies in the fragment
    [Re.compile] understands. *)
Lemma entity_patterns_compile :
  forallb (fun entry : string * list Re.pattern =>
             forallb (fun p => Re.compiles (Re.source p)) entry.2)
          entity_patterns = true.
Proof. vm_compute. reflexivity. Qed.

Lemma connecting_words_compile :
  forallb (fun pattern => forallb Re.compiles (connecting_words pattern))
          relation_patterns = true.
Proof. vm_compute. reflexivity. Qed.

(** ** Overlap resolution *)

Lemma span_le_true (a b : span) :
  span_le a b = true -> (span_start a <= span_start b)%Z.
Proof. unfold span_le, key_le, overlap_key. simpl. lia. Qed.

Lemma span_le_false (a b : span) :
  span_le a b = false -> (span_start b <= span_start a)%Z.
Proof. unfold span_le, key_le, overlap_key. simpl. lia. Qed.

Lemma insert_sorted_elem (x y : span) (l : list span) :
  y ∈ Py.insert_sorted span_le x l -> y = x \/ y ∈ l.
Proof.
  induction l as [|z l IH]; simpl.
  - rewrite list_elem_of_singleton. auto.
  - destruct (span_le x z).
    + rewrite elem_of_cons. auto.
    + rewrite !elem_of_cons. intros [->|H]; auto.
      destruct (IH H); auto.
Qed.

Lemma insert_sorted_by_start (x : span) (l : list span) :
  StronglySorted by_start l ->
  StronglySorted by_start (Py.insert_sorted span_le x l).
Proof.
  induction 1 as [|z l Hl IH Hz]; simpl.
  - repeat constructor.
  - destruct (span_le x z) eqn:Hxz.
    + constructor; [by constructor|].
      apply span_le_true in Hxz.
      constructor; [done|].
      eapply Forall_impl; [exact Hz|]. unfold by_start. intros; lia.
    + constructor; [done|].
      apply span_le_false in Hxz.
      apply Forall_forall. intros y Hy.
      apply insert_sorted_elem in Hy as [->|Hy]; [done|].
      rewrite Forall_forall in Hz. auto.
Qed.

Lemma sorted_by_start (l : list span) :
  StronglySorted by_start (Py.sorted span_le l).
Proof.
  induction l as [|x l IH]; simpl; [constructor|].
  by apply insert_sorted_by_start.
Qed.

Lemma fold_sweep (l : list span) (resolved : list span) (last_end : Z) :
  (fold_left sweep_step l (resolved, last_end)).1 = resolved ++ sweep last_end l.
Proof.
  revert resolved last_end.
  induction l as [|e l IH]; intros resolved last_end; simpl.
  - by rewrite app_nil_r.
  - destruct (span_start e >=? last_end)%Z; rewrite IH; [|done].
    by rewrite <- app_assoc.
Qed.

Lemma sweep_elem (l : list span) (last_end : Z) (b : span) :
  b ∈ sweep last_end l -> b ∈ l.
Proof.
  revert last_end. induction l as [|e l IH]; intros last_end; simpl; [done|].
  destruct (span_start e >=? last_end)%Z; rewrite ?elem_of_cons; [|by eauto].
  intros [->|Hb]; eauto.
Qed.

(** Everything the sweep keeps starts at or after the cursor it was
    started with. *)
Lemma sweep_start_ge (l : list span) (last_end : Z) (b : span) :
  StronglySorted by_start l -> b ∈ sweep last_end l ->
  (last_end <= span_start b)%Z.
Proof.
  intros Hl. revert last_end.
  induction Hl as [|e l Hl IH He]; intros last_end; simpl.
  { intros Hb. by apply elem_of_nil in Hb. }
  destruct (span_start e >=? last_end)%Z eqn:Hge; [|by apply IH].
  rewrite elem_of_cons. intros [->|Hb]; [lia|].
  apply sweep_elem in Hb. rewrite Forall_forall in He.
  specialize (He b Hb). unfold by_start in He. lia.
Qed.

Lemma sweep_chained (l : list span) (last_end : Z) :
  StronglySorted by_start l -> chained (sweep last_end l).
Proof.
  intros Hl. revert last_end.
  induction Hl as [|e l Hl IH He]; intros last_end; simpl.
  - intros i j a b _ Hi. by rewrite lookup_nil in Hi.
  - destruct (span_start e >=? last_end)%Z; [|by apply IH].
    intros i j a b Hij Hi Hj.
    destruct j as [|j]; [lia|]. simpl in Hj.
    destruct i as [|i]; simpl in Hi.
    + injection Hi as <-.
      apply (sweep_start_ge l); [done|].
      by eapply list_elem_of_lookup_2.
    + apply (IH (span_end e) i j); [lia|done..].
Qed.

Lemma resolve_overlaps_sweep (entities : list span) :
  _resolve_overlaps entities = sweep (-1) (Py.sorted span_le entities).
Proof.
  destruct entities as [|e l]; [done|].
  unfold _resolve_overlaps. by rewrite fold_sweep.
Qed.

Lemma resolve_overlaps_chained (entities : list span) :
  chained (_resolve_overlaps entities).
Proof.
  rewrite resolve_overlaps_sweep. apply sweep_chained, sorted_by_start.
Qed.

Lemma chained_disjoint (l : list span) : chained l -> pairwise_disjoint l.
Proof.
  intros Hl i j a b Hij Hi Hj k [Ha Hb]. unfold covers in *.
  destruct (decide (i < j)%nat).
  - pose proof (Hl i j a b ltac:(done) Hi Hj). lia.
  - pose proof (Hl j i b a ltac:(lia) Hj Hi). lia.
Qed.

Lemma chained_normalize (l : list span) :
  chained l -> chained (map normalize l).
Proof.
  intros Hl i j a b Hij Hi Hj.
  rewrite list_lookup_fmap in Hi, Hj.
  destruct (l !! i) as [a'|] eqn:Hi'; [|done].
  destruct (l !! j) as [b'|] eqn:Hj'; [|done].
  simpl in Hi, Hj. injection Hi as <-. injection Hj as <-.
  apply (Hl i j a' b' Hij Hi' Hj').
Qed.

Lemma extract_entities_with_positions_unfold (s : string) :
  usable_text (PyStr s) = Some s ->
  extract_entities_with_positions (PyStr s) =
  map normalize (_resolve_overlaps (_match_dictionary s ++ _match_patterns s)).
Proof.
  intros Hs. unfold extract_entities_with_positions. rewrite Hs.
  rewrite <- (app_nil_l (map _ _)), <- fold_left_snoc_map.
  apply fold_left_ext. by intros a [[[ty tx] st] en].
Qed.

Lemma extract_entities_unfold (s : string) :
  usable_text (PyStr s) = Some s ->
  extract_entities (PyStr s) =
  map (fun e => drop_positions (normalize e))
      (_resolve_overlaps (_match_dictionary s ++ _match_patterns s)).
Proof.
  intros Hs. unfold extract_entities. rewrite Hs.
  rewrite <- (app_nil_l (map _ _)), <- fold_left_snoc_map.
  apply fold_left_ext. by intros a [[[ty tx] st] en].
Qed.

Lemma usable_text_str (text : pyvalue) (s : string) :
  usable_text text = Some s -> text = PyStr s.
Proof.
  destruct text; simpl; try done.
  destruct (String.eqb _ _); [done|]. by intros [= ->].
Qed.

Lemma extract_entities_with_positions_chained (text : pyvalue) :
  chained (extract_entities_with_positions text).
Proof.
  destruct (usable_text text) as [s|] eqn:Hs.
  - apply usable_text_str in Hs as Ht. subst text.
    rewrite extract_entities_with_positions_unfold by done.
    apply chained_normalize, resolve_overlaps_chained.
  - unfold extract_entities_with_positions. rewrite Hs.
    intros i j a b _ Hi. by rewrite lookup_nil in Hi.
Qed.

Lemma extract_entities_projection (text : pyvalue) :
  extract_entities text = map drop_positions (extract_entities_with_positions text).
Proof.
  destruct (usable_text text) as [s|] eqn:Hs.
  - apply usable_text_str in Hs as Ht. subst text.
    rewrite extract_entities_unfold, extract_entities_with_positions_unfold by done.
    by rewrite map_map.
  - unfold extract_entities, extract_entities_with_positions. by rewrite Hs.
Qed.

(** C3.  For every input, no two spans returned by
    [extract_entities_with_positions] share a character offset, and the
    entities of [extract_entities] are exactly those spans without their
    offsets. *)
Theorem extract_entities_spans_never_overlap (text : pyvalue) :
  pairwise_disjoint (extract_entities_with_positions text) /\
  extract_entities text = map drop_positions (extract_entities_with_positions text).
Proof.
  split.
  - apply chained_disjoint, extract_entities_with_positions_chained.
  - apply extract_entities_projection.
Qed.

Lemma extract_entities_spans_never_overlap_witness :
  ~ (covers ("PERSON", "Trump", 0%Z, 5%Z) 16 /\
     covers ("TARIFF_RATE", "25% tariff", 16%Z, 26%Z) 16).
Proof.
  apply (proj1 (extract_entities_spans_never_overlap
                  (PyStr "Trump announces 25% tariff on Chinese imports"))
           0%nat 1%nat).
  - lia.
  - vm_compute. reflexivity.
  - vm_compute. reflexivity.
Defined.

(** C10.  For every input, a string or not, empty or not,
    [extract_entities] returns the [(entity_type, normalized_text)]
    components of what [extract_entities_with_positions] returns, in
    the same order. *)
Theorem extract_entities_agrees_with_positions (text : pyvalue) :
  extract_entities text =
  map (fun e => (span_type e, span_text e)) (extract_entities_with_positions text).
Proof. apply extract_entities_projection. Qed.

(** ** Dictionary matching *)

Lemma get_map_chars (f : ascii -> ascii) (s : string) (i : nat) :
  String.get i (Py.map_chars f s) = f <$> String.get i s.
Proof.
  revert i. induction s as [|c s IH]; intros [|i]; simpl; auto.
Qed.

Lemma isalnum_lower_char (c : ascii) :
  Py.isalnum (Py.lower_char c) = Py.isalnum c.
Proof.
  destruct c as [[] [] [] [] [] [] [] []]; reflexivity.
Qed.

Lemma isalnum_at_lower (text : string) (i : nat) :
  isalnum_at (Py.lower text) i = isalnum_at text i.
Proof.
  unfold isalnum_at, Py.char_at, Py.lower. rewrite get_map_chars.
  destruct (String.get i text); simpl; [apply isalnum_lower_char|done].
Qed.

Lemma get_beyond (s : string) (i : nat) :
  (String.length s <= i)%nat -> String.get i s = None.
Proof.
  revert i. induction s as [|c s IH]; intros i; simpl; [by destruct i|].
  destruct i; [lia|]. intros ?. apply IH. lia.
Qed.

Lemma length_map_chars (f : ascii -> ascii) (s : string) :
  String.length (Py.map_chars f s) = String.length s.
Proof. induction s; simpl; congruence. Qed.

Lemma isalnum_at_false (text : string) (i : nat) :
  isalnum_at text i = false -> not_alnum_at text i.
Proof.
  unfold isalnum_at, not_alnum_at. intros H c Hc. by rewrite Hc in H.
Qed.

Lemma prefix_length (s1 s2 : string) :
  String.prefix s1 s2 = true -> (String.length s1 <= String.length s2)%nat.
Proof.
  revert s2. induction s1 as [|a s1 IH]; intros s2; simpl; [lia|].
  destruct s2 as [|b s2]; [done|]. simpl.
  destruct (ascii_dec a b); [|done]. intros H%IH. lia.
Qed.

(** [find] answers at or after [start], with room for the term. *)
Lemma find_bounds (s sub : string) (start pos : nat) :
  Py.find s sub start = Some pos ->
  (start <= pos)%nat /\ (pos + String.length sub <= String.length s)%nat.
Proof.
  unfold Py.find. revert start pos.
  induction s as [|b s IH]; intros start pos; cbn [String.index].
  - destruct start; [|done]. destruct sub; [|done].
    intros [= <-]. simpl. lia.
  - destruct start as [|start].
    + destruct (String.prefix sub (String b s)) eqn:Hp.
      * intros [= <-]. apply prefix_length in Hp. lia.
      * destruct (String.index 0 sub s) as [m|] eqn:Hm; [|done].
        intros [= <-]. apply IH in Hm. simpl. lia.
    + destruct (String.index start sub s) as [m|] eqn:Hm; [|done].
      intros [= <-]. apply IH in Hm. simpl. lia.
Qed.

Lemma find_occurrence (s sub : string) (start pos : nat) :
  Py.find s sub start = Some pos ->
  String.substring pos (String.length sub) s = sub.
Proof. apply String.index_correct1. Qed.

(** With fuel for every offset of the text, more fuel changes nothing:
    the loop of a non-empty term has left through [break] before the
    fuel is used up. *)
Lemma find_occurrences_fuel (fuel fuel' : nat)
    (entity_type text text_lower entity : string) (start : nat)
    (entities : list span) :
  entity <> "" ->
  (S (String.length text_lower) - start <= fuel)%nat -> (fuel <= fuel')%nat ->
  find_occurrences fuel entity_type text text_lower entity start entities =
  find_occurrences fuel' entity_type text text_lower entity start entities.
Proof.
  intros Hne. revert fuel' start entities.
  induction fuel as [|fuel IH]; intros fuel' start entities Hm Hle.
  - destruct fuel' as [|fuel']; [done|]. simpl.
    destruct (Py.find text_lower entity start) as [pos|] eqn:Hf; [|done].
    apply find_bounds in Hf. lia.
  - destruct fuel' as [|fuel']; [lia|]. simpl.
    destruct (Py.find text_lower entity start) as [pos|] eqn:Hf; [|done].
    apply find_bounds in Hf.
    assert (0 < String.length entity)%nat.
    { destruct entity; [done|simpl; lia]. }
    repeat case_match; apply IH; lia.
Qed.

Lemma dictionary_terms_nonempty : Forall (fun entity => entity <> "") dictionary_terms.
Proof.
  assert ("" ∉ dictionary_terms) as Hnot.
  { apply (bool_decide_unpack _). vm_compute. exact I. }
  apply Forall_forall. intros entity Hin Heq. by subst entity.
Qed.

Lemma dictionary_terms_distinct : NoDup dictionary_terms.
Proof. apply (bool_decide_unpack _). vm_compute. exact I. Qed.

(** The fuel [_match_dictionary] gives the loop is enough for every
    term of the dictionaries. *)
Lemma match_dictionary_fuel (extra : nat) (entity_type text entity : string)
    (entities : list span) :
  entity ∈ dictionary_terms ->
  find_occurrences (S (String.length text)) entity_type text (Py.lower text)
    entity 0 entities
  = find_occurrences (S (String.length text) + extra) entity_type text
      (Py.lower text) entity 0 entities.
Proof.
  intros Hin. apply find_occurrences_fuel; [| |lia].
  - pose proof dictionary_terms_nonempty as Hne.
    rewrite Forall_forall in Hne. by apply Hne.
  - unfold Py.lower. rewrite length_map_chars. lia.
Qed.

Lemma find_occurrences_bounded (fuel : nat) (entity_type text entity : string)
    (dictionary : list string) (start : nat) (entities : list span) :
  (entity_type, dictionary) ∈ entity_dictionaries -> entity ∈ dictionary ->
  Forall (bounded_occurrence text) entities ->
  Forall (bounded_occurrence text)
    (find_occurrences fuel entity_type text (Py.lower text) entity start entities).
Proof.
  intros Hd He. revert start entities.
  induction fuel as [|fuel IH]; intros start entities Hacc; simpl; [done|].
  destruct (Py.find (Py.lower text) entity start) as [pos|] eqn:Hf; [|done].
  destruct ((0 <? pos)%nat && isalnum_at (Py.lower text) (pos - 1)) eqn:Hb;
    [by apply IH|].
  destruct ((pos + String.length entity <? String.length (Py.lower text))%nat
            && isalnum_at (Py.lower text) (pos + String.length entity)) eqn:Ha;
    [by apply IH|].
  apply IH. apply Forall_app. split; [done|].
  constructor; [|constructor].
  exists pos, (pos + String.length entity)%nat, dictionary, entity.
  rewrite !isalnum_at_lower in *.
  repeat split; try done.
  - by apply find_occurrence in Hf.
  - intros Hpos. apply isalnum_at_false.
    apply andb_false_iff in Hb as [Hb|Hb]; [|done].
    apply Nat.ltb_ge in Hb. lia.
  - apply andb_false_iff in Ha as [Ha|Ha]; [|by apply isalnum_at_false].
    apply Nat.ltb_ge in Ha. intros c Hc.
    unfold Py.lower in Ha. rewrite length_map_chars in Ha.
    unfold Py.char_at in Hc. by rewrite get_beyond in Hc.
Qed.

Lemma match_dictionary_bounded (text : string) :
  Forall (bounded_occurrence text) (_match_dictionary text).
Proof.
  unfold _match_dictionary.
  apply fold_left_preserves_elem; [|constructor].
  intros entities [entity_type dictionary] Hd Hacc.
  apply fold_left_preserves_elem; [|done].
  intros entities' entity He Hacc'.
  by eapply find_occurrences_bounded.
Qed.

(** ** Dictionary matching beyond ASCII *)

Lemma code_points_starts_with_length (sub s : CodePoints.str) :
  CodePoints.starts_with sub s = true -> (length sub <= length s)%nat.
Proof.
  revert s. induction sub as [|a sub IH]; intros s; simpl; [lia|].
  destruct s as [|b s]; [done|]. simpl.
  intros [_ H]%andb_true_iff. apply IH in H. lia.
Qed.

Lemma code_points_find_from_bounds (sub s : CodePoints.str) (offset pos : nat) :
  CodePoints.find_from sub s offset = Some pos ->
  (offset <= pos)%nat /\ (pos + length sub <= offset + length s)%nat.
Proof.
  revert offset. induction s as [|c s IH]; intros offset; simpl.
  - destruct (CodePoints.starts_with sub []) eqn:Hp; [|done].
    intros [= <-]. apply code_points_starts_with_length in Hp. simpl in Hp. lia.
  - destruct (CodePoints.starts_with sub (c :: s)) eqn:Hp.
    + intros [= <-]. apply code_points_starts_with_length in Hp. simpl in Hp. lia.
    + intros H%IH. lia.
Qed.

Lemma code_points_find_bounds (s sub : CodePoints.str) (start pos : nat) :
  CodePoints.find s sub start = Some pos ->
  (start <= pos)%nat /\ (pos + length sub <= length s)%nat.
Proof.
  unfold CodePoints.find.
  destruct (length s <? start)%nat eqn:Hlen; [done|].
  apply Nat.ltb_ge in Hlen.
  intros H%code_points_find_from_bounds. rewrite length_drop in H. lia.
Qed.

(** The scan of a non-empty term ends within [len(text_lower) + 1]
    rounds: more fuel changes nothing. *)
Lemma code_points_scan_fuel (fuel fuel' : nat) (entity_type : string)
    (text text_lower entity : CodePoints.str) (start : nat)
    (entities : list CodePoints.span) :
  entity <> [] ->
  (S (length text_lower) - start <= fuel)%nat -> (fuel <= fuel')%nat ->
  CodePoints.find_occurrences fuel entity_type text text_lower entity start
    entities
  = CodePoints.find_occurrences fuel' entity_type text text_lower entity start
      entities.
Proof.
  intros Hne. revert fuel' start entities.
  induction fuel as [|fuel IH]; intros fuel' start entities Hm Hle.
  - destruct fuel' as [|fuel']; [done|]. simpl.
    destruct (CodePoints.find text_lower entity start) as [pos|] eqn:Hf; [|done].
    apply code_points_find_bounds in Hf. lia.
  - destruct fuel' as [|fuel']; [lia|]. simpl.
    destruct (CodePoints.find text_lower entity start) as [pos|] eqn:Hf; [|done].
    apply code_points_find_bounds in Hf.
    assert (0 < length entity)%nat.
    { destruct entity; [done|simpl; lia]. }
    repeat case_match; apply IH; lia.
Qed.

Lemma code_points_terms_nonempty :
  Forall (fun entity => CodePoints.of_string entity <> []) dictionary_terms.
Proof.
  pose proof dictionary_terms_nonempty as Hne.
  eapply Forall_impl; [exact Hne|].
  intros entity Hentity. by destruct entity.
Qed.

(** The fuel [_match_dictionary] gives the scans is enough on every
    text. *)
Lemma code_points_match_fuel (extra : nat) (text : CodePoints.str) :
  CodePoints.match_terms (S (length (CodePoints.lower text))) text
  = CodePoints.match_terms (S (length (CodePoints.lower text)) + extra) text.
Proof.
  unfold CodePoints.match_terms.
  pose proof code_points_terms_nonempty as Hne. rewrite Forall_forall in Hne.
  assert (forall (dictionaries : list (string * list string))
                 (acc : list CodePoints.span),
            (forall entry entity,
               entry ∈ dictionaries -> entity ∈ entry.2 ->
               entity ∈ dictionary_terms) ->
            fold_left
              (fun entities '(entity_type, dictionary) =>
                 fold_left
                   (fun entities entity =>
                      CodePoints.find_occurrences
                        (S (length (CodePoints.lower text))) entity_type text
                        (CodePoints.lower text) (CodePoints.of_string entity) 0
                        entities)
                   dictionary entities)
              dictionaries acc
            = fold_left
                (fun entities '(entity_type, dictionary) =>
                   fold_left
                     (fun entities entity =>
                        CodePoints.find_occurrences
                          (S (length (CodePoints.lower text)) + extra)
                          entity_type text (CodePoints.lower text)
                          (CodePoints.of_string entity) 0 entities)
                     dictionary entities)
                dictionaries acc) as Hfold.
  { induction dictionaries as [|[entity_type dictionary] dictionaries IH];
      intros acc Hterms; [done|].
    cbn [fold_left]. rewrite <- IH.
    2:{ intros entry entity He. apply Hterms. by right. }
    f_equal.
    assert (forall entity, entity ∈ dictionary -> entity ∈ dictionary_terms)
      as Hd by (intros entity; apply (Hterms (entity_type, dictionary)); by left).
    clear IH Hterms. revert acc.
    induction dictionary as [|entity dictionary IHd]; intros acc; [done|].
    cbn [fold_left]. rewrite <- IHd by (intros e He; apply Hd; by right).
    f_equal. apply code_points_scan_fuel; [|lia|lia].
    apply Hne, Hd. by left. }
  apply Hfold. intros entry entity Hentry Hentity.
  unfold dictionary_terms. apply list_elem_of_In, in_flat_map.
  exists entry. split; by apply list_elem_of_In.
Qed.

(** On the characters of a [string] the functions on code points are
    the character functions of the embedding. *)
Lemma code_points_lower_char (c : ascii) :
  CodePoints.lower_char (N_of_ascii c) = [N_of_ascii (Py.lower_char c)].
Proof. destruct c as [[] [] [] [] [] [] [] []]; reflexivity. Qed.

Lemma code_points_isalnum (c : ascii) :
  CodePoints.isalnum (N_of_ascii c) = Py.isalnum c.
Proof. destruct c as [[] [] [] [] [] [] [] []]; reflexivity. Qed.

Lemma code_points_lower (s : string) :
  CodePoints.lower (CodePoints.of_string s) = CodePoints.of_string (Py.lower s).
Proof.
  unfold CodePoints.lower, CodePoints.of_string, Py.lower.
  induction s as [|c s IH]; [done|].
  cbn [list_ascii_of_string Py.map_chars map flat_map].
  by rewrite code_points_lower_char, IH.
Qed.

(** *** The two embeddings agree on ASCII *)

Lemma code_points_length (s : string) :
  length (CodePoints.of_string s) = String.length s.
Proof.
  unfold CodePoints.of_string. rewrite length_map.
  induction s as [|c s IH]; simpl; congruence.
Qed.

Lemma code_points_cons (c : ascii) (s : string) :
  CodePoints.of_string (String c s) = N_of_ascii c :: CodePoints.of_string s.
Proof. reflexivity. Qed.

Lemma code_points_starts_with (sub s : string) :
  CodePoints.starts_with (CodePoints.of_string sub) (CodePoints.of_string s)
  = String.prefix sub s.
Proof.
  revert s. induction sub as [|a sub IH]; intros s; [by destruct s|].
  destruct s as [|b s]; [done|].
  rewrite !code_points_cons. cbn [CodePoints.starts_with String.prefix].
  destruct (ascii_dec a b) as [->|Hne].
  - by rewrite N.eqb_refl, IH.
  - assert ((N_of_ascii a =? N_of_ascii b)%N = false) as ->; [|done].
    apply N.eqb_neq. intros Heq. apply Hne.
    by rewrite <- (ascii_N_embedding a), <- (ascii_N_embedding b), Heq.
Qed.

Lemma code_points_find_from_shift (sub s : CodePoints.str) (offset : nat) :
  CodePoints.find_from sub s (S offset)
  = S <$> CodePoints.find_from sub s offset.
Proof.
  revert offset. induction s as [|c s IH]; intros offset; simpl.
  - by destruct (CodePoints.starts_with sub []).
  - destruct (CodePoints.starts_with sub (c :: s)); [done|]. apply IH.
Qed.

Lemma code_points_find_from (sub s : string) :
  CodePoints.find_from (CodePoints.of_string sub) (CodePoints.of_string s) 0
  = String.index 0 sub s.
Proof.
  induction s as [|b s IH].
  - destruct sub; reflexivity.
  - cbn [String.index]. rewrite <- code_points_starts_with.
    rewrite code_points_cons. cbn [CodePoints.find_from].
    rewrite <- code_points_cons.
    destruct (CodePoints.starts_with _ _); [done|].
    rewrite code_points_find_from_shift, IH.
    by destruct (String.index 0 sub s).
Qed.

Lemma code_points_find (s sub : string) (start : nat) :
  CodePoints.find (CodePoints.of_string s) (CodePoints.of_string sub) start
  = Py.find s sub start.
Proof.
  unfold Py.find, CodePoints.find. revert start.
  induction s as [|b s IH]; intros start.
  - destruct start as [|start]; [|done].
    cbn [length Nat.ltb Nat.leb skipn]. apply (code_points_find_from sub "").
  - destruct start as [|start].
    + cbn [Nat.ltb Nat.leb skipn]. apply code_points_find_from.
    + rewrite code_points_cons. cbn [String.index skipn length].
      rewrite <- IH.
      change (S (length (CodePoints.of_string s)) <? S start)%nat
        with (length (CodePoints.of_string s) <? start)%nat.
      destruct (length (CodePoints.of_string s) <? start)%nat; [done|].
      rewrite code_points_find_from_shift.
      by destruct (CodePoints.find_from _ _ _).
Qed.

Lemma code_points_lookup (s : string) (i : nat) :
  CodePoints.of_string s !! i = N_of_ascii <$> String.get i s.
Proof.
  revert i. induction s as [|c s IH]; intros i; [by destruct i|].
  rewrite code_points_cons. destruct i as [|i]; [done|]. apply IH.
Qed.

Lemma code_points_isalnum_at (s : string) (i : nat) :
  CodePoints.isalnum_at (CodePoints.of_string s) i = isalnum_at s i.
Proof.
  unfold CodePoints.isalnum_at, isalnum_at, Py.char_at.
  rewrite code_points_lookup.
  destruct (String.get i s); simpl; [apply code_points_isalnum|done].
Qed.

Lemma code_points_substring (n m : nat) (s : string) :
  CodePoints.of_string (String.substring n m s)
  = firstn m (skipn n (CodePoints.of_string s)).
Proof.
  revert n m. induction s as [|c s IH]; intros n m.
  - destruct n, m; reflexivity.
  - destruct n as [|n].
    + destruct m as [|m]; [done|].
      cbn [String.substring]. rewrite !code_points_cons. cbn [skipn firstn].
      f_equal. apply (IH 0%nat m).
    + cbn [String.substring]. rewrite code_points_cons. cbn [skipn]. apply IH.
Qed.

Lemma code_points_slice (text : string) (pos end_pos : nat) :
  (pos <= end_pos)%nat ->
  CodePoints.slice (CodePoints.of_string text) pos end_pos
  = CodePoints.of_string (Py.slice text (Z.of_nat pos) (Z.of_nat end_pos)).
Proof.
  intros Hle. unfold CodePoints.slice, Py.slice, Py.clamp, Py.len.
  rewrite code_points_substring.
  assert ((Z.of_nat pos <? 0)%Z = false) as -> by lia.
  assert ((Z.of_nat end_pos <? 0)%Z = false) as -> by lia.
  pose proof (code_points_length text) as Hlen.
  set (l := CodePoints.of_string text) in *.
  set (n := String.length text) in *.
  destruct (decide (pos <= n)%nat) as [Hin|Hout].
  - replace (Z.to_nat (Z.min (Z.of_nat pos) (Z.of_nat n))) with pos by lia.
    destruct (decide (end_pos <= n)%nat) as [Hin'|Hout'].
    + f_equal. lia.
    + replace (Z.to_nat (Z.min (Z.of_nat end_pos) (Z.of_nat n)
                         - Z.min (Z.of_nat pos) (Z.of_nat n)))
        with (n - pos)%nat by lia.
      rewrite !firstn_all2; [done| |]; rewrite length_skipn; lia.
  - replace (Z.to_nat (Z.min (Z.of_nat pos) (Z.of_nat n))) with n by lia.
    rewrite !skipn_all2 by lia. by rewrite !firstn_nil.
Qed.

(** One scan, in the two embeddings. *)
Lemma code_points_find_occurrences (fuel : nat)
    (entity_type text text_lower entity : string) (start : nat)
    (entities : list span) :
  CodePoints.find_occurrences fuel entity_type (CodePoints.of_string text)
    (CodePoints.of_string text_lower) (CodePoints.of_string entity) start
    (map code_points_of_span entities)
  = map code_points_of_span
      (find_occurrences fuel entity_type text text_lower entity start entities).
Proof.
  revert start entities.
  induction fuel as [|fuel IH]; intros start entities; [done|].
  cbn [CodePoints.find_occurrences find_occurrences].
  rewrite code_points_find.
  destruct (Py.find text_lower entity start) as [pos|]; [|done].
  rewrite !code_points_isalnum_at, !code_points_length.
  destruct ((0 <? pos)%nat && isalnum_at text_lower (pos - 1)); [apply IH|].
  destruct ((pos + String.length entity <? String.length text_lower)%nat
            && isalnum_at text_lower (pos + String.length entity));
    [apply IH|].
  rewrite <- IH. f_equal. rewrite map_app. cbn [map]. f_equal. f_equal.
  unfold code_points_of_span, span_type, span_text, span_start, span_end.
  cbn [fst snd]. by rewrite code_points_slice by lia.
Qed.

Lemma code_points_known (text : string) :
  isascii text = true -> forallb CodePoints.known (CodePoints.of_string text) = true.
Proof.
  unfold isascii, CodePoints.of_string, CodePoints.known, Py.code.
  induction (list_ascii_of_string text) as [|c l IH]; [done|].
  cbn [forallb map]. intros [Hc Hl]%andb_true_iff.
  by rewrite Hc, IH.
Qed.

(** On an ASCII text the embedding on code points and the embedding on
    [string]s report the same spans. *)
Lemma code_points_match_dictionary (text : string) :
  isascii text = true ->
  CodePoints._match_dictionary (CodePoints.of_string text)
  = Some (map code_points_of_span (_match_dictionary text)).
Proof.
  intros Hascii. unfold CodePoints._match_dictionary.
  rewrite code_points_known by done. f_equal.
  unfold CodePoints.match_terms, _match_dictionary.
  rewrite code_points_lower, code_points_length.
  unfold Py.lower at 1. rewrite length_map_chars.
  change (@nil CodePoints.span) with (map code_points_of_span []).
  generalize (@nil span). 
  induction entity_dictionaries as [|[entity_type dictionary] dictionaries IH];
    intros acc; [done|].
  cbn [fold_left]. rewrite <- IH. f_equal.
  clear IH. revert acc.
  induction dictionary as [|entity dictionary IHd]; intros acc; [done|].
  cbn [fold_left]. rewrite <- IHd. f_equal.
  apply code_points_find_occurrences.
Qed.

(** X21.  On an ASCII text the embedding on code points reports the
    spans of the embedding on [string]s, and every span that
    dictionary matching reports is an occurrence of a dictionary term
    with no alphanumeric character immediately before it and none
    immediately after it; ["us"] inside ["trust"] is not reported and
    ["US"] in ["US tariffs"] is. *)
Theorem dictionary_matching_respects_word_boundaries :
  (forall text : string,
     isascii text = true ->
     CodePoints._match_dictionary (CodePoints.of_string text)
     = Some (map code_points_of_span (_match_dictionary text)) /\
     (forall e : span,
        e ∈ _match_dictionary text -> bounded_occurrence text e)) /\
  _match_dictionary "trust" = [] /\
  _match_dictionary "US tariffs" = [("LOCATION", "US", 0%Z, 2%Z)].
Proof.
  split; [|split].
  - intros text Hascii. split; [by apply code_points_match_dictionary|].
    intros e He.
    pose proof (match_dictionary_bounded text) as Hall.
    rewrite Forall_forall in Hall. by apply Hall.
  - vm_compute. reflexivity.
  - vm_compute. reflexivity.
Qed.

Lemma dictionary_matching_respects_word_boundaries_witness :
  bounded_occurrence "US tariffs" ("LOCATION", "US", 0%Z, 2%Z).
Proof.
  apply (proj2 (proj1 dictionary_matching_respects_word_boundaries
                  "US tariffs" eq_refl)).
  vm_compute. apply list_elem_of_here.
Defined.


(** ** The order in which the dictionaries are walked *)

Lemma find_occurrences_acc (fuel : nat) (entity_type text text_lower entity : string)
    (start : nat) (entities : list span) :
  find_occurrences fuel entity_type text text_lower entity start entities
  = entities ++ find_occurrences fuel entity_type text text_lower entity start [].
Proof.
  revert start entities.
  induction fuel as [|fuel IH]; intros start entities; simpl.
  - by rewrite app_nil_r.
  - destruct (Py.find text_lower entity start) as [pos|]; [|by rewrite app_nil_r].
    repeat case_match; try apply IH.
    rewrite IH. rewrite (IH _ [_]). by rewrite <- app_assoc.
Qed.

Lemma fold_left_app_flat_map {A B : Type} (f : list A -> B -> list A)
    (g : B -> list A) (l : list B) (acc : list A) :
  (forall acc x, f acc x = acc ++ g x) ->
  fold_left f l acc = acc ++ flat_map g l.
Proof.
  intros Hf. revert acc. induction l as [|x l IH]; intros acc; simpl.
  - by rewrite app_nil_r.
  - by rewrite IH, Hf, app_assoc.
Qed.

Lemma match_dictionary_walk_flat (dictionaries : list (string * list string))
    (text : string) :
  match_dictionary_walk dictionaries text
  = flat_map (fun entry => flat_map (occurrences text entry.1) entry.2)
             dictionaries.
Proof.
  unfold match_dictionary_walk.
  rewrite (fold_left_app_flat_map _
             (fun entry => flat_map (occurrences text entry.1) entry.2));
    [done|].
  intros acc [entity_type dictionary]. cbv beta iota. simpl fst. simpl snd.
  apply fold_left_app_flat_map.
  intros acc' entity. apply find_occurrences_acc.
Qed.

Lemma match_dictionary_walk_source (text : string) :
  _match_dictionary text = match_dictionary_walk entity_dictionaries text.
Proof. reflexivity. Qed.

Lemma match_dictionary_walk_permutation (d d' : list (string * list string))
    (text : string) :
  same_sets d d' ->
  match_dictionary_walk d text ≡ₚ match_dictionary_walk d' text.
Proof.
  intros Hd. rewrite !match_dictionary_walk_flat.
  induction Hd as [|[ty l] [ty' l'] d d' [Hty Hl] Hd IH]; simpl; [done|].
  simpl in Hty, Hl. subst ty'.
  apply Permutation_app; [|done].
  by apply Permutation_flat_map.
Qed.

Lemma find_occurrences_spec (fuel : nat) (entity_type text text_lower entity : string)
    (start : nat) (e : span) :
  e ∈ find_occurrences fuel entity_type text text_lower entity start [] ->
  exists pos : nat,
    (start <= pos)%nat /\
    span_bounds e = (Z.of_nat pos, Z.of_nat (pos + String.length entity)) /\
    String.substring pos (String.length entity) text_lower = entity.
Proof.
  revert start. induction fuel as [|fuel IH]; intros start; simpl.
  { intros He. inversion He. }
  destruct (Py.find text_lower entity start) as [pos|] eqn:Hf.
  2:{ intros He. inversion He. }
  pose proof (find_bounds _ _ _ _ Hf) as [Hge _].
  assert (forall start', (start < start')%nat ->
            e ∈ find_occurrences fuel entity_type text text_lower entity start' [] ->
            exists pos0 : nat,
              (start <= pos0)%nat /\
              span_bounds e
              = (Z.of_nat pos0, Z.of_nat (pos0 + String.length entity)) /\
              String.substring pos0 (String.length entity) text_lower = entity)
    as Hrec.
  { intros start' Hlt He. destruct (IH start' He) as (pos0 & ? & ? & ?).
    exists pos0. split; [lia|done]. }
  destruct (_ && _); [apply Hrec; lia|].
  destruct (_ && _); [apply Hrec; lia|].
  rewrite find_occurrences_acc. simpl.
  rewrite elem_of_cons. intros [->|He].
  - exists pos. split; [done|]. split; [done|]. by apply find_occurrence in Hf.
  - destruct (IH _ He) as (pos0 & ? & ? & ?).
    exists pos0. split; [lia|done].
Qed.

Lemma find_occurrences_starts (fuel : nat) (entity_type text text_lower entity : string)
    (start : nat) :
  entity <> "" ->
  NoDup (map span_start
           (find_occurrences fuel entity_type text text_lower entity start [])).
Proof.
  intros Hne.
  assert (0 < String.length entity)%nat as Hlen.
  { destruct entity; [done|simpl; lia]. }
  revert start. induction fuel as [|fuel IH]; intros start; simpl; [constructor|].
  destruct (Py.find text_lower entity start) as [pos|] eqn:Hf; [|constructor].
  destruct (_ && _); [apply IH|].
  destruct (_ && _); [apply IH|].
  rewrite find_occurrences_acc. simpl. constructor; [|apply IH].
  rewrite list_elem_of_fmap. intros (e & Hstart & He).
  apply find_occurrences_spec in He as (pos0 & Hge & Hb & _).
  unfold span_bounds in Hb. injection Hb as Hs _.
  unfold span_start in Hstart at 1. simpl in Hstart. lia.
Qed.

Lemma occurrences_term (text entity_type entity : string) (b : Z * Z) :
  b ∈ map span_bounds (occurrences text entity_type entity) ->
  term_at text b = entity.
Proof.
  rewrite list_elem_of_fmap. intros (e & -> & He).
  apply find_occurrences_spec in He as (pos & _ & Hb & Hsub).
  unfold term_at. rewrite Hb. simpl.
  rewrite Nat2Z.id.
  replace (Z.to_nat _) with (String.length entity) by lia. done.
Qed.

Lemma occurrences_bounds_NoDup (text entity_type entity : string) :
  entity <> "" ->
  NoDup (map span_bounds (occurrences text entity_type entity)).
Proof.
  intros Hne. apply (NoDup_fmap_1 fst).
  rewrite <- list_fmap_compose.
  by apply find_occurrences_starts.
Qed.

Lemma dictionary_bounds_term (text entity_type : string) (dictionary : list string)
    (b : Z * Z) :
  b ∈ map span_bounds (flat_map (occurrences text entity_type) dictionary) ->
  term_at text b ∈ dictionary.
Proof.
  induction dictionary as [|t ts IH]; simpl.
  { intros Hb. inversion Hb. }
  rewrite map_app, elem_of_app. intros [Hb|Hb].
  - apply occurrences_term in Hb. rewrite Hb. by left.
  - right. by apply IH.
Qed.

Lemma dictionary_bounds_NoDup (text entity_type : string) (dictionary : list string) :
  NoDup dictionary -> Forall (fun t => t <> "") dictionary ->
  NoDup (map span_bounds (flat_map (occurrences text entity_type) dictionary)).
Proof.
  induction 1 as [|t ts Ht Hts IH]; intros Hne; simpl; [constructor|].
  apply Forall_cons in Hne as [Hne Hnes].
  rewrite map_app. apply NoDup_app. split; [by apply occurrences_bounds_NoDup|].
  split; [|by apply IH].
  intros b Hb Hb'. apply occurrences_term in Hb.
  apply dictionary_bounds_term in Hb'. by rewrite Hb in Hb'.
Qed.

Lemma walk_bounds_term (dictionaries : list (string * list string))
    (text : string) (b : Z * Z) :
  b ∈ map span_bounds (match_dictionary_walk dictionaries text) ->
  term_at text b ∈ flat_map snd dictionaries.
Proof.
  rewrite match_dictionary_walk_flat.
  induction dictionaries as [|[ty d] ds IH]; simpl.
  { intros Hb. inversion Hb. }
  rewrite map_app, !elem_of_app. intros [Hb|Hb].
  - left. by apply dictionary_bounds_term in Hb.
  - right. by apply IH.
Qed.

(** For dictionaries without a repeated or empty term, no two
    candidates of dictionary matching have the same offsets. *)
Lemma walk_bounds_NoDup (dictionaries : list (string * list string))
    (text : string) :
  NoDup (flat_map snd dictionaries) ->
  Forall (fun t => t <> "") (flat_map snd dictionaries) ->
  NoDup (map span_bounds (match_dictionary_walk dictionaries text)).
Proof.
  intros Hnd Hne.
  pose proof (walk_bounds_term) as Hterm.
  rewrite match_dictionary_walk_flat.
  induction dictionaries as [|[ty d] ds IH]; simpl in *; [constructor|].
  apply NoDup_app in Hnd as (Hd & Hdisj & Hds).
  apply Forall_app in Hne as [Hned Hneds].
  rewrite map_app. apply NoDup_app.
  split; [by apply dictionary_bounds_NoDup|]. split; [|by apply IH].
  intros b Hb Hb'. apply dictionary_bounds_term in Hb.
  rewrite <- match_dictionary_walk_flat in Hb'.
  apply walk_bounds_term in Hb'. by apply (Hdisj _ Hb).
Qed.

Lemma key_le_total (a b : Z * Z) : key_le a b = false -> key_le b a = true.
Proof. destruct a, b. unfold key_le. simpl. lia. Qed.

Lemma key_le_trans (a b c : Z * Z) :
  key_le a b = true -> key_le b c = true -> key_le a c = true.
Proof. destruct a, b, c. unfold key_le. simpl. lia. Qed.

Lemma key_le_antisym (a b : Z * Z) :
  key_le a b = true -> key_le b a = true -> a = b.
Proof.
  destruct a as [a1 a2], b as [b1 b2]. unfold key_le. simpl. intros H1 H2.
  assert (a1 = b1 /\ a2 = b2) as [-> ->] by lia. done.
Qed.

Lemma key_le_strict (a b : Z * Z) :
  a <> b -> key_le a b = true -> key_le b a = false.
Proof.
  intros Hne H1. destruct (key_le b a) eqn:H2; [|done].
  by destruct Hne; apply key_le_antisym.
Qed.

(** Inserting two candidates with different keys gives the same list in
    either order. *)
Lemma insert_sorted_comm (x y : span) (l : list span) :
  overlap_key x <> overlap_key y ->
  Py.insert_sorted span_le x (Py.insert_sorted span_le y l)
  = Py.insert_sorted span_le y (Py.insert_sorted span_le x l).
Proof.
  intros Hne. unfold span_le.
  induction l as [|z l IH]; simpl.
  - destruct (key_le (overlap_key x) (overlap_key y)) eqn:H1.
    + by rewrite (key_le_strict _ _ Hne H1).
    + by rewrite (key_le_total _ _ H1).
  - destruct (key_le (overlap_key y) (overlap_key z)) eqn:Hyz;
    destruct (key_le (overlap_key x) (overlap_key z)) eqn:Hxz; simpl.
    + destruct (key_le (overlap_key x) (overlap_key y)) eqn:H1.
      * by rewrite (key_le_strict _ _ Hne H1), Hyz.
      * by rewrite (key_le_total _ _ H1), Hxz.
    + destruct (key_le (overlap_key x) (overlap_key y)) eqn:H1.
      * by rewrite (key_le_trans _ _ _ H1 Hyz) in Hxz.
      * by rewrite Hxz, Hyz.
    + destruct (key_le (overlap_key y) (overlap_key x)) eqn:H2.
      * by rewrite (key_le_trans _ _ _ H2 Hxz) in Hyz.
      * by rewrite Hyz, Hxz.
    + by rewrite Hxz, Hyz, IH.
Qed.

Lemma fold_insert_permutation (d d' base : list span) :
  d ≡ₚ d' -> NoDup (map overlap_key d) ->
  fold_right (Py.insert_sorted span_le) base d
  = fold_right (Py.insert_sorted span_le) base d'.
Proof.
  induction 1 as [|x l l' Hl IH|x y l|l l' l'' H1 IH1 H2 IH2]; intros Hnd; simpl.
  - done.
  - simpl in Hnd. apply NoDup_cons in Hnd as [_ Hnd]. by rewrite IH.
  - simpl in Hnd. apply NoDup_cons in Hnd as [Hx _].
    apply insert_sorted_comm. intros Heq. apply Hx. rewrite Heq. by left.
  - rewrite IH1 by done. apply IH2.
    assert (map overlap_key l ≡ₚ map overlap_key l') as Hp
      by (by apply Permutation_map).
    by rewrite <- Hp.
Qed.

Lemma overlap_key_bounds (l : list span) :
  NoDup (map span_bounds l) -> NoDup (map overlap_key l).
Proof.
  intros Hnd.
  replace (map overlap_key l)
    with (map (fun b : Z * Z => (b.1, (- (b.2 - b.1))%Z)) (map span_bounds l))
    by (by rewrite map_map).
  apply NoDup_fmap_2; [|done].
  intros [a1 a2] [b1 b2]. simpl. intros [= -> H]. f_equal. lia.
Qed.

(** The order in which Python walks the sets of the dictionaries does
    not change what [_resolve_overlaps] keeps: the lists of
    [entity_dictionaries] stand for the sets. *)
Lemma resolve_overlaps_walk_order (dictionaries : list (string * list string))
    (text : string) :
  same_sets entity_dictionaries dictionaries ->
  _resolve_overlaps (match_dictionary_walk dictionaries text ++ _match_patterns text)
  = _resolve_overlaps (_match_dictionary text ++ _match_patterns text).
Proof.
  intros Hsets. rewrite !resolve_overlaps_sweep. f_equal.
  unfold Py.sorted. rewrite !fold_right_app.
  symmetry. apply fold_insert_permutation.
  - rewrite match_dictionary_walk_source.
    by apply match_dictionary_walk_permutation.
  - apply overlap_key_bounds. rewrite match_dictionary_walk_source.
    apply walk_bounds_NoDup.
    + apply dictionary_terms_distinct.
    + apply dictionary_terms_nonempty.
Qed.

(** ** Emission without repetition *)

Section Dedup.

Context {A K : Type} `{Countable K}.
Variable key : A -> K.

Lemma fold_dedup (l : list A) (acc : list A) (seen : gset K) :
  (fold_left (dedup_step key) l (acc, seen)).1
  = acc ++ first_occurrences key seen l.
Proof.
  revert acc seen. induction l as [|x l IH]; intros acc seen; simpl.
  - by rewrite app_nil_r.
  - unfold dedup_step at 2. simpl. destruct (decide (key x ∈ seen)).
    + apply IH.
    + rewrite IH. by rewrite <- app_assoc.
Qed.

Lemma first_occurrences_sublist (seen : gset K) (l : list A) :
  sublist (first_occurrences key seen l) l.
Proof.
  revert seen. induction l as [|x l IH]; intros seen; simpl; [constructor|].
  destruct (decide (key x ∈ seen)); by constructor.
Qed.

Lemma first_occurrences_fresh (seen : gset K) (l : list A) (x : A) :
  x ∈ first_occurrences key seen l -> key x ∉ seen.
Proof.
  revert seen. induction l as [|y l IH]; intros seen; simpl.
  { intros Hx. inversion Hx. }
  destruct (decide (key y ∈ seen)); [by apply IH|].
  rewrite elem_of_cons. intros [->|Hx%IH]; [done|]. set_solver.
Qed.

Lemma first_occurrences_NoDup (seen : gset K) (l : list A) :
  NoDup (map key (first_occurrences key seen l)).
Proof.
  revert seen. induction l as [|x l IH]; intros seen; simpl; [constructor|].
  destruct (decide (key x ∈ seen)); [by apply IH|].
  simpl. constructor; [|by apply IH].
  rewrite list_elem_of_fmap. intros (y & Hy & Hin).
  apply first_occurrences_fresh in Hin. set_solver.
Qed.

(** An element whose key is new when it comes is kept. *)
Lemma first_occurrences_keeps (seen : gset K) (pre post : list A) (x : A) :
  key x ∉ seen -> key x ∉ map key pre ->
  x ∈ first_occurrences key seen (pre ++ x :: post).
Proof.
  revert seen. induction pre as [|y pre IH]; intros seen Hs Hp; simpl.
  - rewrite decide_False by done. by left.
  - simpl in Hp. apply not_elem_of_cons in Hp as [Hne Hp].
    destruct (decide (key y ∈ seen)); [by apply IH|].
    right. apply IH; [|done].
    apply not_elem_of_union. split; [done|].
    apply not_elem_of_singleton. congruence.
Qed.

Lemma emitted_first_occurrences (candidates : list A) :
  first_occurrences_of key candidates (emitted key candidates).
Proof.
  unfold emitted. rewrite fold_dedup. simpl.
  split; [apply first_occurrences_NoDup|].
  split; [apply first_occurrences_sublist|].
  intros pre post x -> Hx. apply first_occurrences_keeps; [set_solver|done].
Qed.

End Dedup.

(** ** Relation extraction *)

Lemma match_rules_dedup (text : string) (subj obj : span) (st : relations_state) :
  match_rules text subj obj st =
  fold_left (dedup_step triple_key) (rule_candidates text subj obj) st.
Proof.
  unfold match_rules, rule_candidates. rewrite fold_left_flat_map.
  apply fold_left_ext. intros a pattern.
  destruct (_ && _); [|done].
  by destruct (_find_connecting_phrase _ _ _ _) as [[] ?].
Qed.

Lemma pair_candidates_short (text : string) (entities : list span) :
  (length entities < 2)%nat -> pair_candidates text entities = [].
Proof.
  destruct entities as [|e [|e' l]]; simpl; [done| |lia].
  intros _. reflexivity.
Qed.

Lemma extract_relations_emitted (text : pyvalue) :
  extract_relations text = emitted triple_key (relation_candidates text).
Proof.
  unfold extract_relations, relation_candidates.
  destruct (usable_text text) as [s|]; [|done].
  destruct (length _ <? 2)%nat eqn:Hlen.
  - apply Nat.ltb_lt in Hlen. by rewrite pair_candidates_short.
  - unfold emitted, pair_candidates. f_equal.
    rewrite fold_left_flat_map.
    apply fold_left_ext. intros st [i subj].
    rewrite fold_left_flat_map.
    apply fold_left_ext. intros st' [j obj].
    destruct (i =? j)%nat; [done|].
    destruct (span_start subj >=? span_start obj)%Z; [done|].
    apply match_rules_dedup.
Qed.

Lemma infer_relation_nonempty (type1 type2 : string) :
  _infer_relation type1 type2 <> "".
Proof.
  unfold _infer_relation.
  destruct (List.find _ type_relations) as [[[t1 t2] relation]|] eqn:Hf; [|done].
  apply find_some in Hf as [Hin _].
  assert (Forall (fun r : string * string * string => r.2 <> "") type_relations)
    as Hall by (repeat constructor; done).
  rewrite Forall_forall in Hall.
  apply (Hall (t1, t2, relation)). by apply list_elem_of_In.
Qed.

Lemma pair_step_dedup (e1 e2 : string * string) (st : simple_state) :
  pair_step e1 e2 st =
  dedup_step ordered_pair_key st (e1.2, _infer_relation e1.1 e2.1, e2.2).
Proof.
  destruct e1 as [type1 text1], e2 as [type2 text2].
  unfold pair_step, dedup_step, ordered_pair_key. simpl.
  destruct (decide _); [done|].
  pose proof (infer_relation_nonempty type1 type2) as Hne.
  apply String.eqb_neq in Hne. by rewrite Hne.
Qed.

Lemma extract_simple_triples_emitted (text : pyvalue) :
  extract_simple_triples text = emitted ordered_pair_key (simple_candidates text).
Proof.
  unfold extract_simple_triples, simple_candidates.
  destruct (usable_text text) as [s|] eqn:Hs.
  - destruct (length _ <? 2)%nat eqn:Hlen.
    + apply Nat.ltb_lt in Hlen.
      destruct (extract_entities text) as [|e [|e' l]]; simpl in *; [done..|lia].
    + unfold emitted. f_equal.
      rewrite fold_left_flat_map.
      apply fold_left_ext. intros st [i e1].
      rewrite fold_left_flat_map.
      apply fold_left_ext. intros st' [j e2].
      destruct (j <=? i)%nat; [done|].
      apply pair_step_dedup.
  - unfold extract_entities. by rewrite Hs.
Qed.

(** The stages of entity recognition on the text of the example. *)
Lemma trump_announces_candidates :
  let text := "Trump announces 25% tariff on Chinese imports" in
  _match_dictionary text = [("PERSON", "Trump", 0%Z, 5%Z)] /\
  _match_patterns text
  = [("PERCENTAGE", "25%", 16%Z, 19%Z);
     ("TARIFF_RATE", "25% tariff", 16%Z, 26%Z)] /\
  _resolve_overlaps (_match_dictionary text ++ _match_patterns text)
  = [("PERSON", "Trump", 0%Z, 5%Z);
     ("TARIFF_RATE", "25% tariff", 16%Z, 26%Z)] /\
  _find_connecting_phrase text 5 16
    ["announce[sd]?"; "propose[sd]?"; "introduce[sd]?"; "implement[sd]?";
     "impose[sd]?"; "declare[sd]?"]
  = (true, "announce[sd]?").
Proof. repeat split; vm_compute; reflexivity. Qed.

(** Of two candidates [(0, 10)] and [(5, 20)] the earlier one is kept,
    although the later one is longer. *)
Lemma resolve_overlaps_prefers_earlier (ty1 tx1 ty2 tx2 : string) :
  _resolve_overlaps [(ty2, tx2, 5%Z, 20%Z); (ty1, tx1, 0%Z, 10%Z)]
  = [(ty1, tx1, 0%Z, 10%Z)].
Proof. reflexivity. Qed.

(** C5.  On ["Trump announces 25% tariff on Chinese imports"],
    [extract_relations] yields a triple with subject ["Trump"] and
    predicate [ANNOUNCES] whose object is the text of a span typed
    [TARIFF_RATE] that contains ["25%"]. *)
Theorem extract_relations_trump_announces :
  let text := PyStr "Trump announces 25% tariff on Chinese imports" in
  let obj := "25% tariff" in
  ("Trump", "ANNOUNCES", obj) ∈ extract_relations text /\
  ("TARIFF_RATE", obj, 16%Z, 26%Z) ∈ extract_entities_with_positions text /\
  String.substring 0 3 obj = "25%".
Proof.
  assert (extract_relations (PyStr "Trump announces 25% tariff on Chinese imports")
          = [("Trump", "ANNOUNCES", "25% tariff")]) as Hr
    by (vm_compute; reflexivity).
  assert (extract_entities_with_positions
            (PyStr "Trump announces 25% tariff on Chinese imports")
          = [("PERSON", "Trump", 0%Z, 5%Z); ("TARIFF_RATE", "25% tariff", 16%Z, 26%Z)])
    as He by (vm_compute; reflexivity).
  cbv zeta. rewrite Hr, He.
  split; [by left|]. split; [by right; left|reflexivity].
Qed.

Lemma extract_relations_two_rates :
  extract_relations two_rates =
  [("Trump", "ANNOUNCES", "25% tariff"); ("Trump", "ANNOUNCES", "10% tariff")].
Proof. vm_compute. reflexivity. Qed.

Lemma relation_candidates_repeated_sentence :
  relation_candidates repeated_sentence =
  [("Trump", "ANNOUNCES", "tariff policy");
   ("Trump", "ANNOUNCES", "tariff policy");
   ("Trump", "ANNOUNCES", "tariff policy")].
Proof. vm_compute. reflexivity. Qed.

Lemma extract_relations_repeated_sentence :
  extract_relations repeated_sentence = [("Trump", "ANNOUNCES", "tariff policy")].
Proof. vm_compute. reflexivity. Qed.

Lemma extract_simple_triples_repeated_mention :
  extract_simple_triples repeated_mention =
  [("China", "RELATED_TO", "India"); ("China", "RELATED_TO", "China");
   ("India", "RELATED_TO", "China")].
Proof. vm_compute. reflexivity. Qed.

Lemma simple_candidates_repeated_sentence :
  simple_candidates repeated_sentence =
  [("Trump", "ASSOCIATED_WITH", "tariff policy");
   ("Trump", "MENTIONED_WITH", "Trump");
   ("Trump", "ASSOCIATED_WITH", "tariff policy");
   ("tariff policy", "MENTIONED_WITH", "Trump");
   ("tariff policy", "MENTIONED_WITH", "tariff policy");
   ("Trump", "ASSOCIATED_WITH", "tariff policy")].
Proof. vm_compute. reflexivity. Qed.

(** C6, as stated, fails: on ["Trump announces 25% tariff and 10%
    tariff"] the pair [("Trump", ANNOUNCES)] is emitted twice, once for
    each rate. *)
Lemma subject_predicate_pair_emitted_twice :
  ~ NoDup (map subject_predicate (extract_relations two_rates)).
Proof.
  rewrite extract_relations_two_rates. simpl.
  intros Hnd. apply NoDup_cons in Hnd as [Hnotin _].
  apply Hnotin. by left.
Qed.

(** C6, amended.  For every input, [extract_relations] emits a dedup
    key (lower-cased subject, predicate, lower-cased object) at most
    once, however many index pairs and rules produce it; its output
    follows the order of the candidates, and the first candidate of
    every key is in it. *)
Theorem extract_relations_emits_each_key_once (text : pyvalue) :
  NoDup (map triple_key (extract_relations text)) /\
  sublist (extract_relations text) (relation_candidates text) /\
  (forall (pre post : list triple) (t : triple),
     relation_candidates text = pre ++ t :: post ->
     triple_key t ∉ map triple_key pre ->
     t ∈ extract_relations text).
Proof.
  rewrite extract_relations_emitted.
  apply (emitted_first_occurrences triple_key).
Qed.

Lemma extract_relations_emits_each_key_once_witness :
  ("Trump", "ANNOUNCES", "tariff policy") ∈ extract_relations repeated_sentence.
Proof.
  apply (proj2 (proj2 (extract_relations_emits_each_key_once repeated_sentence))
           []
           [("Trump", "ANNOUNCES", "tariff policy");
            ("Trump", "ANNOUNCES", "tariff policy")]).
  - vm_compute. reflexivity.
  - simpl. apply not_elem_of_nil.
Defined.

(** C7, as stated, fails: on ["China and India and China"] the pair
    (India, China) is emitted although (China, India), the same two
    texts in the other order, was emitted before. *)
Lemma reversed_pair_emitted_again :
  ~ unordered_pairs_once (extract_simple_triples repeated_mention).
Proof.
  rewrite extract_simple_triples_repeated_mention.
  intros Honce.
  apply (Honce 0%nat 2%nat ("China", "RELATED_TO", "India")
               ("India", "RELATED_TO", "China")); [lia|done..|].
  right. split; reflexivity.
Qed.

(** C7, amended.  For every input, once [extract_simple_triples] has
    emitted a triple for a pair of entity texts, every later index pair
    with the same two lower-cased texts in the same order is skipped:
    no ordered key occurs twice, the output follows the order of the
    index pairs, and the first pair of every ordered key is in it. *)
Theorem extract_simple_triples_emits_each_ordered_pair_once (text : pyvalue) :
  NoDup (map ordered_pair_key (extract_simple_triples text)) /\
  sublist (extract_simple_triples text) (simple_candidates text) /\
  (forall (pre post : list triple) (t : triple),
     simple_candidates text = pre ++ t :: post ->
     ordered_pair_key t ∉ map ordered_pair_key pre ->
     t ∈ extract_simple_triples text).
Proof.
  rewrite extract_simple_triples_emitted.
  apply (emitted_first_occurrences ordered_pair_key).
Qed.

Lemma extract_simple_triples_emits_each_ordered_pair_once_witness :
  ("tariff policy", "MENTIONED_WITH", "Trump")
    ∈ extract_simple_triples repeated_sentence.
Proof.
  apply (proj2 (proj2 (extract_simple_triples_emits_each_ordered_pair_once
                         repeated_sentence))
           [("Trump", "ASSOCIATED_WITH", "tariff policy");
            ("Trump", "MENTIONED_WITH", "Trump");
            ("Trump", "ASSOCIATED_WITH", "tariff policy")]
           [("tariff policy", "MENTIONED_WITH", "tariff policy");
            ("Trump", "ASSOCIATED_WITH", "tariff policy")]).
  - vm_compute. reflexivity.
  - apply (bool_decide_unpack _). vm_compute. exact I.
Defined.

(** ** The graph store *)

Lemma has_node_add_node_same (n t : string) (g : MultiDiGraph) :
  has_node (add_node n t g) n = true.
Proof.
  unfold add_node. destruct (has_node g n) eqn:Hn.
  - unfold has_node in *. simpl.
    apply existsb_exists in Hn as (nd & Hin & Hnd).
    apply existsb_exists. exists (n, Some t). split.
    + apply in_map_iff. exists nd. by rewrite Hnd.
    + simpl. apply String.eqb_refl.
  - unfold has_node. simpl. rewrite existsb_app. simpl.
    rewrite String.eqb_refl. by rewrite orb_true_r.
Qed.

Lemma has_node_add_node_other (n m t : string) (g : MultiDiGraph) :
  has_node g n = true -> has_node (add_node m t g) n = true.
Proof.
  unfold add_node. destruct (has_node g m) eqn:Hm.
  - unfold has_node. simpl. intros Hn.
    apply existsb_exists in Hn as (nd & Hin & Hnd).
    apply existsb_exists.
    exists (if String.eqb nd.1 m then (m, Some t) else nd). split.
    + apply in_map_iff. by exists nd.
    + destruct (String.eqb nd.1 m) eqn:Heq; [|done].
      apply String.eqb_eq in Heq. simpl. by rewrite <- Heq.
  - unfold has_node. simpl. rewrite existsb_app. intros ->. done.
Qed.

Lemma ensure_node_present (n : string) (g : MultiDiGraph) :
  has_node g n = true -> ensure_node n g = g.
Proof. unfold ensure_node. by intros ->. Qed.

Lemma number_of_nodes_add_node_present (n t : string) (g : MultiDiGraph) :
  has_node g n = true -> number_of_nodes (add_node n t g) = number_of_nodes g.
Proof.
  unfold add_node, number_of_nodes. intros ->. simpl. apply length_map.
Qed.

Lemma edges_add_node (n t : string) (g : MultiDiGraph) :
  edges (add_node n t g) = edges g.
Proof. unfold add_node. by destruct (has_node g n). Qed.

Lemma edges_ensure_node (n : string) (g : MultiDiGraph) :
  edges (ensure_node n g) = edges g.
Proof. unfold ensure_node. by destruct (has_node g n). Qed.

Lemma number_of_edges_add_edge (u v r : string) (g : MultiDiGraph) :
  number_of_edges (add_edge u v r g) = S (number_of_edges g).
Proof.
  unfold add_edge, number_of_edges. simpl.
  rewrite length_app, !edges_ensure_node. simpl. lia.
Qed.

(** One call adds one edge and one entry of the log. *)
Lemma add_triple_counts (s p o : string) (st ot : option string)
    (self : KnowledgeGraph) :
  num_edges (add_triple s p o st ot self) = S (num_edges self) /\
  num_triples (add_triple s p o st ot self) = S (num_triples self).
Proof.
  unfold num_edges, num_triples, add_triple. simpl. split.
  - rewrite number_of_edges_add_edge. unfold number_of_edges.
    by rewrite !edges_add_node.
  - rewrite length_app. simpl. lia.
Qed.

(** A call whose two nodes are present adds no node. *)
Lemma add_triple_nodes_present (s p o : string) (st ot : option string)
    (self : KnowledgeGraph) :
  has_node (graph self) s = true -> has_node (graph self) o = true ->
  num_nodes (add_triple s p o st ot self) = num_nodes self.
Proof.
  intros Hs Ho. unfold num_nodes, add_triple. simpl.
  pose proof (has_node_add_node_other o s (or_unknown st) _ Ho) as Ho1.
  pose proof (has_node_add_node_same s (or_unknown st) (graph self)) as Hs1.
  pose proof (has_node_add_node_same o (or_unknown ot)
                (add_node s (or_unknown st) (graph self))) as Ho2.
  pose proof (has_node_add_node_other s o (or_unknown ot) _ Hs1) as Hs2.
  unfold add_edge.
  rewrite (ensure_node_present s) by done.
  rewrite (ensure_node_present o) by done.
  unfold number_of_nodes. simpl. fold (number_of_nodes (add_node o (or_unknown ot)
    (add_node s (or_unknown st) (graph self)))).
  rewrite number_of_nodes_add_node_present by done.
  by rewrite number_of_nodes_add_node_present.
Qed.

Lemma add_triple_has_nodes (s p o : string) (st ot : option string)
    (self : KnowledgeGraph) :
  has_node (graph (add_triple s p o st ot self)) s = true /\
  has_node (graph (add_triple s p o st ot self)) o = true.
Proof.
  unfold add_triple. simpl.
  pose proof (has_node_add_node_same s (or_unknown st) (graph self)) as Hs1.
  pose proof (has_node_add_node_same o (or_unknown ot)
                (add_node s (or_unknown st) (graph self))) as Ho2.
  pose proof (has_node_add_node_other s o (or_unknown ot) _ Hs1) as Hs2.
  unfold add_edge.
  rewrite (ensure_node_present s) by done.
  rewrite (ensure_node_present o) by done.
  done.
Qed.

Lemma after_calls_snoc (calls : list call) (c : call) :
  after_calls (calls ++ [c]) = apply_call (after_calls calls) c.
Proof. unfold after_calls. by rewrite fold_left_app. Qed.

Lemma after_calls_counts (calls : list call) :
  num_triples (after_calls calls) = length calls /\
  num_edges (after_calls calls) = num_triples (after_calls calls).
Proof.
  induction calls as [|c calls [IHt IHe]] using rev_ind; [done|].
  rewrite after_calls_snoc, length_app. simpl.
  destruct c as [[[[s p] o] st] ot]. simpl.
  destruct (add_triple_counts s p o st ot (after_calls calls)) as [He Ht].
  rewrite He, Ht. lia.
Qed.

(** C9.  After any sequence of [add_triple] calls on a fresh store the
    log has one entry per call and the graph one edge per entry; two
    calls [add_triple("A", "R", "B")] add two edges and two entries to
    any store, the second adds no node, and on a fresh store they leave
    two nodes. *)
Theorem add_triple_counts_every_call :
  (forall calls : list call,
     num_triples (after_calls calls) = length calls /\
     num_edges (after_calls calls) = num_triples (after_calls calls)) /\
  (forall self : KnowledgeGraph,
     let once := add_triple "A" "R" "B" None None self in
     let twice := add_triple "A" "R" "B" None None once in
     num_edges twice = (num_edges self + 2)%nat /\
     num_triples twice = (num_triples self + 2)%nat /\
     num_nodes twice = num_nodes once) /\
  num_nodes (add_triple "A" "R" "B" None None init) = 2%nat /\
  num_nodes (add_triple "A" "R" "B" None None
               (add_triple "A" "R" "B" None None init)) = 2%nat.
Proof.
  split; [apply after_calls_counts|]. split; [|split; reflexivity].
  intros self once twice.
  destruct (add_triple_counts "A" "R" "B" None None self) as [He1 Ht1].
  destruct (add_triple_counts "A" "R" "B" None None once) as [He2 Ht2].
  destruct (add_triple_has_nodes "A" "R" "B" None None self) as [Ha Hb].
  split; [|split].
  - subst twice. rewrite He2. subst once. rewrite He1. lia.
  - subst twice. rewrite Ht2. subst once. rewrite Ht1. lia.
  - by apply add_triple_nodes_present.
Qed.

Lemma unknown_metric_eqb (metric : string) :
  metric ∉ known_metrics ->
  Forall (fun known => String.eqb metric known = false) known_metrics.
Proof.
  intros Hnot. apply Forall_forall. intros known Hin.
  apply String.eqb_neq. by intros ->.
Qed.

(** C4, as stated, fails twice: on the empty graph an unknown metric
    raises nothing, and the invalid-argument error is not the only
    error of the store, for [load_graph] raises [FileNotFoundError]
    when there is no file at the path. *)
Lemma claimed_errors_fail :
  ~ unknown_metric_always_raises init /\ ~ raises_invalid_argument_only.
Proof.
  split.
  - intros Hraises.
    destruct (Hraises unit (fun _ => tt) (fun _ _ => true)
                (fun _ => []) (fun _ => []) 10%Z "closeness") as [message Hm].
    + apply (bool_decide_unpack _). vm_compute. exact I.
    + discriminate Hm.
  - intros Honly.
    destruct (Honly 0%nat "graph.json" ∅ init (FileNotFoundError "graph.json"))
      as [message Hm]; [reflexivity|discriminate Hm].
Qed.

(** C4, amended.  On a store with at least one node every metric other
    than the five known ones raises [ValueError]; on a store without
    nodes [get_top_entities] returns the empty list for every metric;
    and [load_graph] raises [FileNotFoundError] for a path at which
    there is no file. *)
Theorem get_top_entities_unknown_metric
    (float : Type) (float_of_int : Z -> float)
    (float_le : float -> float -> bool)
    (pagerank betweenness_centrality : MultiDiGraph -> list (string * float))
    (n : Z) (metric : string) (self : KnowledgeGraph) :
  (number_of_nodes (graph self) <> 0%nat -> metric ∉ known_metrics ->
   get_top_entities float_of_int float_le pagerank betweenness_centrality
     n metric self = Raise (ValueError ("Unknown metric: " +:+ metric))) /\
  (number_of_nodes (graph self) = 0%nat ->
   get_top_entities float_of_int float_le pagerank betweenness_centrality
     n metric self = Return []) /\
  (forall (fuel : nat) (filepath : string) (fs : file_system),
     fs !! filepath = None ->
     load_graph fuel filepath fs self
     = Some (Raise (FileNotFoundError filepath))).
Proof.
  split; [|split].
  - unfold get_top_entities.
    intros Hn Hm. apply Nat.eqb_neq in Hn. rewrite Hn.
    apply unknown_metric_eqb in Hm.
    repeat (apply Forall_cons in Hm as [-> Hm]). reflexivity.
  - unfold get_top_entities. intros ->. reflexivity.
  - intros fuel filepath fs Hnone. unfold load_graph.
    unfold file_system in *. by rewrite Hnone.
Qed.

Lemma get_top_entities_unknown_metric_witness :
  get_top_entities (fun _ : Z => tt) (fun _ _ : unit => true)
    (fun _ => []) (fun _ => []) 10%Z "closeness"
    (add_triple "A" "R" "B" None None init)
  = Raise (ValueError "Unknown metric: closeness").
Proof.
  apply (proj1 (get_top_entities_unknown_metric unit (fun _ => tt)
                  (fun _ _ => true) (fun _ => []) (fun _ => [])
                  10%Z "closeness" (add_triple "A" "R" "B" None None init))).
  - vm_compute. discriminate.
  - apply (bool_decide_unpack _). vm_compute. exact I.
Defined.

(** *** Entity types *)

Lemma find_node_app_absent (g : list (string * option string)) (n : string)
    (nd : string * option string) :
  existsb (fun x => String.eqb x.1 n) g = false ->
  List.find (fun x => String.eqb x.1 n) (g ++ [nd]) =
  if String.eqb nd.1 n then Some nd else None.
Proof.
  induction g as [|x g IH]; simpl; [done|].
  destruct (String.eqb x.1 n); [done|]. apply IH.
Qed.

Lemma find_node_updated (g : list (string * option string)) (n t : string) :
  existsb (fun x => String.eqb x.1 n) g = true ->
  List.find (fun x => String.eqb x.1 n)
    (map (fun x => if String.eqb x.1 n then (n, Some t) else x) g)
  = Some (n, Some t).
Proof.
  induction g as [|x g IH]; simpl; [done|].
  destruct (String.eqb x.1 n) eqn:Hx; simpl.
  - by rewrite String.eqb_refl.
  - rewrite Hx. apply IH.
Qed.

(** After [add_node(n, entity_type=t)] the attribute of [n] is [t],
    whatever it was. *)
Lemma node_entity_type_add_node (n t : string) (g : MultiDiGraph) :
  node_entity_type (add_node n t g) n = Some t.
Proof.
  unfold node_entity_type, add_node.
  destruct (has_node g n) eqn:Hn; unfold has_node in Hn; simpl.
  - by rewrite find_node_updated.
  - rewrite find_node_app_absent by done. simpl. by rewrite String.eqb_refl.
Qed.

(** The node attribute of the object after any call is the type given,
    or ['UNKNOWN'] when none is given: a typeless call resets it. *)
Lemma add_triple_object_attribute (s p o : string) (st ot : option string)
    (self : KnowledgeGraph) :
  node_entity_type (graph (add_triple s p o st ot self)) o
  = Some (or_unknown ot).
Proof.
  unfold add_triple. simpl.
  pose proof (has_node_add_node_same s (or_unknown st) (graph self)) as Hs1.
  pose proof (has_node_add_node_same o (or_unknown ot)
                (add_node s (or_unknown st) (graph self))) as Ho2.
  pose proof (has_node_add_node_other s o (or_unknown ot) _ Hs1) as Hs2.
  unfold add_edge.
  rewrite (ensure_node_present s) by done.
  rewrite (ensure_node_present o) by done.
  unfold node_entity_type at 1. simpl.
  apply node_entity_type_add_node.
Qed.

(** The type map is left alone by a typeless call, and takes the type
    of a typed one. *)
Lemma add_triple_untyped_map (s p o : string) (self : KnowledgeGraph) :
  entity_types (add_triple s p o None None self) = entity_types self.
Proof. reflexivity. Qed.

Lemma add_triple_typed_map (s p o t : string) (st : option string)
    (self : KnowledgeGraph) :
  t <> "" ->
  entity_types (add_triple s p o st (Some t) self) !! o = Some t.
Proof.
  intros Ht. unfold add_triple, record_type at 1. simpl.
  apply String.eqb_neq in Ht. rewrite Ht. simpl.
  apply lookup_insert_eq.
Qed.

(** What a reader of the node attributes sees of the store in which
    ["Trump"] lost its type. *)
Lemma typed_then_untyped_distribution :
  get_entity_types_distribution typed_then_untyped
  = {[ "UNKNOWN" := 1%nat; "TARIFF_RATE" := 1%nat; "ORGANIZATION" := 1%nat ]}.
Proof. vm_compute. reflexivity. Qed.

(** C2, on the code.  A call that names a node as object without a
    type sets the node attribute [entity_type] to ['UNKNOWN'] whatever
    it was, and a call without types leaves the type map of the store
    as it is.  So after [add_triple("Trump", "ANNOUNCES", "25% tariff",
    "PERSON", "TARIFF_RATE")], where the node ["Trump"] has
    [entity_type] ['PERSON'], the call [add_triple("BBC", "REPORTS",
    "Trump", "ORGANIZATION")] sets the attribute to ['UNKNOWN'] while
    the type map still says ['PERSON']. *)
Theorem typeless_occurrence_resets_node_attribute :
  (forall (self : KnowledgeGraph) (s p o : string) (st : option string),
     node_entity_type (graph (add_triple s p o st None self)) o
     = Some "UNKNOWN") /\
  (forall (self : KnowledgeGraph) (s p o : string),
     entity_types (add_triple s p o None None self) = entity_types self) /\
  node_entity_type
    (graph (add_triple "Trump" "ANNOUNCES" "25% tariff" (Some "PERSON")
              (Some "TARIFF_RATE") init)) "Trump" = Some "PERSON" /\
  node_entity_type (graph typed_then_untyped) "Trump" = Some "UNKNOWN" /\
  entity_types typed_then_untyped !! "Trump" = Some "PERSON".
Proof.
  split; [|split].
  - intros self s p o st.
    apply (add_triple_object_attribute s p o st None self).
  - intros self s p o. apply add_triple_untyped_map.
  - repeat split; vm_compute; reflexivity.
Qed.

(** *** Saving and loading *)

Lemma add_triple_log (s p o : string) (st ot : option string)
    (self : KnowledgeGraph) :
  triples (add_triple s p o st ot self) = triples self ++ [(s, p, o)].
Proof. reflexivity. Qed.

(** While the index is inside the log the loop cannot end: every round
    that moves the index one on also makes the log one longer. *)
Lemma rebuild_never_ends (fuel i : nat) (self : KnowledgeGraph) :
  (i < length (triples self))%nat -> rebuild fuel i self = None.
Proof.
  revert i self. induction fuel as [|fuel IH]; intros i self Hi;
    destruct (lookup_lt_is_Some_2 _ _ Hi) as [[[s p] o] Hlookup];
    cbn [rebuild]; unfold triple in *; rewrite Hlookup; [done|].
  apply IH. rewrite add_triple_log, length_app. simpl.
  unfold triple in *. lia.
Qed.

(** A store whose log is empty does come back as it was saved. *)
Lemma load_graph_empty_log (fuel : nat) (filepath : string)
    (fs : file_system) (self fresh : KnowledgeGraph) :
  triples self = [] ->
  load_graph fuel filepath (save_graph filepath self fs) fresh
  = Some (Return (KG empty_graph [] (entity_types self))).
Proof.
  intros Hlog. unfold load_graph, save_graph, file_system in *.
  rewrite lookup_insert_eq. simpl. rewrite Hlog.
  by destruct fuel.
Qed.

Lemma load_graph_nonempty_log (fuel : nat) (filepath : string)
    (fs : file_system) (self fresh : KnowledgeGraph) :
  triples self <> [] ->
  load_graph fuel filepath (save_graph filepath self fs) fresh = None.
Proof.
  intros Hlog. unfold load_graph, save_graph, file_system in *.
  rewrite lookup_insert_eq. simpl.
  rewrite rebuild_never_ends; [done|]. simpl.
  destruct (triples self); [done|simpl; lia].
Qed.

(** C1, on the code.  A store that has received a call of [add_triple]
    is saved to a file; [load_graph] of that file into any store has
    not returned after any number of rounds of its rebuild loop, so the
    store never holds the saved log.  This is so for the store with the
    one triple [("A", "R", "B")] loaded into a fresh store. *)
Theorem load_graph_of_saved_triple_never_returns (fuel : nat) :
  (forall (filepath : string) (fs : file_system) (self fresh : KnowledgeGraph)
          (s p o : string) (st ot : option string),
     load_graph fuel filepath
       (save_graph filepath (add_triple s p o st ot self) fs) fresh = None) /\
  load_graph fuel "graph.json"
    (save_graph "graph.json" (add_triple "A" "R" "B" None None init) ∅)
    init = None.
Proof.
  split.
  - intros filepath fs self fresh s p o st ot.
    apply load_graph_nonempty_log.
    rewrite add_triple_log. intros Hnil.
    by apply app_eq_nil in Hnil as [_ Hnil].
  - by apply load_graph_nonempty_log.
Qed.

(** ** More on overlap resolution *)

Lemma insert_sorted_by_key (x : span) (l : list span) :
  StronglySorted by_key l ->
  StronglySorted by_key (Py.insert_sorted span_le x l).
Proof.
  induction 1 as [|z l Hl IH Hz]; simpl.
  - repeat constructor.
  - destruct (span_le x z) eqn:Hxz.
    + constructor; [by constructor|].
      constructor; [done|].
      eapply Forall_impl; [exact Hz|].
      intros y Hzy. unfold by_key, span_le in *. by eapply key_le_trans.
    + constructor; [done|].
      apply Forall_forall. intros y Hy.
      apply insert_sorted_elem in Hy as [->|Hy].
      * unfold by_key, span_le in *. by apply key_le_total.
      * rewrite Forall_forall in Hz. auto.
Qed.

Lemma sorted_by_key (l : list span) :
  StronglySorted by_key (Py.sorted span_le l).
Proof.
  induction l as [|x l IH]; simpl; [constructor|].
  by apply insert_sorted_by_key.
Qed.

(** Sorting a list that is in key order changes nothing. *)
Lemma sorted_of_sorted (l : list span) :
  StronglySorted by_key l -> Py.sorted span_le l = l.
Proof.
  induction 1 as [|x l Hl IH Hx]; [done|].
  change (Py.sorted span_le (x :: l))
    with (Py.insert_sorted span_le x (Py.sorted span_le l)).
  rewrite IH.
  destruct l as [|y l]; simpl; [done|].
  apply Forall_cons in Hx as [Hxy _]. unfold by_key in Hxy. by rewrite Hxy.
Qed.

Lemma sweep_sublist (last_end : Z) (l : list span) :
  sublist (sweep last_end l) l.
Proof.
  revert last_end. induction l as [|e l IH]; intros last_end; simpl.
  - constructor.
  - destruct (span_start e >=? last_end)%Z; by constructor.
Qed.

Lemma sweep_sweep (last_end : Z) (l : list span) :
  sweep last_end (sweep last_end l) = sweep last_end l.
Proof.
  revert last_end. induction l as [|e l IH]; intros last_end; simpl; [done|].
  destruct (span_start e >=? last_end)%Z eqn:He; [|apply IH].
  simpl. rewrite He. by rewrite IH.
Qed.

Lemma sublist_by_key (l k : list span) :
  sublist l k -> StronglySorted by_key k -> StronglySorted by_key l.
Proof.
  induction 1 as [|x l k Hlk IH|x l k Hlk IH]; intros Hk.
  - constructor.
  - apply StronglySorted_inv in Hk as [Hk Hx].
    constructor; [by apply IH|].
    apply Forall_forall. intros y Hy. rewrite Forall_forall in Hx.
    apply Hx. by eapply elem_of_sublist.
  - apply StronglySorted_inv in Hk as [Hk _]. by apply IH.
Qed.

Lemma sorted_permutation (l : list span) : Py.sorted span_le l ≡ₚ l.
Proof.
  induction l as [|x l IH]; [done|].
  assert (forall k, Py.insert_sorted span_le x k ≡ₚ x :: k) as Hins.
  { induction k as [|y k IHk]; simpl; [done|].
    destruct (span_le x y); [done|].
    rewrite IHk. apply perm_swap. }
  change (Py.sorted span_le (x :: l))
    with (Py.insert_sorted span_le x (Py.sorted span_le l)).
  by rewrite Hins, IH.
Qed.

(** X2.  [_resolve_overlaps] keeps candidates only, in the order of the
    stable sort by [(start, -length)], and resolving what it returned
    changes nothing. *)
Theorem resolve_overlaps_idempotent (entities : list span) :
  _resolve_overlaps (_resolve_overlaps entities) = _resolve_overlaps entities /\
  sublist (_resolve_overlaps entities) (Py.sorted span_le entities) /\
  Py.sorted span_le entities ≡ₚ entities /\
  (forall e : span, e ∈ _resolve_overlaps entities -> e ∈ entities).
Proof.
  assert (sublist (_resolve_overlaps entities) (Py.sorted span_le entities))
    as Hsub.
  { rewrite resolve_overlaps_sweep. apply sweep_sublist. }
  split; [|split; [done|split; [apply sorted_permutation|]]].
  - rewrite (resolve_overlaps_sweep (_resolve_overlaps entities)).
    rewrite sorted_of_sorted.
    + rewrite resolve_overlaps_sweep. apply sweep_sweep.
    + eapply sublist_by_key; [exact Hsub|apply sorted_by_key].
  - intros e He. rewrite <- (sorted_permutation entities).
    by eapply elem_of_sublist.
Qed.

Lemma sweep_rejected (last_end : Z) (l : list span) (c : span) :
  StronglySorted by_start l -> c ∈ l -> c ∉ sweep last_end l ->
  (span_start c < last_end)%Z \/
  exists k : span,
    k ∈ sweep last_end l /\ (span_start k <= span_start c < span_end k)%Z.
Proof.
  intros Hl. revert last_end.
  induction Hl as [|e l Hl IH He]; intros last_end Hc Hnot.
  { by apply elem_of_nil in Hc. }
  simpl in *. destruct (span_start e >=? last_end)%Z eqn:Hge.
  - apply not_elem_of_cons in Hnot as [Hne Hnot].
    apply elem_of_cons in Hc as [->|Hc]; [done|].
    right. destruct (IH (span_end e) Hc Hnot) as [Hlt|(k & Hk & Hin)].
    + exists e. split; [by left|].
      rewrite Forall_forall in He. specialize (He c Hc).
      unfold by_start in He. lia.
    + exists k. split; [by right|done].
  - apply elem_of_cons in Hc as [->|Hc]; [left; lia|].
    by apply IH.
Qed.

(** X3.  Overlap resolution drops a candidate only for a reason: a
    candidate that is not kept starts inside a span that is kept. *)
Theorem resolve_overlaps_drops_only_overlapped (entities : list span) (c : span) :
  starts_in_text entities -> c ∈ entities -> c ∉ _resolve_overlaps entities ->
  exists k : span,
    k ∈ _resolve_overlaps entities /\
    (span_start k <= span_start c < span_end k)%Z.
Proof.
  intros Hstart Hc Hnot. rewrite resolve_overlaps_sweep in *.
  unfold starts_in_text in Hstart. rewrite Forall_forall in Hstart.
  specialize (Hstart c Hc).
  rewrite <- (sorted_permutation entities) in Hc.
  destruct (sweep_rejected (-1) _ c (sorted_by_start entities) Hc Hnot)
    as [Hlt|Hk]; [lia|done].
Qed.

Lemma resolve_overlaps_drops_only_overlapped_witness :
  exists k : span,
    k ∈ _resolve_overlaps [("PERCENTAGE", "25%", 16%Z, 19%Z);
                           ("TARIFF_RATE", "25% tariff", 16%Z, 26%Z)] /\
    (span_start k <= 16 < span_end k)%Z.
Proof.
  apply (resolve_overlaps_drops_only_overlapped
           [("PERCENTAGE", "25%", 16%Z, 19%Z);
            ("TARIFF_RATE", "25% tariff", 16%Z, 26%Z)]
           ("PERCENTAGE", "25%", 16%Z, 19%Z)).
  - unfold starts_in_text.
    apply Forall_cons_2; [unfold span_start; simpl; lia|].
    apply Forall_cons_2; [unfold span_start; simpl; lia|].
    apply Forall_nil_2.
  - by left.
  - apply (bool_decide_unpack _). vm_compute. exact I.
Defined.

(** X1.  The dictionaries are Python sets, walked in an order the
    source does not fix.  Whatever that order is, the entities kept
    after overlap resolution are the ones the model finds by walking
    the terms in the order of the source text, which is what
    [_match_dictionary] stands for. *)
Theorem kept_entities_independent_of_set_order
    (dictionaries : list (string * list string)) (text : string) :
  same_sets entity_dictionaries dictionaries ->
  match_dictionary_walk entity_dictionaries text = _match_dictionary text /\
  _resolve_overlaps (match_dictionary_walk dictionaries text ++ _match_patterns text)
  = _resolve_overlaps (_match_dictionary text ++ _match_patterns text).
Proof.
  intros Hsets. split.
  - symmetry. apply match_dictionary_walk_source.
  - by apply resolve_overlaps_walk_order.
Qed.

(** X1 holds of the dictionaries walked backwards. *)
Lemma kept_entities_independent_of_set_order_witness :
  same_sets entity_dictionaries reversed_dictionaries /\
  _resolve_overlaps
    (match_dictionary_walk reversed_dictionaries "China exports steel to the USA"
     ++ _match_patterns "China exports steel to the USA")
  = _resolve_overlaps
      (_match_dictionary "China exports steel to the USA"
       ++ _match_patterns "China exports steel to the USA").
Proof.
  assert (same_sets entity_dictionaries reversed_dictionaries) as Hsets.
  { unfold same_sets, reversed_dictionaries.
    apply Forall2_fmap_r, Forall_Forall2_diag, Forall_forall.
    intros entry _. simpl. split; [reflexivity|]. apply Permutation_rev. }
  split; [exact Hsets|].
  apply (kept_entities_independent_of_set_order reversed_dictionaries
           "China exports steel to the USA" Hsets).
Defined.

(** ** Normalisation of entity texts *)

Lemma map_chars_compose (f g : ascii -> ascii) (s : string) :
  Py.map_chars f (Py.map_chars g s) = Py.map_chars (fun c => f (g c)) s.
Proof. induction s as [|c s IH]; simpl; congruence. Qed.

Lemma map_chars_ext (f g : ascii -> ascii) (s : string) :
  (forall c, f c = g c) -> Py.map_chars f s = Py.map_chars g s.
Proof. intros Hfg. induction s as [|c s IH]; simpl; congruence. Qed.

Lemma upper_lower_char (c : ascii) :
  Py.upper_char (Py.lower_char c) = Py.upper_char c.
Proof. destruct c as [[] [] [] [] [] [] [] []]; reflexivity. Qed.

Lemma lower_upper_char (c : ascii) :
  Py.lower_char (Py.upper_char c) = Py.lower_char c.
Proof. destruct c as [[] [] [] [] [] [] [] []]; reflexivity. Qed.

Lemma lower_lower_char (c : ascii) :
  Py.lower_char (Py.lower_char c) = Py.lower_char c.
Proof. destruct c as [[] [] [] [] [] [] [] []]; reflexivity. Qed.

Lemma upper_upper_char (c : ascii) :
  Py.upper_char (Py.upper_char c) = Py.upper_char c.
Proof. destruct c as [[] [] [] [] [] [] [] []]; reflexivity. Qed.

Lemma is_alpha_lower_char (c : ascii) :
  Py.is_alpha (Py.lower_char c) = Py.is_alpha c.
Proof. destruct c as [[] [] [] [] [] [] [] []]; reflexivity. Qed.

Lemma is_alpha_upper_char (c : ascii) :
  Py.is_alpha (Py.upper_char c) = Py.is_alpha c.
Proof. destruct c as [[] [] [] [] [] [] [] []]; reflexivity. Qed.

Lemma upper_lower (s : string) : Py.upper (Py.lower s) = Py.upper s.
Proof.
  unfold Py.upper, Py.lower. rewrite map_chars_compose.
  apply map_chars_ext, upper_lower_char.
Qed.

Lemma lower_upper (s : string) : Py.lower (Py.upper s) = Py.lower s.
Proof.
  unfold Py.upper, Py.lower. rewrite map_chars_compose.
  apply map_chars_ext, lower_upper_char.
Qed.

Lemma lower_lower (s : string) : Py.lower (Py.lower s) = Py.lower s.
Proof.
  unfold Py.lower. rewrite map_chars_compose.
  apply map_chars_ext, lower_lower_char.
Qed.

Lemma upper_upper (s : string) : Py.upper (Py.upper s) = Py.upper s.
Proof.
  unfold Py.upper. rewrite map_chars_compose.
  apply map_chars_ext, upper_upper_char.
Qed.

Lemma title_from_lower (b : bool) (s : string) :
  Py.title_from b (Py.lower s) = Py.title_from b s.
Proof.
  revert b. induction s as [|c s IH]; intros b; simpl; [done|].
  rewrite is_alpha_lower_char, IH.
  by destruct b; rewrite ?lower_lower_char, ?upper_lower_char.
Qed.

Lemma lower_title_from (b : bool) (s : string) :
  Py.lower (Py.title_from b s) = Py.lower s.
Proof.
  unfold Py.lower.
  revert b. induction s as [|c s IH]; intros b; simpl; [done|].
  rewrite IH.
  by destruct b; rewrite ?lower_lower_char, ?lower_upper_char.
Qed.

Lemma upper_title_from (b : bool) (s : string) :
  Py.upper (Py.title_from b s) = Py.upper s.
Proof. by rewrite <- upper_lower, lower_title_from, upper_lower. Qed.

Lemma title_from_title_from (b : bool) (s : string) :
  Py.title_from b (Py.title_from b s) = Py.title_from b s.
Proof.
  revert b. induction s as [|c s IH]; intros b; simpl; [done|].
  assert (Py.is_alpha (if b then Py.lower_char c else Py.upper_char c)
          = Py.is_alpha c) as ->.
  { destruct b; [apply is_alpha_lower_char|apply is_alpha_upper_char]. }
  rewrite IH.
  by destruct b; rewrite ?lower_lower_char, ?upper_upper_char.
Qed.

Lemma length_title_from (b : bool) (s : string) :
  String.length (Py.title_from b s) = String.length s.
Proof. revert b. induction s; intros b; simpl; congruence. Qed.

Lemma length_capitalize_entity (text entity_type : string) :
  String.length (_capitalize_entity text entity_type) = String.length text.
Proof.
  unfold _capitalize_entity.
  repeat case_match;
    first [done | apply length_map_chars | apply length_title_from].
Qed.

(** X4.  Normalising a normalised text changes nothing, and
    normalisation keeps the length of the text. *)
Theorem capitalize_entity_idempotent (text entity_type : string) :
  _capitalize_entity (_capitalize_entity text entity_type) entity_type
  = _capitalize_entity text entity_type /\
  String.length (_capitalize_entity text entity_type) = String.length text.
Proof.
  split; [|apply length_capitalize_entity].
  unfold _capitalize_entity.
  destruct (Py.str_in entity_type _); [done|].
  destruct (Py.str_in entity_type _); [|done].
  destruct (Py.str_in (Py.upper text) _) eqn:Hup.
  { by rewrite upper_upper, Hup. }
  destruct (Py.str_in (Py.lower text) _) eqn:Hlow.
  { by rewrite upper_upper, lower_upper, Hup, Hlow. }
  unfold Py.title.
  rewrite upper_title_from, lower_title_from, Hup, Hlow.
  apply title_from_title_from.
Qed.

(** X5.  For the name-like types two ASCII texts that differ in case
    only are normalised to the same text. *)
Theorem capitalize_entity_ignores_case (text1 text2 entity_type : string) :
  isascii text1 = true -> isascii text2 = true ->
  entity_type ∈ name_types -> Py.lower text1 = Py.lower text2 ->
  _capitalize_entity text1 entity_type = _capitalize_entity text2 entity_type.
Proof.
  intros _ _ Hty Hlow.
  assert (forall text,
            _capitalize_entity text entity_type
            = _capitalize_entity (Py.lower text) entity_type) as Hnorm.
  { intros text.
    assert (Py.str_in entity_type ["MONEY"; "PERCENTAGE"; "DATE"; "TARIFF_RATE"]
            = false /\
            Py.str_in entity_type ["PERSON"; "LOCATION"; "ORGANIZATION"] = true)
      as [H1 H2].
    { unfold name_types in Hty. rewrite !elem_of_cons in Hty.
      destruct Hty as [->|[->|[->|Hty]]]; [by split..|].
      by apply elem_of_nil in Hty. }
    unfold _capitalize_entity. rewrite H1, H2.
    rewrite upper_lower, lower_lower. unfold Py.title.
    by rewrite title_from_lower. }
  by rewrite (Hnorm text1), (Hnorm text2), Hlow.
Qed.

Lemma capitalize_entity_ignores_case_witness :
  _capitalize_entity "NEW delhi" "LOCATION" = _capitalize_entity "new DELHI" "LOCATION".
Proof.
  apply (capitalize_entity_ignores_case "NEW delhi" "new DELHI" "LOCATION").
  - reflexivity.
  - reflexivity.
  - apply (bool_decide_unpack _). vm_compute. exact I.
  - vm_compute. reflexivity.
Defined.

(** ** Offsets of the matches *)

Lemma ahead_refl (c : Re.cursor) : ahead 0 c c.
Proof. unfold ahead. lia. Qed.

Lemma ahead_trans (n m : nat) (c1 c2 c3 : Re.cursor) :
  ahead n c1 c2 -> ahead m c2 c3 -> ahead (n + m) c1 c3.
Proof. unfold ahead. lia. Qed.

Lemma ahead_weaken (n m : nat) (c c' : Re.cursor) :
  (m <= n)%nat -> ahead n c c' -> ahead m c c'.
Proof. unfold ahead. lia. Qed.

Lemma advance_ahead (c c' : Re.cursor) (x : ascii) :
  Re.advance c = Some (x, c') -> ahead 1 c c'.
Proof.
  unfold Re.advance, ahead. destruct (Re.rest c) as [|a s] eqn:Hr; [done|].
  intros [= <- <-]. simpl. lia.
Qed.

Lemma step_class_ahead (p : ascii -> bool) (c : Re.cursor)
    (k : Re.cursor -> option Re.cursor) (e : Re.cursor) :
  Re.step_class p c k = Some e ->
  exists c', ahead 1 c c' /\ k c' = Some e.
Proof.
  unfold Re.step_class.
  destruct (Re.advance c) as [[x c']|] eqn:Ha; [|done].
  destruct (p x); [|done]. intros Hk. exists c'.
  split; [by eapply advance_ahead|done].
Qed.

(** Where the matcher succeeds, the continuation was given a cursor
    at least [min_len r] characters on. *)
Lemma run_ahead (icase : bool) (r : Re.regex) (c : Re.cursor)
    (k : Re.cursor -> option Re.cursor) (e : Re.cursor) :
  Re.run icase r c k = Some e ->
  exists c', ahead (min_len r) c c' /\ k c' = Some e.
Proof.
  revert c k e.
  induction r as [|a|cs| | | | |r1 IH1 r2 IH2|r1 IH1 r2 IH2|r1 IH1|r1 IH1];
    intros c k e; simpl.
  - intros Hk. exists c. split; [apply ahead_refl|done].
  - apply step_class_ahead.
  - apply step_class_ahead.
  - apply step_class_ahead.
  - apply step_class_ahead.
  - apply step_class_ahead.
  - destruct (xorb _ _); [|done].
    intros Hk. exists c. split; [apply ahead_refl|done].
  - intros Hrun. apply IH1 in Hrun as (c1 & H1 & Hrun).
    apply IH2 in Hrun as (c2 & H2 & Hk).
    exists c2. split; [by eapply ahead_trans|done].
  - destruct (Re.run icase r1 c k) as [e1|] eqn:H1.
    + intros [= ->]. apply IH1 in H1 as (c1 & Ha & Hk).
      exists c1. split; [|done]. eapply ahead_weaken; [|exact Ha]. lia.
    + intros H2. apply IH2 in H2 as (c2 & Ha & Hk).
      exists c2. split; [|done]. eapply ahead_weaken; [|exact Ha]. lia.
  - set (m := String.length (Re.rest c)). clearbody m.
    match goal with
    | |- context [?loop m _] =>
        assert (forall n c0, loop n c0 = Some e ->
                  exists c', ahead 0 c0 c' /\ k c' = Some e) as Hloop
    end.
    { induction n as [|n IHn]; intros c0; simpl.
      - intros Hk. exists c0. split; [apply ahead_refl|done].
      - destruct (Re.run icase r1 c0 _) as [e1|] eqn:H1.
        + intros [= ->]. apply IH1 in H1 as (c1 & Ha & Hloop).
          destruct (Re.pos c0 <? Re.pos c1)%nat; [|done].
          apply IHn in Hloop as (c2 & Ha2 & Hk).
          exists c2. split; [|done].
          eapply ahead_weaken; [|by eapply ahead_trans]. lia.
        + intros Hk. exists c0. split; [apply ahead_refl|done]. }
    apply (Hloop (S m) c).
  - destruct (Re.run icase r1 c Some); [|done].
    intros Hk. exists c. split; [apply ahead_refl|done].
Qed.

Lemma match_here_inside (p : Re.pattern) (c : Re.cursor) (e : nat) :
  Re.match_here p c = Some e ->
  (Re.pos c + min_len (Re.compile (Re.source p)) <= e)%nat /\
  (e <= Re.pos c + String.length (Re.rest c))%nat.
Proof.
  unfold Re.match_here.
  destruct (Re.run _ _ c Some) as [c'|] eqn:Hrun; [|done].
  intros [= <-]. apply run_ahead in Hrun as (c1 & [H1 H2] & [= ->]). lia.
Qed.

Lemma search_from_inside (p : Re.pattern) (c : Re.cursor) (fuel : nat)
    (m : nat * nat) :
  Re.search_from p c fuel = Some m ->
  match_inside (min_len (Re.compile (Re.source p))) (Re.pos c)
    (Re.pos c + String.length (Re.rest c)) m.
Proof.
  revert c. induction fuel as [|fuel IH]; intros c; simpl.
  - destruct (Re.match_here p c) as [e|] eqn:He; [|done].
    intros [= <-]. apply match_here_inside in He. unfold match_inside. simpl. lia.
  - destruct (Re.match_here p c) as [e|] eqn:He.
    + intros [= <-]. apply match_here_inside in He.
      unfold match_inside. simpl. lia.
    + destruct (Re.advance c) as [[x c']|] eqn:Ha; [|done].
      intros Hs. apply IH in Hs. apply advance_ahead in Ha.
      unfold match_inside, ahead in *. lia.
Qed.

Lemma skip_ahead (n : nat) (c : Re.cursor) : ahead 0 c (Re.skip n c).
Proof.
  revert c. induction n as [|n IH]; intros c; simpl; [apply ahead_refl|].
  destruct (Re.advance c) as [[x c']|] eqn:Ha; [|apply ahead_refl].
  apply advance_ahead in Ha. specialize (IH c'). unfold ahead in *. lia.
Qed.

Lemma finditer_from_inside (p : Re.pattern) (c : Re.cursor) (fuel : nat) :
  Forall (match_inside (min_len (Re.compile (Re.source p))) (Re.pos c)
            (Re.pos c + String.length (Re.rest c)))
         (Re.finditer_from p c fuel).
Proof.
  revert c. induction fuel as [|fuel IH]; intros c; simpl; [constructor|].
  destruct (Re.search_from p c _) as [[b e]|] eqn:Hs; [|constructor].
  constructor; [by apply search_from_inside in Hs|].
  match goal with |- context [Re.skip ?n c] => pose proof (skip_ahead n c) as Hsk;
    specialize (IH (Re.skip n c)) end.
  eapply Forall_impl; [exact IH|].
  intros m Hm. unfold match_inside, ahead in *. lia.
Qed.

Lemma finditer_inside (p : Re.pattern) (s : string) :
  Forall (match_inside (min_len (Re.compile (Re.source p))) 0 (String.length s))
         (Re.finditer p s).
Proof. apply (finditer_from_inside p (Re.start_cursor s)). Qed.

(** No pattern of the entity table matches the empty string. *)
Lemma entity_patterns_consume :
  Forall (fun entry : string * list Re.pattern =>
            Forall (fun p => (1 <= min_len (Re.compile (Re.source p)))%nat)
                   entry.2)
         entity_patterns.
Proof. repeat constructor; vm_compute; lia. Qed.

Lemma length_substring (n m : nat) (s : string) :
  String.length (String.substring n m s)
  = Nat.min m (String.length s - n).
Proof.
  revert n m. induction s as [|c s IH]; intros n m.
  - destruct n, m; reflexivity.
  - destruct n as [|n].
    + destruct m as [|m]; [reflexivity|]. simpl. rewrite IH. simpl. lia.
    + simpl. apply IH.
Qed.

Lemma match_patterns_inside (text : string) :
  Forall (inside_text text) (_match_patterns text).
Proof.
  unfold _match_patterns.
  pose proof entity_patterns_consume as Hall. rewrite Forall_forall in Hall.
  apply fold_left_preserves_elem; [|constructor].
  intros entities [entity_type pattern_list] Hentry Hacc.
  specialize (Hall _ Hentry). simpl in Hall. rewrite Forall_forall in Hall.
  apply fold_left_preserves_elem; [|done].
  intros entities' pattern Hp Hacc'. specialize (Hall _ Hp).
  pose proof (finditer_inside pattern text) as Hms.
  rewrite Forall_forall in Hms.
  apply fold_left_preserves_elem; [|done].
  intros entities'' [b e] Hm Hacc''. specialize (Hms _ Hm).
  apply Forall_app. split; [done|]. constructor; [|constructor].
  unfold match_inside in Hms. simpl in Hms.
  unfold inside_text, span_start, span_end, span_text, Py.len. simpl.
  repeat split; lia.
Qed.

Lemma match_dictionary_inside (text : string) :
  Forall (inside_text text) (_match_dictionary text).
Proof.
  pose proof (match_dictionary_bounded text) as Hall.
  eapply Forall_impl; [exact Hall|].
  intros e (pos & end_pos & dictionary & entity & Hd & He & Hs & Hend & Hlen
            & Hsub & Htext & _).
  assert (entity ∈ dictionary_terms) as Hterm.
  { unfold dictionary_terms. apply list_elem_of_In, in_flat_map.
    exists (span_type e, dictionary).
    split; by apply list_elem_of_In. }
  pose proof dictionary_terms_nonempty as Hne. rewrite Forall_forall in Hne.
  specialize (Hne _ Hterm).
  assert (0 < String.length entity)%nat as Hpos.
  { destruct entity; [done|simpl; lia]. }
  pose proof (f_equal String.length Hsub) as Hl.
  rewrite length_substring in Hl.
  unfold Py.lower in Hl. rewrite length_map_chars in Hl.
  unfold inside_text, Py.len. rewrite Hs, Hend, Htext.
  repeat split; lia.
Qed.

Lemma sorted_elem (l : list span) (e : span) :
  e ∈ Py.sorted span_le l -> e ∈ l.
Proof.
  induction l as [|x l IH]; [done|].
  change (Py.sorted span_le (x :: l))
    with (Py.insert_sorted span_le x (Py.sorted span_le l)).
  intros He. apply insert_sorted_elem in He as [->|He]; [by left|].
  right. by apply IH.
Qed.

Lemma resolve_overlaps_elem (entities : list span) (e : span) :
  e ∈ _resolve_overlaps entities -> e ∈ entities.
Proof.
  rewrite resolve_overlaps_sweep. intros He.
  by apply sweep_elem, sorted_elem in He.
Qed.

Lemma length_slice (text : string) (a b : Z) :
  (0 <= a <= b)%Z -> (b <= Py.len text)%Z ->
  Z.of_nat (String.length (Py.slice text a b)) = (b - a)%Z.
Proof.
  intros Hab Hb. unfold Py.slice, Py.clamp, Py.len in *.
  rewrite length_substring.
  repeat case_match; lia.
Qed.

Lemma extracted_span_inside (s : string) (e : span) :
  e ∈ extract_entities_with_positions (PyStr s) ->
  (0 <= span_start e < span_end e)%Z /\ (span_end e <= Py.len s)%Z /\
  span_text e
  = _capitalize_entity (Py.slice s (span_start e) (span_end e)) (span_type e) /\
  Z.of_nat (String.length (span_text e)) = (span_end e - span_start e)%Z.
Proof.
  intros He.
  destruct (usable_text (PyStr s)) as [s'|] eqn:Hs.
  2:{ unfold extract_entities_with_positions in He. rewrite Hs in He.
      by apply elem_of_nil in He. }
  apply usable_text_str in Hs as Heq. injection Heq as <-.
  rewrite extract_entities_with_positions_unfold in He by done.
  apply list_elem_of_fmap in He as (c & -> & Hc).
  apply resolve_overlaps_elem in Hc.
  assert (inside_text s c) as (Hse & Hend & Htext).
  { apply elem_of_app in Hc as [Hc|Hc].
    - pose proof (match_dictionary_inside s) as Hall.
      rewrite Forall_forall in Hall. auto.
    - pose proof (match_patterns_inside s) as Hall.
      rewrite Forall_forall in Hall. auto. }
  unfold normalize, span_start, span_end, span_text, span_type in *.
  simpl in *. rewrite <- Htext.
  repeat split; try lia.
  rewrite length_capitalize_entity.
  rewrite Htext. apply length_slice; lia.
Qed.

(** X6.  Every span that [extract_entities_with_positions] returns for
    an ASCII text lies inside the text and is not empty, its text is
    the normalised text between its offsets and has their distance as
    its length, and the spans come in the order of the text. *)
Theorem extracted_spans_lie_in_text (s : string) :
  isascii s = true ->
  let spans := extract_entities_with_positions (PyStr s) in
  (forall e : span,
     e ∈ spans ->
     (0 <= span_start e < span_end e)%Z /\ (span_end e <= Py.len s)%Z /\
     span_text e
     = _capitalize_entity (Py.slice s (span_start e) (span_end e)) (span_type e) /\
     Z.of_nat (String.length (span_text e)) = (span_end e - span_start e)%Z) /\
  (forall (i j : nat) (a b : span),
     (i < j)%nat -> spans !! i = Some a -> spans !! j = Some b ->
     (span_start a < span_start b)%Z).
Proof.
  intros _. cbv zeta. split; [apply extracted_span_inside|].
  intros i j a b Hij Hi Hj.
  pose proof (extract_entities_with_positions_chained (PyStr s) i j a b Hij Hi Hj).
  apply list_elem_of_lookup_2 in Hi. apply extracted_span_inside in Hi. lia.
Qed.

Lemma extracted_spans_lie_in_text_witness :
  (span_start ("PERSON", "Trump", 0%Z, 5%Z)
   < span_start ("TARIFF_RATE", "25% tariff", 16%Z, 26%Z))%Z.
Proof.
  apply (proj2 (extracted_spans_lie_in_text
                  "Trump announces 25% tariff on Chinese imports" eq_refl)
           0%nat 1%nat).
  - lia.
  - vm_compute. reflexivity.
  - vm_compute. reflexivity.
Defined.

(** ** Where the triples come from *)

Lemma str_in_elem (x : string) (xs : list string) :
  Py.str_in x xs = true -> x ∈ xs.
Proof.
  unfold Py.str_in. intros (y & Hy & Heq)%existsb_exists.
  apply String.eqb_eq in Heq. subst y. by apply list_elem_of_In.
Qed.

Lemma enumerate_elem {A : Type} (l : list A) (i : nat) (x : A) :
  (i, x) ∈ Py.enumerate l -> l !! i = Some x.
Proof.
  unfold Py.enumerate. intros (j & y & [= -> ->] & Hl)%elem_of_lookup_imap.
  done.
Qed.

Lemma emitted_elem {A K : Type} `{Countable K} (key : A -> K)
    (candidates : list A) (x : A) :
  x ∈ emitted key candidates -> x ∈ candidates.
Proof.
  unfold emitted. rewrite fold_dedup. simpl.
  intros Hx. eapply elem_of_sublist; [exact Hx|].
  apply first_occurrences_sublist.
Qed.

Lemma relation_candidates_elem (s : string) (t : triple) :
  t ∈ relation_candidates (PyStr s) ->
  exists (i j : nat) (subj obj : span) (rule : relation_pattern),
    i <> j /\ (span_start subj < span_start obj)%Z /\
    extract_entities_with_positions (PyStr s) !! i = Some subj /\
    extract_entities_with_positions (PyStr s) !! j = Some obj /\
    rule ∈ relation_patterns /\
    t = (span_text subj, predicate rule, span_text obj) /\
    span_type subj ∈ subject_types rule /\
    span_type obj ∈ object_types rule /\
    (_find_connecting_phrase s (span_end subj) (span_start obj)
       (connecting_words rule)).1 = true.
Proof.
  intros Ht. unfold relation_candidates in Ht.
  destruct (usable_text (PyStr s)) as [s'|] eqn:Hs.
  2:{ by apply elem_of_nil in Ht. }
  apply usable_text_str in Hs as Heq. injection Heq as <-.
  unfold pair_candidates in Ht.
  apply list_elem_of_In, in_flat_map in Ht as ([i subj] & Hi & Ht).
  apply in_flat_map in Ht as ([j obj] & Hj & Ht).
  apply list_elem_of_In, enumerate_elem in Hi.
  apply list_elem_of_In, enumerate_elem in Hj.
  destruct (i =? j)%nat eqn:Hij; [done|].
  destruct (span_start subj >=? span_start obj)%Z eqn:Hstart; [done|].
  unfold rule_candidates in Ht.
  apply in_flat_map in Ht as (rule & Hrule & Ht).
  destruct (Py.str_in (span_type subj) _ && Py.str_in (span_type obj) _)
    eqn:Htypes; [|done].
  destruct (_find_connecting_phrase _ _ _ _).1 eqn:Hfound; [|done].
  apply andb_true_iff in Htypes as [Hst Hot].
  destruct Ht as [<-|[]].
  exists i, j, subj, obj, rule. apply Nat.eqb_neq in Hij.
  repeat split; try done; try by apply str_in_elem.
  - lia.
  - by apply list_elem_of_In.
Qed.

(** X7.  Every triple of [extract_relations] joins two entities found
    in the text, the subject ending before the object starts, under a
    rule of the table that allows their types and one of whose
    connecting phrases occurs between them. *)
Theorem extract_relations_sound (s : string) (t : triple) :
  t ∈ extract_relations (PyStr s) ->
  exists (subj obj : span) (rule : relation_pattern),
    subj ∈ extract_entities_with_positions (PyStr s) /\
    obj ∈ extract_entities_with_positions (PyStr s) /\
    rule ∈ relation_patterns /\
    t = (span_text subj, predicate rule, span_text obj) /\
    span_type subj ∈ subject_types rule /\
    span_type obj ∈ object_types rule /\
    (span_end subj <= span_start obj)%Z /\
    (_find_connecting_phrase s (span_end subj) (span_start obj)
       (connecting_words rule)).1 = true.
Proof.
  rewrite extract_relations_emitted. intros Ht%emitted_elem.
  destruct (relation_candidates_elem s t Ht)
    as (i & j & subj & obj & rule & Hij & Hstart & Hi & Hj & Hrule & -> & Hst
        & Hot & Hfound).
  exists subj, obj, rule.
  pose proof (list_elem_of_lookup_2 _ _ _ Hi) as Hsubj.
  pose proof (list_elem_of_lookup_2 _ _ _ Hj) as Hobj.
  repeat split; try done.
  pose proof (extracted_span_inside s _ Hsubj) as (Hs1 & _).
  pose proof (extracted_span_inside s _ Hobj) as (Hs2 & _).
  destruct (decide (i < j)%nat) as [Hlt|Hge].
  - apply (extract_entities_with_positions_chained (PyStr s) i j); done.
  - pose proof (extract_entities_with_positions_chained (PyStr s) j i obj subj
                  ltac:(lia) Hj Hi). lia.
Qed.

Lemma extract_relations_sound_witness :
  exists (subj obj : span) (rule : relation_pattern),
    subj ∈ extract_entities_with_positions
             (PyStr "Trump announces 25% tariff on Chinese imports") /\
    obj ∈ extract_entities_with_positions
            (PyStr "Trump announces 25% tariff on Chinese imports") /\
    rule ∈ relation_patterns /\
    ("Trump", "ANNOUNCES", "25% tariff")
    = (span_text subj, predicate rule, span_text obj) /\
    span_type subj ∈ subject_types rule /\
    span_type obj ∈ object_types rule /\
    (span_end subj <= span_start obj)%Z /\
    (_find_connecting_phrase "Trump announces 25% tariff on Chinese imports"
       (span_end subj) (span_start obj) (connecting_words rule)).1 = true.
Proof.
  apply (extract_relations_sound
           "Trump announces 25% tariff on Chinese imports"
           ("Trump", "ANNOUNCES", "25% tariff")).
  vm_compute. apply list_elem_of_here.
Defined.

Lemma emitted_head {A K : Type} `{Countable K} (key : A -> K)
    (x : A) (candidates : list A) :
  exists out, emitted key (x :: candidates) = x :: out.
Proof.
  unfold emitted. rewrite fold_dedup. simpl.
  rewrite decide_False by set_solver. eauto.
Qed.

Lemma simple_candidates_elem (text : pyvalue) (t : triple) :
  t ∈ simple_candidates text ->
  exists (i j : nat) (e1 e2 : string * string),
    (i < j)%nat /\
    extract_entities text !! i = Some e1 /\
    extract_entities text !! j = Some e2 /\
    t = (e1.2, _infer_relation e1.1 e2.1, e2.2).
Proof.
  unfold simple_candidates.
  intros Ht. apply list_elem_of_In, in_flat_map in Ht as ([i e1] & Hi & Ht).
  apply in_flat_map in Ht as ([j e2] & Hj & Ht).
  apply list_elem_of_In, enumerate_elem in Hi.
  apply list_elem_of_In, enumerate_elem in Hj.
  destruct (j <=? i)%nat eqn:Hij; [done|].
  apply Nat.leb_gt in Hij. destruct Ht as [<-|[]].
  by exists i, j, e1, e2.
Qed.

Lemma simple_candidates_head (text : pyvalue) (e1 e2 : string * string)
    (l : list (string * string)) :
  extract_entities text = e1 :: e2 :: l ->
  exists rest,
    simple_candidates text = (e1.2, _infer_relation e1.1 e2.1, e2.2) :: rest.
Proof.
  unfold simple_candidates. intros ->. simpl. eauto.
Qed.

(** X8.  Whenever entity recognition finds two or more entities,
    [extract_simple_triples] returns at least one triple, the one of
    the first two entities first; every triple it returns joins an
    entity with a later one of the list through the relation inferred
    from their types, which is never the empty string. *)
Theorem extract_simple_triples_covers_pairs (text : pyvalue) :
  (forall (e1 e2 : string * string) (l : list (string * string)),
     extract_entities text = e1 :: e2 :: l ->
     exists out,
       extract_simple_triples text
       = (e1.2, _infer_relation e1.1 e2.1, e2.2) :: out) /\
  (forall t : triple,
     t ∈ extract_simple_triples text ->
     exists (i j : nat) (e1 e2 : string * string),
       (i < j)%nat /\
       extract_entities text !! i = Some e1 /\
       extract_entities text !! j = Some e2 /\
       t = (e1.2, _infer_relation e1.1 e2.1, e2.2) /\
       t.1.2 <> "").
Proof.
  rewrite extract_simple_triples_emitted. split.
  - intros e1 e2 l Hl.
    destruct (simple_candidates_head text e1 e2 l Hl) as [rest ->].
    apply emitted_head.
  - intros t Ht%emitted_elem.
    destruct (simple_candidates_elem text t Ht) as (i & j & e1 & e2 & ? & ? & ? & ->).
    exists i, j, e1, e2. repeat split; try done.
    simpl. apply infer_relation_nonempty.
Qed.

Lemma extract_simple_triples_covers_pairs_witness :
  exists out,
    extract_simple_triples repeated_mention
    = ("China", "RELATED_TO", "India") :: out.
Proof.
  apply (proj1 (extract_simple_triples_covers_pairs repeated_mention)
           ("LOCATION", "China") ("LOCATION", "India") [("LOCATION", "China")]).
  vm_compute. reflexivity.
Defined.

(** ** The graph and the log *)

Lemma has_node_names (g : MultiDiGraph) (n : string) :
  has_node g n = true <-> n ∈ node_names g.
Proof.
  unfold has_node, node_names. rewrite existsb_exists. split.
  - intros (nd & Hin & Heq). apply String.eqb_eq in Heq. subst n.
    apply list_elem_of_fmap. exists nd. split; [done|by apply list_elem_of_In].
  - intros (nd & -> & Hin)%list_elem_of_fmap. exists nd.
    split; [by apply list_elem_of_In|apply String.eqb_refl].
Qed.

Lemma node_names_add_node (n t : string) (g : MultiDiGraph) :
  node_names (add_node n t g)
  = if has_node g n then node_names g else node_names g ++ [n].
Proof.
  unfold add_node. destruct (has_node g n) eqn:Hn; unfold node_names; simpl.
  - rewrite map_map. apply map_ext_in. intros nd Hin.
    destruct (String.eqb nd.1 n) eqn:Heq; [|done].
    apply String.eqb_eq in Heq. done.
  - by rewrite map_app.
Qed.

Lemma node_names_add_node_incl (n m t : string) (g : MultiDiGraph) :
  m ∈ node_names g -> m ∈ node_names (add_node n t g).
Proof.
  rewrite node_names_add_node. destruct (has_node g n); [done|].
  intros Hm. apply elem_of_app. by left.
Qed.

Lemma NoDup_node_names_add_node (n t : string) (g : MultiDiGraph) :
  NoDup (node_names g) -> NoDup (node_names (add_node n t g)).
Proof.
  rewrite node_names_add_node. destruct (has_node g n) eqn:Hn; [done|].
  intros Hnd. apply NoDup_app. split; [done|]. split; [|apply NoDup_singleton].
  intros x Hx Hx'. apply list_elem_of_singleton in Hx'. subst x.
  apply has_node_names in Hx. congruence.
Qed.

(** [add_triple] on the graph: the two nodes, then the edge. *)
Lemma graph_add_triple (s p o : string) (st ot : option string)
    (self : KnowledgeGraph) :
  let g := add_node o (or_unknown ot) (add_node s (or_unknown st) (graph self)) in
  graph (add_triple s p o st ot self)
  = Graph (nodes g) (edges (graph self) ++
                     [Edge s o (length (parallel_edges g s o)) p]).
Proof.
  cbv zeta. unfold add_triple. simpl.
  pose proof (has_node_add_node_same s (or_unknown st) (graph self)) as Hs1.
  pose proof (has_node_add_node_same o (or_unknown ot)
                (add_node s (or_unknown st) (graph self))) as Ho2.
  pose proof (has_node_add_node_other s o (or_unknown ot) _ Hs1) as Hs2.
  unfold add_edge.
  rewrite (ensure_node_present s) by done.
  rewrite (ensure_node_present o) by done.
  by rewrite !edges_add_node.
Qed.

Lemma coherent_init : coherent init.
Proof.
  split; [done|]. split; [constructor|].
  intros e He. by apply elem_of_nil in He.
Qed.

Lemma coherent_add_triple (s p o : string) (st ot : option string)
    (self : KnowledgeGraph) :
  coherent self -> coherent (add_triple s p o st ot self).
Proof.
  intros (Hlog & Hnd & Hends). unfold coherent.
  rewrite graph_add_triple. simpl.
  assert (forall m, m ∈ node_names (graph self) ->
            m ∈ node_names (add_node o (or_unknown ot)
                              (add_node s (or_unknown st) (graph self))))
    as Hincl.
  { intros m Hm. by do 2 apply node_names_add_node_incl. }
  split; [|split].
  - rewrite map_app, Hlog. done.
  - unfold node_names at 1. simpl.
    by do 2 apply NoDup_node_names_add_node.
  - unfold node_names at 1 2. simpl.
    fold (node_names (add_node o (or_unknown ot)
                        (add_node s (or_unknown st) (graph self)))).
    intros e He. apply elem_of_app in He as [He|He].
    + destruct (Hends e He). split; by apply Hincl.
    + apply list_elem_of_singleton in He. subst e. simpl. split.
      * apply has_node_names, has_node_add_node_other, has_node_add_node_same.
      * apply has_node_names, has_node_add_node_same.
Qed.

Lemma coherent_after_calls (calls : list call) : coherent (after_calls calls).
Proof.
  induction calls as [|c calls IH] using rev_ind; [apply coherent_init|].
  rewrite after_calls_snoc. destruct c as [[[[s p] o] st] ot]. simpl.
  by apply coherent_add_triple.
Qed.

(** *** Counters *)

Lemma counter_add_lookup (k r : string) (counts : gmap string nat) :
  default 0%nat (counter_add k counts !! r)
  = (default 0%nat (counts !! r) + if decide (k = r) then 1 else 0)%nat.
Proof.
  unfold counter_add. destruct (decide (k = r)) as [->|Hne].
  - rewrite lookup_insert_eq. simpl. lia.
  - rewrite lookup_insert_ne by done. lia.
Qed.

Lemma tally_lookup {A : Type} (f : A -> string) (l : list A) (r : string)
    (counts : gmap string nat) :
  default 0%nat (fold_left (fun m x => counter_add (f x) m) l counts !! r)
  = (default 0%nat (counts !! r) + length (filter (fun x => f x = r) l))%nat.
Proof.
  revert counts. induction l as [|x l IH]; intros counts; simpl; [lia|].
  rewrite IH, counter_add_lookup, filter_cons.
  destruct (decide (f x = r)); simpl; lia.
Qed.

Lemma tally_dom {A : Type} (f : A -> string) (l : list A)
    (counts : gmap string nat) :
  dom (fold_left (fun m x => counter_add (f x) m) l counts)
  = dom counts ∪ list_to_set (map f l).
Proof.
  revert counts. induction l as [|x l IH]; intros counts; simpl.
  - set_solver.
  - rewrite IH. unfold counter_add. rewrite dom_insert_L. set_solver.
Qed.

Lemma all_relations_fold (es : list edge) (acc : gset string) :
  fold_left (fun relations e => relations ∪ {[ edge_relation e ]}) es acc
  = acc ∪ list_to_set (map edge_relation es).
Proof.
  revert acc. induction es as [|e es IH]; intros acc; simpl.
  - set_solver.
  - rewrite IH. set_solver.
Qed.

Lemma occurrences_of_edges (r : string) (es : list edge) :
  length (filter (fun e => edge_relation e = r) es)
  = length (filter (fun t : KnowledgeGraph.triple => t.1.2 = r)
              (map edge_triple es)).
Proof.
  induction es as [|e es IH]; [done|].
  rewrite map_cons, !filter_cons. unfold edge_triple at 1. simpl.
  destruct (decide (edge_relation e = r)); simpl; by rewrite IH.
Qed.

(** *** Degrees *)

Lemma total_degree_view (f : MultiDiGraph -> string -> Z) (g : MultiDiGraph) :
  total (degree_view f g) = fold_right Z.add 0%Z (map (f g) (node_names g)).
Proof.
  unfold total, degree_view, node_names. by rewrite !map_map.
Qed.

Lemma sum_indicator (x : string) (names : list string) :
  NoDup names -> x ∈ names ->
  fold_right Z.add 0%Z
    (map (fun n => if String.eqb x n then 1%Z else 0%Z) names) = 1%Z.
Proof.
  induction 1 as [|n names Hn Hnd IH]; intros Hx.
  { by apply elem_of_nil in Hx. }
  simpl. destruct (String.eqb x n) eqn:Heq.
  - apply String.eqb_eq in Heq. subst n.
    assert (fold_right Z.add 0%Z
              (map (fun n => if String.eqb x n then 1%Z else 0%Z) names) = 0%Z)
      as ->; [|done].
    clear IH Hnd Hx. induction names as [|m names IH]; [done|].
    apply not_elem_of_cons in Hn as [Hne Hn]. simpl.
    apply String.eqb_neq in Hne. rewrite Hne. by rewrite IH.
  - apply String.eqb_neq in Heq.
    apply elem_of_cons in Hx as [Hx|Hx]; [done|]. by rewrite IH.
Qed.

(** Counting the edges by one of their ends reaches every edge once. *)
Lemma sum_by_end (key : edge -> string) (names : list string) (es : list edge) :
  NoDup names -> (forall e, e ∈ es -> key e ∈ names) ->
  fold_right Z.add 0%Z
    (map (fun n => Z.of_nat (length (filter (fun e => String.eqb (key e) n) es)))
         names)
  = Z.of_nat (length es).
Proof.
  intros Hnd. induction es as [|e es IH]; intros Hin.
  - simpl. clear. induction names as [|n names IH]; [done|]. simpl. by rewrite IH.
  - assert (forall n,
              Z.of_nat (length (filter (fun e0 => String.eqb (key e0) n) (e :: es)))
              = ((if String.eqb (key e) n then 1 else 0)
                 + Z.of_nat (length (filter (fun e0 => String.eqb (key e0) n) es)))%Z)
      as Hstep.
    { intros n. rewrite filter_cons.
      destruct (String.eqb (key e) n); simpl; lia. }
    erewrite map_ext; [|exact Hstep].
    assert (forall (a b : string -> Z) (l : list string),
              fold_right Z.add 0%Z (map (fun n => (a n + b n)%Z) l)
              = (fold_right Z.add 0%Z (map a l)
                 + fold_right Z.add 0%Z (map b l))%Z) as Hsplit.
    { intros a b l. induction l as [|n l IHl]; simpl; lia. }
    rewrite Hsplit, IH, sum_indicator; [simpl; lia|done| |].
    + apply Hin. by left.
    + intros e0 He0. apply Hin. by right.
Qed.

(** X10.  After any sequence of [add_triple] calls on a fresh store the
    out-degrees of the nodes add up to the number of edges, and so do
    the in-degrees; the degrees add up to twice that number. *)
Theorem degrees_add_up (calls : list call) :
  let g := graph (after_calls calls) in
  total (degree_view out_degree g) = Z.of_nat (number_of_edges g) /\
  total (degree_view in_degree g) = Z.of_nat (number_of_edges g) /\
  total (degree_view degree g) = (2 * Z.of_nat (number_of_edges g))%Z.
Proof.
  cbv zeta. destruct (coherent_after_calls calls) as (_ & Hnd & Hends).
  set (g := graph (after_calls calls)) in *.
  assert (total (degree_view out_degree g) = Z.of_nat (number_of_edges g))
    as Hout.
  { rewrite total_degree_view. unfold out_degree, number_of_edges.
    apply (sum_by_end edge_source); [done|]. intros e He. by apply Hends. }
  assert (total (degree_view in_degree g) = Z.of_nat (number_of_edges g))
    as Hin.
  { rewrite total_degree_view. unfold in_degree, number_of_edges.
    apply (sum_by_end edge_target); [done|]. intros e He. by apply Hends. }
  split; [done|]. split; [done|].
  rewrite total_degree_view in *. unfold degree.
  assert (forall (a b : string -> Z) (l : list string),
            fold_right Z.add 0%Z (map (fun n => (a n + b n)%Z) l)
            = (fold_right Z.add 0%Z (map a l)
               + fold_right Z.add 0%Z (map b l))%Z) as Hsplit.
  { intros a b l. induction l as [|n l IHl]; simpl; lia. }
  rewrite (Hsplit (in_degree g) (out_degree g)). lia.
Qed.

(** *** Queries *)

Lemma differs_false (filter_ : option string) (s : string) :
  differs filter_ s = false <-> (forall x, filter_ = Some x -> s = x).
Proof.
  destruct filter_ as [y|]; simpl.
  - rewrite negb_false_iff, String.eqb_eq. split; [by intros -> x [= ->]|eauto].
  - split; [by intros _ x|done].
Qed.

Lemma query_triples_fold (subject predicate obj : option string)
    (log acc : list KnowledgeGraph.triple) :
  fold_left
    (fun results '(s, p, o) =>
       if differs subject s then results
       else if differs predicate p then results
       else if differs obj o then results
       else results ++ [(s, p, o)])
    log acc
  = acc ++ List.filter
             (fun t : KnowledgeGraph.triple =>
                negb (differs subject t.1.1) && negb (differs predicate t.1.2)
                && negb (differs obj t.2))
             log.
Proof.
  revert acc. induction log as [|[[s p] o] log IH]; intros acc; simpl.
  - by rewrite app_nil_r.
  - rewrite IH.
    destruct (differs subject s); [done|].
    destruct (differs predicate p); [done|].
    destruct (differs obj o); [done|].
    simpl. by rewrite <- app_assoc.
Qed.

Lemma query_triples_filter (subject predicate obj : option string)
    (self : KnowledgeGraph) :
  query_triples subject predicate obj self
  = List.filter
      (fun t : KnowledgeGraph.triple =>
         negb (differs subject t.1.1) && negb (differs predicate t.1.2)
         && negb (differs obj t.2))
      (triples self).
Proof. unfold query_triples. by rewrite query_triples_fold. Qed.

Lemma list_filter_sublist {A} (f : A -> bool) (l : list A) :
  sublist (List.filter f l) l.
Proof.
  induction l as [|x l IH]; simpl; [constructor|].
  destruct (f x); by constructor.
Qed.

(** X11.  [query_triples] returns, in the order of the log, exactly the
    logged triples that agree with every filter that is not [None]; with
    three wildcards it returns the whole log, and right after
    [add_triple s p o] the query for that very triple has one answer
    more than before. *)
Theorem query_triples_selects (subject predicate obj : option string)
    (self : KnowledgeGraph) :
  sublist (query_triples subject predicate obj self) (triples self) /\
  (forall t, t ∈ query_triples subject predicate obj self <->
             t ∈ triples self /\ passes subject predicate obj t) /\
  query_triples None None None self = triples self /\
  (forall s p o subject_type object_type,
     query_triples (Some s) (Some p) (Some o)
       (add_triple s p o subject_type object_type self)
     = query_triples (Some s) (Some p) (Some o) self ++ [(s, p, o)]).
Proof.
  split; [|split; [|split]].
  - rewrite query_triples_filter. apply list_filter_sublist.
  - intros t. rewrite query_triples_filter, list_elem_of_In, filter_In,
      <- list_elem_of_In, !andb_true_iff, !negb_true_iff.
    unfold passes. rewrite !differs_false. tauto.
  - rewrite query_triples_filter. simpl.
    induction (triples self) as [|t l IH]; simpl; [done|]. by rewrite IH.
  - intros s p o subject_type object_type.
    rewrite !query_triples_filter, add_triple_log, List.filter_app. simpl.
    by rewrite !String.eqb_refl.
Qed.

(** *** Neighbours *)

Lemma str_in_true (x : string) (xs : list string) :
  Py.str_in x xs = true <-> x ∈ xs.
Proof.
  unfold Py.str_in. rewrite existsb_exists, list_elem_of_In. split.
  - intros (y & Hy & Heq). apply String.eqb_eq in Heq. by subst.
  - intros Hx. exists x. split; [done|apply String.eqb_refl].
Qed.

Lemma first_seen_fold (l acc : list string) :
  let out := fold_left (fun seen x => if Py.str_in x seen then seen else seen ++ [x])
                       l acc in
  (forall x, x ∈ out <-> x ∈ acc \/ x ∈ l) /\ (NoDup acc -> NoDup out).
Proof.
  cbv zeta. revert acc. induction l as [|y l IH]; intros acc; simpl.
  - split; [|done]. intros x. rewrite elem_of_nil. tauto.
  - destruct (Py.str_in y acc) eqn:Hy.
    + apply str_in_true in Hy. destruct (IH acc) as [Hin Hnd].
      split; [|done]. intros x. rewrite Hin, elem_of_cons.
      split; [tauto|]. intros [?|[->|?]]; tauto.
    + assert (y ∉ acc) as Hny.
      { intros Hin. apply str_in_true in Hin. congruence. }
      destruct (IH (acc ++ [y])) as [Hin Hnd].
      split.
      * intros x. rewrite Hin, elem_of_app, !elem_of_cons, elem_of_nil.
        tauto.
      * intros Hacc. apply Hnd. apply NoDup_app. split; [done|].
        split; [|apply NoDup_singleton].
        intros x Hx Hx'. apply list_elem_of_singleton in Hx'. by subst.
Qed.

Lemma first_seen_elem (l : list string) (x : string) :
  x ∈ first_seen l <-> x ∈ l.
Proof.
  unfold first_seen. destruct (first_seen_fold l []) as [Hin _].
  rewrite Hin, elem_of_nil. tauto.
Qed.

Lemma first_seen_NoDup (l : list string) : NoDup (first_seen l).
Proof.
  unfold first_seen. destruct (first_seen_fold l []) as [_ Hnd].
  apply Hnd. constructor.
Qed.

(** The entries one direction contributes. *)
Lemma neighbors_fold (direction : string) (edges_of : string -> list edge)
    (vs : list string) (acc : list (string * string * string)) :
  fold_left
    (fun neighbors neighbor =>
       fold_left
         (fun neighbors edge_data =>
            neighbors ++ [(edge_relation edge_data, neighbor, direction)])
         (edges_of neighbor) neighbors)
    vs acc
  = acc ++ flat_map
             (fun neighbor =>
                map (fun edge_data =>
                       (edge_relation edge_data, neighbor, direction))
                    (edges_of neighbor))
             vs.
Proof.
  apply fold_left_app_flat_map. intros acc' v. apply fold_left_snoc_map.
Qed.

Lemma filter_both_ends (u v : string) (es : list edge) :
  filter (fun e => String.eqb (edge_target e) v)
         (filter (fun e => String.eqb (edge_source e) u) es)
  = filter (fun e => String.eqb (edge_source e) u && String.eqb (edge_target e) v)
           es.
Proof.
  induction es as [|e es IH]; [done|].
  rewrite !filter_cons.
  destruct (String.eqb (edge_source e) u); simpl; [|done].
  rewrite filter_cons.
  destruct (String.eqb (edge_target e) v); simpl; by rewrite IH.
Qed.

Lemma filter_both_ends' (u v : string) (es : list edge) :
  filter (fun e => String.eqb (edge_source e) v)
         (filter (fun e => String.eqb (edge_target e) u) es)
  = filter (fun e => String.eqb (edge_source e) v && String.eqb (edge_target e) u)
           es.
Proof.
  induction es as [|e es IH]; [done|].
  rewrite !filter_cons.
  destruct (String.eqb (edge_target e) u); simpl.
  - rewrite filter_cons.
    destruct (String.eqb (edge_source e) v); simpl; by rewrite IH.
  - destruct (String.eqb (edge_source e) v); simpl; by rewrite IH.
Qed.

Lemma length_flat_map_sum {A B : Type} (f : A -> list B) (l : list A) :
  Z.of_nat (length (flat_map f l))
  = fold_right Z.add 0%Z (map (fun x => Z.of_nat (length (f x))) l).
Proof.
  induction l as [|x l IH]; [done|]. simpl. rewrite length_app. lia.
Qed.

Lemma elem_of_filter_eqb (key : edge -> string) (n : string) (es : list edge)
    (e : edge) :
  e ∈ filter (fun e => String.eqb (key e) n) es <-> key e = n /\ e ∈ es.
Proof.
  rewrite list_elem_of_filter, Is_true_true, String.eqb_eq. tauto.
Qed.

Lemma out_neighbors_length (g : MultiDiGraph) (u : string) :
  Z.of_nat (length (flat_map
              (fun v => map (fun e => (edge_relation e, v, "out"))
                            (parallel_edges g u v))
              (successors g u)))
  = out_degree g u.
Proof.
  rewrite length_flat_map_sum. unfold out_degree, successors, parallel_edges.
  set (es := filter (fun e => String.eqb (edge_source e) u) (edges g)).
  rewrite <- (sum_by_end edge_target (first_seen (map edge_target es)) es).
  - f_equal. apply map_ext. intros v. rewrite length_map.
    unfold es. by rewrite filter_both_ends.
  - apply first_seen_NoDup.
  - intros e He. apply first_seen_elem. apply list_elem_of_fmap. by exists e.
Qed.

Lemma in_neighbors_length (g : MultiDiGraph) (u : string) :
  Z.of_nat (length (flat_map
              (fun v => map (fun e => (edge_relation e, v, "in"))
                            (parallel_edges g v u))
              (predecessors g u)))
  = in_degree g u.
Proof.
  rewrite length_flat_map_sum. unfold in_degree, predecessors, parallel_edges.
  set (es := filter (fun e => String.eqb (edge_target e) u) (edges g)).
  rewrite <- (sum_by_end edge_source (first_seen (map edge_source es)) es).
  - f_equal. apply map_ext. intros v. rewrite length_map.
    unfold es. by rewrite filter_both_ends'.
  - apply first_seen_NoDup.
  - intros e He. apply first_seen_elem. apply list_elem_of_fmap. by exists e.
Qed.

Lemma elem_of_parallel_edges (g : MultiDiGraph) (u v : string) (e : edge) :
  e ∈ parallel_edges g u v
  <-> edge_source e = u /\ edge_target e = v /\ e ∈ edges g.
Proof.
  unfold parallel_edges.
  rewrite list_elem_of_filter, andb_True, !Is_true_true, !String.eqb_eq. tauto.
Qed.

Lemma out_neighbors_elem (g : MultiDiGraph) (u r v d : string) :
  (r, v, d) ∈ flat_map
                (fun v => map (fun e => (edge_relation e, v, d))
                              (parallel_edges g u v))
                (successors g u)
  <-> (u, r, v) ∈ map edge_triple (edges g).
Proof.
  rewrite list_elem_of_In, in_flat_map. setoid_rewrite <- list_elem_of_In.
  setoid_rewrite list_elem_of_fmap. split.
  - intros (v' & _ & e & [= Hr Hv] & He).
    apply elem_of_parallel_edges in He as (Hs & Ht & He).
    exists e. split; [|done]. unfold edge_triple. congruence.
  - intros (e & [= -> -> ->] & He). exists (edge_target e). split.
    + apply first_seen_elem. apply list_elem_of_fmap. exists e. split; [done|].
      by apply elem_of_filter_eqb.
    + exists e. split; [done|]. by apply elem_of_parallel_edges.
Qed.

Lemma in_neighbors_elem (g : MultiDiGraph) (u r v d : string) :
  (r, v, d) ∈ flat_map
                (fun v => map (fun e => (edge_relation e, v, d))
                              (parallel_edges g v u))
                (predecessors g u)
  <-> (v, r, u) ∈ map edge_triple (edges g).
Proof.
  rewrite list_elem_of_In, in_flat_map. setoid_rewrite <- list_elem_of_In.
  setoid_rewrite list_elem_of_fmap. split.
  - intros (v' & _ & e & [= Hr Hv] & He).
    apply elem_of_parallel_edges in He as (Hs & Ht & He).
    exists e. split; [|done]. unfold edge_triple. congruence.
  - intros (e & [= -> -> ->] & He). exists (edge_source e). split.
    + apply first_seen_elem. apply list_elem_of_fmap. exists e. split; [done|].
      by apply elem_of_filter_eqb.
    + exists e. split; [done|]. by apply elem_of_parallel_edges.
Qed.

Lemma get_neighbors_present (entity direction : string) (self : KnowledgeGraph) :
  has_node (graph self) entity = true ->
  get_neighbors entity direction self
  = (if Py.str_in direction ["out"; "both"] then
       flat_map (fun v => map (fun e => (edge_relation e, v, "out"))
                              (parallel_edges (graph self) entity v))
                (successors (graph self) entity)
     else [])
    ++ (if Py.str_in direction ["in"; "both"] then
          flat_map (fun v => map (fun e => (edge_relation e, v, "in"))
                                 (parallel_edges (graph self) v entity))
                   (predecessors (graph self) entity)
        else []).
Proof.
  intros Hnode. unfold get_neighbors. rewrite Hnode. cbv zeta. simpl negb.
  cbv iota.
  destruct (Py.str_in direction ["out"; "both"]),
           (Py.str_in direction ["in"; "both"]);
    rewrite ?neighbors_fold, ?app_nil_r; done.
Qed.

(** X12.  On a store built by [add_triple] calls, [get_neighbors]
    lists the edges at the entity: an entry [(r, v, 'out')] for every
    logged triple [(entity, r, v)] and only for those, an entry
    [(r, v, 'in')] for every logged [(v, r, entity)]; ['both'] is the
    ['out'] list followed by the ['in'] list, and it has as many entries
    as the degree of the entity.  An entity that is not a node, and a
    direction other than the three, give the empty list. *)
Theorem get_neighbors_lists_the_edges (calls : list call) (entity : string) :
  let self := after_calls calls in
  (forall r v, (r, v, "out") ∈ get_neighbors entity "out" self
               <-> (entity, r, v) ∈ triples self) /\
  (forall r v, (r, v, "in") ∈ get_neighbors entity "in" self
               <-> (v, r, entity) ∈ triples self) /\
  get_neighbors entity "both" self
  = get_neighbors entity "out" self ++ get_neighbors entity "in" self /\
  Z.of_nat (length (get_neighbors entity "both" self))
  = degree (graph self) entity /\
  (has_node (graph self) entity = false ->
   forall direction, get_neighbors entity direction self = []) /\
  (forall direction,
     direction ∉ ["in"; "out"; "both"] ->
     get_neighbors entity direction self = []).
Proof.
  cbv zeta. destruct (coherent_after_calls calls) as (Hlog & Hnd & Hends).
  set (self := after_calls calls) in *.
  assert (has_node (graph self) entity = false ->
          forall direction, get_neighbors entity direction self = []) as Habsent.
  { intros Hnode direction. unfold get_neighbors. by rewrite Hnode. }
  assert (has_node (graph self) entity = false ->
          forall e, e ∈ edges (graph self) ->
                    edge_source e <> entity /\ edge_target e <> entity)
    as Hnone.
  { intros Hnode e He. destruct (Hends e He) as [Hs Ht].
    split; intros Heq; rewrite Heq in *;
      [apply has_node_names in Hs|apply has_node_names in Ht]; congruence. }
  destruct (has_node (graph self) entity) eqn:Hnode.
  - rewrite !(get_neighbors_present _ _ _ Hnode). simpl.
    rewrite !app_nil_r. rewrite <- Hlog. split; [|split; [|split; [|split; [|split]]]].
    + intros r v. apply out_neighbors_elem.
    + intros r v. apply in_neighbors_elem.
    + done.
    + rewrite length_app, Nat2Z.inj_add, out_neighbors_length,
        in_neighbors_length. unfold degree. lia.
    + done.
    + intros direction Hdir. rewrite (get_neighbors_present _ _ _ Hnode).
      assert (Py.str_in direction ["out"; "both"] = false) as ->.
      { apply not_true_is_false. intros Hin. apply str_in_true in Hin.
        apply Hdir. set_solver. }
      assert (Py.str_in direction ["in"; "both"] = false) as ->.
      { apply not_true_is_false. intros Hin. apply str_in_true in Hin.
        apply Hdir. set_solver. }
      done.
  - rewrite !Habsent by done. rewrite <- Hlog.
    split; [|split; [|split; [|split; [|split]]]].
    + intros r v. rewrite elem_of_nil, list_elem_of_fmap. split; [done|].
      intros (e & [= Hs _ _] & He). by destruct (Hnone eq_refl e He).
    + intros r v. rewrite elem_of_nil, list_elem_of_fmap. split; [done|].
      intros (e & [= _ _ Ht] & He). by destruct (Hnone eq_refl e He).
    + done.
    + unfold degree, in_degree, out_degree. simpl.
      assert (forall key : edge -> string,
                (forall e, e ∈ edges (graph self) -> key e <> entity) ->
                filter (fun e => String.eqb (key e) entity) (edges (graph self))
                = []) as Hempty.
      { intros key Hkey.
        destruct (filter (fun e => String.eqb (key e) entity)
                         (edges (graph self))) as [|e es] eqn:Hf; [done|].
        assert (e ∈ filter (fun e => String.eqb (key e) entity)
                           (edges (graph self))) as He
          by (rewrite Hf; by left).
        apply elem_of_filter_eqb in He as [Heq He]. by destruct (Hkey e He). }
      rewrite !Hempty; [done| |].
      * intros e He. by destruct (Hnone eq_refl e He).
      * intros e He. by destruct (Hnone eq_refl e He).
    + exact Habsent.
    + intros direction _. by apply Habsent.
Qed.

(** *** The walk of the edges *)

Lemma flat_map_app_permutation {A B : Type} (a b : A -> list B) (l : list A) :
  flat_map (fun x => a x ++ b x) l ≡ₚ flat_map a l ++ flat_map b l.
Proof.
  induction l as [|x l IH]; [done|]. cbn [flat_map].
  rewrite IH, <- !app_assoc. apply Permutation_app_head.
  rewrite !app_assoc. apply Permutation_app_tail, Permutation_app_comm.
Qed.

Lemma flat_map_permutation_ext {A B : Type} (f g : A -> list B) (l : list A) :
  (forall x, x ∈ l -> f x ≡ₚ g x) -> flat_map f l ≡ₚ flat_map g l.
Proof.
  induction l as [|x l IH]; intros Hfg; [done|]. cbn [flat_map].
  rewrite (Hfg x) by by left.
  rewrite IH; [done|]. intros y Hy. apply Hfg. by right.
Qed.

Lemma flat_map_indicator {A : Type} (x : A) (k : string) (ks : list string) :
  NoDup ks -> k ∈ ks ->
  flat_map (fun k' => if String.eqb k k' then [x] else []) ks = [x].
Proof.
  induction 1 as [|k0 ks Hk0 Hnd IH]; intros Hk.
  { by apply elem_of_nil in Hk. }
  cbn [flat_map]. destruct (String.eqb k k0) eqn:Heq.
  - apply String.eqb_eq in Heq. subst k0.
    assert (flat_map (fun k' => if String.eqb k k' then [x] else []) ks = [])
      as ->; [|done].
    clear IH Hnd Hk. induction ks as [|k1 ks IH]; [done|].
    apply not_elem_of_cons in Hk0 as [Hne Hk0]. cbn [flat_map].
    apply String.eqb_neq in Hne. rewrite Hne. by rewrite IH.
  - apply String.eqb_neq in Heq.
    apply elem_of_cons in Hk as [Hk|Hk]; [done|]. by rewrite IH.
Qed.

(** Walking a list group by group, one group for each key, reaches
    every element once. *)
Lemma group_permutation {A : Type} (key : A -> string) (ks : list string)
    (l : list A) :
  NoDup ks -> (forall x, x ∈ l -> key x ∈ ks) ->
  flat_map (fun k => filter (fun x => String.eqb (key x) k) l) ks ≡ₚ l.
Proof.
  intros Hnd. induction l as [|x l IH]; intros Hin.
  - clear. induction ks as [|k ks IH]; [done|]. by cbn [flat_map].
  - rewrite (flat_map_permutation_ext _
               (fun k => (if String.eqb (key x) k then [x] else [])
                         ++ filter (fun y => String.eqb (key y) k) l)).
    2:{ intros k _. rewrite filter_cons.
        by destruct (String.eqb (key x) k). }
    rewrite flat_map_app_permutation, flat_map_indicator; [| done |].
    + cbn [app]. constructor. apply IH. intros y Hy. apply Hin. by right.
    + apply Hin. by left.
Qed.

(** The walk of [graph.edges] is a rearrangement of the edges in the
    order in which they were added. *)
Lemma edges_view_permutation (self : KnowledgeGraph) :
  coherent self -> edges_view (graph self) ≡ₚ edges (graph self).
Proof.
  intros (_ & Hnd & Hends). unfold edges_view.
  rewrite (flat_map_permutation_ext _
             (fun u => filter (fun e => String.eqb (edge_source e) u)
                              (edges (graph self)))).
  - apply group_permutation; [done|]. intros e He. by apply Hends.
  - intros u _. unfold successors, parallel_edges.
    rewrite (flat_map_permutation_ext _
               (fun v => filter (fun e => String.eqb (edge_target e) v)
                           (filter (fun e => String.eqb (edge_source e) u)
                                   (edges (graph self))))).
    + apply group_permutation; [apply first_seen_NoDup|].
      intros e He. apply first_seen_elem, list_elem_of_fmap. by exists e.
    + intros v _. by rewrite filter_both_ends.
Qed.

(** X9.  After any sequence of [add_triple] calls on a fresh store the
    edges that [graph.edges] walks are the triples of the log, each as
    often as it was logged, in an order of their own;
    [get_all_relations] is the set of the predicates of the log,
    [get_relation_distribution] counts how often each of them is in the
    log, and its keys are [get_all_relations]. *)
Theorem graph_mirrors_log (calls : list call) :
  let self := after_calls calls in
  map edge_triple (edges_view (graph self)) ≡ₚ triples self /\
  get_all_relations self
  = list_to_set (map (fun t : KnowledgeGraph.triple => t.1.2) (triples self)) /\
  (forall r : string,
     default 0%nat (get_relation_distribution self !! r)
     = occurrences_of r (triples self)) /\
  dom (get_relation_distribution self) = get_all_relations self.
Proof.
  cbv zeta. pose proof (coherent_after_calls calls) as Hcoh.
  destruct Hcoh as (Hlog & Hrest).
  assert (map edge_relation (edges (graph (after_calls calls)))
          = map (fun t : KnowledgeGraph.triple => t.1.2)
                (triples (after_calls calls))) as Hrel.
  { rewrite <- Hlog, map_map. done. }
  split; [|split; [|split]].
  - rewrite <- Hlog. apply Permutation_map.
    apply edges_view_permutation. by split.
  - unfold get_all_relations. rewrite all_relations_fold, Hrel. set_solver.
  - intros r. unfold get_relation_distribution, occurrences_of.
    rewrite tally_lookup, lookup_empty. simpl.
    rewrite occurrences_of_edges. by rewrite Hlog.
  - unfold get_relation_distribution, get_all_relations.
    rewrite tally_dom, all_relations_fold. set_solver.
Qed.

(** *** Ranking *)

Lemma py_insert_sorted_permutation {A : Type} (le : A -> A -> bool) (x : A)
    (l : list A) :
  Py.insert_sorted le x l ≡ₚ x :: l.
Proof.
  induction l as [|y l IH]; simpl; [done|].
  destruct (le x y); [done|]. rewrite IH. apply perm_swap.
Qed.

Lemma py_sorted_permutation {A : Type} (le : A -> A -> bool) (l : list A) :
  Py.sorted le l ≡ₚ l.
Proof.
  induction l as [|x l IH]; [done|].
  change (Py.sorted le (x :: l)) with (Py.insert_sorted le x (Py.sorted le l)).
  by rewrite py_insert_sorted_permutation, IH.
Qed.

Lemma py_sorted_map {A B : Type} (f : A -> B) (le : A -> A -> bool)
    (le' : B -> B -> bool) (l : list A) :
  (forall a b, le' (f a) (f b) = le a b) ->
  Py.sorted le' (map f l) = map f (Py.sorted le l).
Proof.
  intros Hle. induction l as [|x l IH]; [done|].
  rewrite map_cons.
  change (Py.sorted le' (f x :: map f l))
    with (Py.insert_sorted le' (f x) (Py.sorted le' (map f l))).
  change (Py.sorted le (x :: l)) with (Py.insert_sorted le x (Py.sorted le l)).
  rewrite IH. generalize (Py.sorted le l). clear IH. intros k.
  induction k as [|y k IHk]; simpl; [done|].
  rewrite Hle. destruct (le x y); simpl; [done|]. by rewrite IHk.
Qed.

Lemma insert_sorted_ranked (x : string * Z) (l : list (string * Z)) :
  ranked l ->
  ranked (Py.insert_sorted (fun a b => (b.2 <=? a.2)%Z) x l).
Proof.
  unfold ranked. induction 1 as [|z l Hl IH Hz]; simpl.
  - repeat constructor.
  - destruct (z.2 <=? x.2)%Z eqn:Hzx.
    + apply Z.leb_le in Hzx. constructor; [by constructor|].
      constructor; [done|].
      eapply Forall_impl; [exact Hz|]. intros y Hy. simpl in *. lia.
    + apply Z.leb_gt in Hzx. constructor; [done|].
      apply Forall_forall. intros y Hy.
      rewrite py_insert_sorted_permutation in Hy.
      apply elem_of_cons in Hy as [->|Hy]; [lia|].
      rewrite Forall_forall in Hz. by apply Hz.
Qed.

Lemma sorted_ranked (l : list (string * Z)) :
  ranked (Py.sorted (fun a b => (b.2 <=? a.2)%Z) l).
Proof.
  induction l as [|x l IH]; [constructor|].
  change (Py.sorted (fun a b : string * Z => (b.2 <=? a.2)%Z) (x :: l))
    with (Py.insert_sorted (fun a b : string * Z => (b.2 <=? a.2)%Z) x
            (Py.sorted (fun a b : string * Z => (b.2 <=? a.2)%Z) l)).
  by apply insert_sorted_ranked.
Qed.

Lemma strongly_sorted_app_elem {A : Type} (R : A -> A -> Prop)
    (l1 l2 : list A) (x1 x2 : A) :
  StronglySorted R (l1 ++ l2) -> x1 ∈ l1 -> x2 ∈ l2 -> R x1 x2.
Proof.
  induction l1 as [|y l1 IH]; simpl; intros Hs H1 H2.
  { by apply elem_of_nil in H1. }
  apply StronglySorted_inv in Hs as [Hs Hy].
  apply elem_of_cons in H1 as [->|H1]; [|by apply IH].
  rewrite Forall_forall in Hy. apply Hy. apply elem_of_app. by right.
Qed.

(** X13.  For the metrics ['degree'], ['in_degree'] and ['out_degree']
    and [n >= 0], [get_top_entities] returns the first [n] entries of a
    ranking of all nodes: a rearrangement of the degree view in which
    no score is above one before it.  So it returns [min n
    (number of nodes)] entries, and no node left out has a higher
    score than a node returned. *)
Theorem get_top_entities_ranks_by_degree {float : Type}
    (float_of_int : Z -> float) (float_le : float -> float -> bool)
    (pagerank betweenness_centrality : MultiDiGraph -> list (string * float))
    (n : Z) (metric : string) (view : MultiDiGraph -> string -> Z)
    (self : KnowledgeGraph) :
  (metric, view) ∈ degree_metrics -> (0 <= n)%Z ->
  exists ranking : list (string * Z),
    ranking ≡ₚ degree_view view (graph self) /\
    ranked ranking /\
    get_top_entities float_of_int float_le pagerank betweenness_centrality
      n metric self
    = Return (int_scores (firstn (Z.to_nat n) ranking)) /\
    length (firstn (Z.to_nat n) ranking)
    = Nat.min (Z.to_nat n) (number_of_nodes (graph self)) /\
    (forall a b : string * Z,
       a ∈ firstn (Z.to_nat n) ranking -> b ∈ skipn (Z.to_nat n) ranking ->
       (b.2 <= a.2)%Z).
Proof.
  intros Hmetric Hn.
  set (ranking := Py.sorted (fun a b : string * Z => (b.2 <=? a.2)%Z)
                    (degree_view view (graph self))).
  exists ranking.
  assert (ranking ≡ₚ degree_view view (graph self)) as Hperm
    by apply py_sorted_permutation.
  assert (ranked ranking) as Hranked by apply sorted_ranked.
  split; [done|]. split; [done|]. split; [|split].
  - unfold get_top_entities.
    destruct (number_of_nodes (graph self) =? 0)%nat eqn:Hzero.
    { apply Nat.eqb_eq in Hzero. unfold number_of_nodes in Hzero.
      apply length_zero_iff_nil in Hzero.
      unfold ranking, degree_view. rewrite Hzero. simpl.
      by rewrite firstn_nil. }
    assert (forall scores : list (string * Z),
              @take (string * score) n
                (Py.sorted (fun a b => score_le float_of_int float_le b.2 a.2)
                   (int_scores scores))
              = int_scores
                  (firstn (Z.to_nat n)
                     (Py.sorted (fun a b : string * Z => (b.2 <=? a.2)%Z) scores)))
      as Hcut.
    { intros scores. unfold take.
      assert ((n <? 0)%Z = false) as -> by lia.
      unfold int_scores.
      rewrite (py_sorted_map (fun '(name, d) => (name, IntScore d))
                 (fun a b : string * Z => (b.2 <=? a.2)%Z)).
      - by rewrite firstn_map.
      - by intros [a1 a2] [b1 b2]. }
    unfold degree_metrics in Hmetric.
    rewrite !elem_of_cons, elem_of_nil in Hmetric.
    destruct Hmetric as [[= -> ->]|[[= -> ->]|[[= -> ->]|[]]]]; simpl;
      by rewrite Hcut.
  - rewrite length_firstn, Hperm. unfold degree_view, number_of_nodes.
    by rewrite length_map.
  - intros a b Ha Hb. unfold ranked in Hranked.
    rewrite <- (firstn_skipn (Z.to_nat n) ranking) in Hranked.
    pose proof (strongly_sorted_app_elem _ _ _ a b Hranked Ha Hb) as Hle.
    exact Hle.
Qed.

(** X13 on a store in which the object has the most edges. *)
Lemma get_top_entities_ranks_by_degree_witness :
  exists ranking : list (string * Z),
    ranking ≡ₚ degree_view in_degree
                 (graph (after_calls [("A", "R", "B", None, None);
                                      ("C", "R", "B", None, None)])) /\
    ranked ranking /\
    get_top_entities (fun _ : Z => tt) (fun _ _ : unit => true)
      (fun _ => []) (fun _ => []) 1%Z "in_degree"
      (after_calls [("A", "R", "B", None, None); ("C", "R", "B", None, None)])
    = Return (int_scores (firstn (Z.to_nat 1) ranking)) /\
    length (firstn (Z.to_nat 1) ranking)
    = Nat.min (Z.to_nat 1)
        (number_of_nodes
           (graph (after_calls [("A", "R", "B", None, None);
                                ("C", "R", "B", None, None)]))) /\
    (forall a b : string * Z,
       a ∈ firstn (Z.to_nat 1) ranking -> b ∈ skipn (Z.to_nat 1) ranking ->
       (b.2 <= a.2)%Z).
Proof.
  apply (get_top_entities_ranks_by_degree (fun _ : Z => tt)
           (fun _ _ : unit => true) (fun _ => []) (fun _ => []) 1%Z
           "in_degree" in_degree
           (after_calls [("A", "R", "B", None, None);
                         ("C", "R", "B", None, None)])).
  - unfold degree_metrics. right. left.
  - lia.
Defined.

(** ** Totals of counters *)

Lemma count_total_counter_add (k : string) (counts : gmap string nat) :
  count_total (counter_add k counts) = S (count_total counts).
Proof.
  unfold count_total, counter_add.
  assert (forall (j1 j2 : string) (z1 z2 y : nat),
            (z1 + (z2 + y) = z2 + (z1 + y))%nat) as Hcomm by (intros; lia).
  destruct (counts !! k) as [v|] eqn:Hk; simpl.
  - rewrite <- insert_delete_eq.
    rewrite map_fold_insert_L; [|by intros; apply Hcomm|by apply lookup_delete_eq].
    rewrite (map_fold_delete_L _ _ k v counts); [|by intros; apply Hcomm|done].
    lia.
  - rewrite map_fold_insert_L; [done|by intros; apply Hcomm|done].
Qed.

Lemma tally_total {A : Type} (f : A -> string) (l : list A)
    (counts : gmap string nat) :
  count_total (fold_left (fun m x => counter_add (f x) m) l counts)
  = (count_total counts + length l)%nat.
Proof.
  revert counts. induction l as [|x l IH]; intros counts; simpl; [lia|].
  rewrite IH, count_total_counter_add. lia.
Qed.

(** ** The pipeline *)

Lemma match_patterns_types (text : string) :
  Forall (fun e => span_type e ∈ map fst entity_patterns) (_match_patterns text).
Proof.
  unfold _match_patterns.
  apply fold_left_preserves_elem; [|constructor].
  intros entities [entity_type pattern_list] Hentry Hacc.
  apply fold_left_preserves_elem; [|done].
  intros entities' pattern Hp Hacc'.
  apply fold_left_preserves_elem; [|done].
  intros entities'' [b e] Hm Hacc''.
  apply Forall_app. split; [done|]. constructor; [|constructor].
  change (entity_type ∈ map fst entity_patterns).
  apply list_elem_of_fmap. by exists (entity_type, pattern_list).
Qed.

Lemma extracted_span_type (text : pyvalue) (e : span) :
  e ∈ extract_entities_with_positions text -> span_type e ∈ entity_type_names.
Proof.
  intros He.
  destruct (usable_text text) as [s|] eqn:Hs.
  2:{ unfold extract_entities_with_positions in He. rewrite Hs in He.
      by apply elem_of_nil in He. }
  apply usable_text_str in Hs as Heq. subst text.
  rewrite extract_entities_with_positions_unfold in He by done.
  apply list_elem_of_fmap in He as (c & -> & Hc).
  apply resolve_overlaps_elem in Hc.
  unfold entity_type_names. apply elem_of_app.
  apply elem_of_app in Hc as [Hc|Hc].
  - left. pose proof (match_dictionary_bounded s) as Hall.
    rewrite Forall_forall in Hall.
    destruct (Hall c Hc) as (_ & _ & dictionary & _ & Hd & _).
    apply list_elem_of_fmap. by exists (span_type c, dictionary).
  - right. pose proof (match_patterns_types s) as Hall.
    rewrite Forall_forall in Hall. by apply (Hall c).
Qed.

Lemma extracted_entity_type (text : pyvalue) (a x : string) :
  (a, x) ∈ extract_entities text -> a ∈ entity_type_names.
Proof.
  rewrite extract_entities_projection.
  intros (e & [= -> _] & He)%list_elem_of_fmap.
  by eapply extracted_span_type.
Qed.

Lemma entity_type_names_truthy (t : string) :
  t ∈ entity_type_names -> Py.truthy (Some t) = true.
Proof.
  intros Ht.
  assert (Forall (fun t => Py.truthy (Some t) = true) entity_type_names)
    as Hall.
  { apply (bool_decide_unpack _). vm_compute. exact I. }
  rewrite Forall_forall in Hall. by apply Hall.
Qed.

(** *** [process_text] *)

Lemma relation_predicates_nonempty :
  Forall (fun rule => predicate rule <> "") relation_patterns.
Proof. apply (bool_decide_unpack _). vm_compute. exact I. Qed.

Lemma result_triples_process_text (text : pyvalue) (s : string) :
  usable_text text = Some s ->
  result_triples (process_text text)
  = if match extract_relations text with [] => true | _ => false end
       && (2 <=? length (extract_entities text))%nat
    then extract_simple_triples text
    else extract_relations text.
Proof. intros Hs. unfold process_text. by rewrite Hs. Qed.

(** Where the triples of a text come from: two different places of the
    list of its entities. *)
Lemma process_text_triple (text : pyvalue) (t : triple) :
  t ∈ result_triples (process_text text) ->
  exists (i j : nat) (e1 e2 : string * string),
    i <> j /\
    extract_entities text !! i = Some e1 /\
    extract_entities text !! j = Some e2 /\
    t.1.1 = e1.2 /\ t.2 = e2.2 /\ t.1.2 <> "".
Proof.
  destruct (usable_text text) as [s|] eqn:Hs.
  2:{ unfold process_text. rewrite Hs. intros Ht. by apply elem_of_nil in Ht. }
  rewrite (result_triples_process_text text s Hs).
  apply usable_text_str in Hs as Heq. subst text.
  assert (forall t, t ∈ extract_relations (PyStr s) ->
            exists (i j : nat) (e1 e2 : string * string),
              i <> j /\
              extract_entities (PyStr s) !! i = Some e1 /\
              extract_entities (PyStr s) !! j = Some e2 /\
              t.1.1 = e1.2 /\ t.2 = e2.2 /\ t.1.2 <> "") as Hrel.
  { intros t'. rewrite extract_relations_emitted. intros Ht%emitted_elem.
    destruct (relation_candidates_elem s t' Ht)
      as (i & j & subj & obj & rule & Hij & _ & Hi & Hj & Hrule & -> & _).
    exists i, j, (drop_positions subj), (drop_positions obj).
    rewrite extract_entities_projection, !list_lookup_fmap, Hi, Hj. simpl.
    repeat split; try done.
    pose proof relation_predicates_nonempty as Hall.
    rewrite Forall_forall in Hall. by apply Hall. }
  assert (forall t, t ∈ extract_simple_triples (PyStr s) ->
            exists (i j : nat) (e1 e2 : string * string),
              i <> j /\
              extract_entities (PyStr s) !! i = Some e1 /\
              extract_entities (PyStr s) !! j = Some e2 /\
              t.1.1 = e1.2 /\ t.2 = e2.2 /\ t.1.2 <> "") as Hsimple.
  { intros t'. rewrite extract_simple_triples_emitted. intros Ht%emitted_elem.
    destruct (simple_candidates_elem _ t' Ht)
      as (i & j & e1 & e2 & Hij & Hi & Hj & ->).
    exists i, j, e1, e2. simpl. repeat split; try done; [lia|].
    apply infer_relation_nonempty. }
  destruct (_ && _); auto.
Qed.

(** X14.  [process_text] returns, under ['entities'], what
    [extract_entities] returns; whenever that holds two or more
    entities, ['triples'] is not empty; and every triple it returns has
    a non-empty predicate and joins the texts of two entities of the
    list from different places in it. *)
Theorem process_text_triples (text : pyvalue) :
  let result := process_text text in
  result_entities result = extract_entities text /\
  ((2 <= length (result_entities result))%nat -> result_triples result <> []) /\
  (forall t : triple,
     t ∈ result_triples result ->
     exists (i j : nat) (e1 e2 : string * string),
       i <> j /\
       result_entities result !! i = Some e1 /\
       result_entities result !! j = Some e2 /\
       t.1.1 = e1.2 /\ t.2 = e2.2 /\ t.1.2 <> "").
Proof.
  cbv zeta.
  assert (result_entities (process_text text) = extract_entities text) as Hent.
  { unfold process_text, extract_entities.
    by destruct (usable_text text). }
  split; [done|]. rewrite Hent. split; [|apply process_text_triple].
  intros Hlen.
  destruct (usable_text text) as [s|] eqn:Hs.
  2:{ unfold extract_entities in Hlen. rewrite Hs in Hlen. simpl in Hlen. lia. }
  rewrite (result_triples_process_text text s Hs).
  destruct (extract_relations text) as [|t0 ts] eqn:Hts; [|done].
  apply Nat.leb_le in Hlen as Hlenb. rewrite Hlenb. cbn [andb].
  destruct (extract_entities text) as [|e1 [|e2 l]] eqn:Hl;
    [simpl in Hlen; lia|simpl in Hlen; lia|].
  destruct (simple_candidates_head text e1 e2 l Hl) as [rest Hrest].
  rewrite extract_simple_triples_emitted, Hrest.
  destruct (emitted_head ordered_pair_key
              (e1.2, _infer_relation e1.1 e2.1, e2.2) rest) as [out Hout].
  intros Hnil.
  assert ((e1.2, _infer_relation e1.1 e2.1, e2.2) :: out = []) as Habs
    by (etrans; [symmetry; exact Hout|exact Hnil]).
  done.
Qed.

(** X14 on a text with three entities and no rule that joins them. *)
Lemma process_text_triples_witness :
  result_triples (process_text repeated_mention) <> [].
Proof.
  apply (proj1 (proj2 (process_text_triples repeated_mention))).
  vm_compute. lia.
Defined.

(** *** [process_posts] *)

Lemma in_node_names_add_node (n m t : string) (g : MultiDiGraph) :
  m ∈ node_names (add_node n t g) <-> m ∈ node_names g \/ m = n.
Proof.
  rewrite node_names_add_node.
  destruct (has_node g n) eqn:Hn.
  - apply has_node_names in Hn. split; [auto|]. by intros [?| ->].
  - rewrite elem_of_app, list_elem_of_singleton. tauto.
Qed.

Lemma node_entity_type_add_node_other (n m t : string) (g : MultiDiGraph) :
  m <> n -> node_entity_type (add_node n t g) m = node_entity_type g m.
Proof.
  intros Hne. unfold node_entity_type, add_node.
  destruct (has_node g n); simpl.
  - induction (nodes g) as [|nd l IH]; simpl; [done|].
    destruct (String.eqb nd.1 n) eqn:Hnd; simpl.
    + apply String.eqb_eq in Hnd.
      assert (String.eqb n m = false) as -> by (apply String.eqb_neq; congruence).
      assert (String.eqb nd.1 m = false) as -> by (apply String.eqb_neq; congruence).
      apply IH.
    + destruct (String.eqb nd.1 m); [done|apply IH].
  - induction (nodes g) as [|nd l IH]; simpl.
    + assert (String.eqb n m = false) as -> by (apply String.eqb_neq; congruence).
      done.
    + destruct (String.eqb nd.1 m); [done|apply IH].
Qed.

Lemma node_entity_type_add_triple (s p o : string) (st ot : option string)
    (self : KnowledgeGraph) (n : string) :
  node_entity_type (graph (add_triple s p o st ot self)) n
  = node_entity_type
      (add_node o (or_unknown ot) (add_node s (or_unknown st) (graph self))) n.
Proof. by rewrite graph_add_triple. Qed.

Lemma node_names_add_triple (s p o : string) (st ot : option string)
    (self : KnowledgeGraph) (n : string) :
  n ∈ node_names (graph (add_triple s p o st ot self))
  <-> n ∈ node_names (graph self) \/ n = s \/ n = o.
Proof.
  rewrite graph_add_triple. unfold node_names at 1. cbn [nodes].
  fold (node_names
          (add_node o (or_unknown ot) (add_node s (or_unknown st) (graph self)))).
  rewrite !in_node_names_add_node. tauto.
Qed.

(** A call that names both types keeps the store typed. *)
Lemma typed_add_triple (s p o a b : string) (self : KnowledgeGraph) :
  a ∈ entity_type_names -> b ∈ entity_type_names ->
  typed_store self ->
  typed_store (add_triple s p o (Some a) (Some b) self).
Proof.
  intros Ha Hb Htyped n Hn.
  pose proof (entity_type_names_truthy a Ha) as Hta.
  pose proof (entity_type_names_truthy b Hb) as Htb.
  assert (or_unknown (Some a) = a) as Hoa by (unfold or_unknown; by rewrite Hta).
  assert (or_unknown (Some b) = b) as Hob by (unfold or_unknown; by rewrite Htb).
  assert (entity_types (add_triple s p o (Some a) (Some b) self)
          = <[o := b]> (<[s := a]> (entity_types self))) as Hmap.
  { unfold add_triple, record_type. cbn [entity_types]. by rewrite Hta, Htb. }
  rewrite node_entity_type_add_triple, Hmap, Hoa, Hob.
  destruct (decide (n = o)) as [->|Hno].
  { exists b. split; [done|].
    by rewrite node_entity_type_add_node, lookup_insert_eq. }
  rewrite node_entity_type_add_node_other, lookup_insert_ne by done.
  destruct (decide (n = s)) as [->|Hns].
  { exists a. split; [done|].
    by rewrite node_entity_type_add_node, lookup_insert_eq. }
  rewrite node_entity_type_add_node_other, lookup_insert_ne by done.
  apply Htyped. apply node_names_add_triple in Hn as [Hn|[Hn|Hn]]; done.
Qed.

Lemma relation_distribution_add_triple (s p o : string) (st ot : option string)
    (self : KnowledgeGraph) :
  get_relation_distribution (add_triple s p o st ot self)
  = counter_add p (get_relation_distribution self).
Proof.
  unfold get_relation_distribution. rewrite graph_add_triple. cbn [edges].
  by rewrite fold_left_app.
Qed.

(** What the loop that looks for the types finds: the type of the last
    entity with the text. *)
Lemma find_types_found (entities : list (string * string)) (subject obj : string) :
  ((exists a, (a, subject) ∈ entities) ->
   exists a, (find_types entities subject obj).1 = Some a /\
             (a, subject) ∈ entities) /\
  ((exists b, (b, obj) ∈ entities) ->
   exists b, (find_types entities subject obj).2 = Some b /\
             (b, obj) ∈ entities).
Proof.
  unfold find_types.
  induction entities as [|[etype etext] entities IH] using rev_ind.
  { split; intros (x & Hx); by apply elem_of_nil in Hx. }
  rewrite fold_left_app. cbn [fold_left].
  destruct (fold_left _ entities (None, None)) as [subject_type object_type].
  destruct IH as [IHs IHo]. cbn [fst snd] in *. split.
  - intros (a & Ha). destruct (String.eqb etext subject) eqn:Heq.
    + apply String.eqb_eq in Heq. subst etext. exists etype. split; [done|].
      apply elem_of_app. right. by left.
    + apply String.eqb_neq in Heq.
      apply elem_of_app in Ha as [Ha|Ha].
      * destruct IHs as (a' & -> & Ha'); [by eauto|].
        exists a'. split; [done|]. apply elem_of_app. by left.
      * apply list_elem_of_singleton in Ha. congruence.
  - intros (b & Hb). destruct (String.eqb etext obj) eqn:Heq.
    + apply String.eqb_eq in Heq. subst etext. exists etype. split; [done|].
      apply elem_of_app. right. by left.
    + apply String.eqb_neq in Heq.
      apply elem_of_app in Hb as [Hb|Hb].
      * destruct IHo as (b' & -> & Hb'); [by eauto|].
        exists b'. split; [done|]. apply elem_of_app. by left.
      * apply list_elem_of_singleton in Hb. congruence.
Qed.

(** The loop over the triples of a post, when every end of a triple is
    the text of an entity of the post. *)
Lemma add_triples_spec (entities : list (string * string))
    (triples : list triple) (self : pipeline) :
  (forall a x, (a, x) ∈ entities -> a ∈ entity_type_names) ->
  (forall t : triple,
     t ∈ triples ->
     (exists a, (a, t.1.1) ∈ entities) /\ (exists b, (b, t.2) ∈ entities)) ->
  (exists calls : list call, kg self = after_calls calls) ->
  typed_store (kg self) ->
  relation_type_counts (stats self) = get_relation_distribution (kg self) ->
  let self' := add_triples entities triples self in
  (exists calls : list call, kg self' = after_calls calls) /\
  typed_store (kg self') /\
  relation_type_counts (stats self') = get_relation_distribution (kg self') /\
  num_triples (kg self') = (num_triples (kg self) + length triples)%nat /\
  total_posts_processed (stats self') = total_posts_processed (stats self) /\
  total_entities_extracted (stats self') = total_entities_extracted (stats self) /\
  total_triples_extracted (stats self') = total_triples_extracted (stats self) /\
  entity_type_counts (stats self') = entity_type_counts (stats self) /\
  posts_with_entities (stats self') = posts_with_entities (stats self) /\
  posts_with_relations (stats self') = posts_with_relations (stats self).
Proof.
  intros Htypes. cbv zeta. unfold add_triples. revert self.
  induction triples as [|[[s p] o] triples IH]; intros self Hends Hcalls Htyped
    Hcounts.
  { simpl. repeat split; try done; lia. }
  cbn [fold_left].
  destruct (Hends (s, p, o)) as [Hs Ho]; [by left|]. cbn [fst snd] in Hs, Ho.
  destruct (find_types_found entities s o) as [Hfs Hfo].
  destruct (Hfs Hs) as (a & Hfa & Ha). destruct (Hfo Ho) as (b & Hfb & Hb).
  destruct (find_types entities s o) as [subject_type object_type].
  cbn [fst snd] in Hfa, Hfb. subst subject_type object_type.
  match goal with
  | |- context [fold_left ?f triples ?p0] => set (next := p0)
  end.
  destruct (IH next) as (H1 & H2 & H3 & H4 & H5 & H6 & H7 & H8 & H9 & H10).
  - intros t Ht. apply Hends. by right.
  - destruct Hcalls as [calls Hcalls]. exists (calls ++ [(s, p, o, Some a, Some b)]).
    rewrite after_calls_snoc, <- Hcalls. done.
  - apply typed_add_triple; eauto.
  - unfold next. cbn [stats kg relation_type_counts].
    by rewrite relation_distribution_add_triple, Hcounts.
  - repeat split; try done.
    rewrite H4. unfold next, num_triples. cbn [kg].
    rewrite add_triple_log, length_app. simpl. lia.
Qed.

Lemma process_post_consistent (self : pipeline) (post : gmap string pyvalue) :
  consistent self ->
  consistent (process_post self post) /\
  (total_posts_processed (stats self)
   <= total_posts_processed (stats (process_post self post))
   <= S (total_posts_processed (stats self)))%nat.
Proof.
  intros (Hcalls & Htyped & Htotal & Hcounts & H1 & H2 & H3 & H4 & H5).
  unfold process_post. cbv zeta.
  set (text := default (PyStr "") (post !! "text_content")).
  destruct (truth text); cbn [negb].
  2:{ split; [|lia]. by repeat split. }
  pose proof (process_text_triple text) as Hfrom.
  assert (result_entities (process_text text) = extract_entities text) as Hent.
  { unfold process_text, extract_entities. by destruct (usable_text text). }
  assert (forall a x, (a, x) ∈ result_entities (process_text text) ->
                      a ∈ entity_type_names) as Htypes.
  { intros a x. rewrite Hent. apply extracted_entity_type. }
  assert (forall t : triple,
            t ∈ result_triples (process_text text) ->
            (exists a, (a, t.1.1) ∈ result_entities (process_text text)) /\
            (exists b, (b, t.2) ∈ result_entities (process_text text)))
    as Hends.
  { intros t Ht. rewrite Hent.
    destruct (Hfrom t Ht) as (i & j & [a1 x1] & [a2 x2] & _ & Hi & Hj & -> & -> & _).
    split; [exists a1|exists a2]; by eapply list_elem_of_lookup_2. }
  clear Hfrom Hent.
  assert (forall (l : list (string * string)) (counts : gmap string nat),
            count_total
              (fold_left
                 (fun counts '(entity_type, _) => counter_add entity_type counts)
                 l counts)
            = (count_total counts + length l)%nat) as Htally.
  { intros l counts.
    rewrite (fold_left_ext _ (fun m x => counter_add (fst x) m))
      by (by intros m [a x]).
    apply tally_total. }
  destruct (result_triples (process_text text)) as [|t ts] eqn:Htr.
  { destruct (result_entities (process_text text)) as [|e es];
      (split; [|cbn; lia]); unfold consistent;
      cbn [stats kg total_posts_processed total_entities_extracted
             total_triples_extracted entity_type_counts relation_type_counts
             posts_with_entities posts_with_relations];
      rewrite ?Htally; cbn [length];
      repeat split; try done; try lia. }
  destruct (result_entities (process_text text)) as [|e es] eqn:Hen.
  { destruct (Hends t) as [[a Ha] _]; [by left|]. by apply elem_of_nil in Ha. }
  match goal with
  | |- context [add_triples (e :: es) (t :: ts) ?p0] => set (start := p0)
  end.
  destruct (add_triples_spec (e :: es) (t :: ts) start Htypes Hends)
    as (G1 & G2 & G3 & G4 & G5 & G6 & G7 & G8 & G9 & G10); try done.
  unfold consistent.
  rewrite G5, G6, G7, G8, G9, G10, G4. unfold start.
  cbn [stats kg total_posts_processed total_entities_extracted
         total_triples_extracted entity_type_counts relation_type_counts
         posts_with_entities posts_with_relations].
  rewrite Htally. cbn [length].
  split; [|lia].
  repeat split; try done; try lia.
Qed.

(** X15.  [process_posts] keeps the pipeline consistent: the store is
    one built by [add_triple] calls; every node has a type reported by
    recognition, the same as node attribute and in the type map, so no
    node of the pipeline's graph is typed ['UNKNOWN'];
    ['total_triples_extracted'] is the length of the log,
    ['relation_type_counts'] is [get_relation_distribution] of the
    store and the counts of ['entity_type_counts'] add up to
    ['total_entities_extracted']; and the post counters are ordered.
    At most one post is counted for each post given. *)
Theorem process_posts_keeps_consistent (posts : list (gmap string pyvalue))
    (limit : option Z) (self : pipeline) :
  consistent self ->
  consistent (process_posts posts limit self) /\
  (total_posts_processed (stats self)
   <= total_posts_processed (stats (process_posts posts limit self))
   <= total_posts_processed (stats self) + length posts)%nat.
Proof.
  intros Hself.
  assert (forall l : list (gmap string pyvalue),
            consistent (fold_left process_post l self) /\
            (total_posts_processed (stats self)
             <= total_posts_processed (stats (fold_left process_post l self))
             <= total_posts_processed (stats self) + length l)%nat) as Hloop.
  { induction l as [|post l IH] using rev_ind.
    - simpl. split; [done|lia].
    - rewrite fold_left_app, length_app. cbn [fold_left length].
      destruct IH as [IH Hn].
      destruct (process_post_consistent (fold_left process_post l self) post IH)
        as [Hc Hm].
      split; [done|lia]. }
  unfold process_posts. cbv zeta.
  destruct limit as [n|]; [|apply Hloop].
  destruct (n =? 0)%Z; [apply Hloop|].
  destruct (Hloop (take n posts)) as [Hc Hn]. split; [done|].
  assert (length (take n posts) <= length posts)%nat; [|lia].
  unfold take. destruct (n <? 0)%Z; rewrite length_firstn; lia.
Qed.

(** X15 on a fresh pipeline and two posts, the second without text. *)
Lemma process_posts_keeps_consistent_witness :
  consistent init_pipeline /\
  consistent
    (process_posts
       [ {[ "text_content" := PyStr "Trump announces 25% tariff" ]};
         {[ "title" := PyStr "untitled" ]} ]
       None init_pipeline).
Proof.
  assert (consistent init_pipeline) as Hinit.
  { unfold consistent. split; [by exists []|].
    split; [|repeat split; simpl; try lia; reflexivity].
    intros n Hn. simpl in Hn. by apply elem_of_nil in Hn. }
  split; [exact Hinit|].
  apply (proj1 (process_posts_keeps_consistent
                  [ {[ "text_content" := PyStr "Trump announces 25% tariff" ]};
                    {[ "title" := PyStr "untitled" ]} ]
                  None init_pipeline Hinit)).
Defined.

(** ** Batches *)

Lemma add_triples_batch_snoc (ts : list KnowledgeGraph.triple)
    (t : KnowledgeGraph.triple) (self : KnowledgeGraph) :
  add_triples_batch (ts ++ [t]) self
  = add_triple t.1.1 t.1.2 t.2 None None (add_triples_batch ts self).
Proof.
  unfold add_triples_batch. rewrite fold_left_app. by destruct t as [[s p] o].
Qed.

Lemma node_entity_type_untyped (s p o : string) (self : KnowledgeGraph)
    (n : string) :
  node_entity_type (graph (add_triple s p o None None self)) n
  = if decide (n = s \/ n = o) then Some "UNKNOWN"
    else node_entity_type (graph self) n.
Proof.
  rewrite node_entity_type_add_triple. cbn [or_unknown].
  destruct (decide (n = o)) as [->|Hno].
  { rewrite node_entity_type_add_node, decide_True; [done|by right]. }
  rewrite node_entity_type_add_node_other by done.
  destruct (decide (n = s)) as [->|Hns].
  { rewrite node_entity_type_add_node, decide_True; [done|by left]. }
  rewrite node_entity_type_add_node_other by done.
  rewrite decide_False; [done|]. by intros [?|?].
Qed.

(** X16.  [add_triples_batch] appends its triples to the log in their
    order and adds one edge for each; it leaves the type map alone and
    sets the type attribute of every entity it names to ['UNKNOWN'],
    whatever type the node had; the attributes of the other nodes stay.
    It is the sequence of [add_triple] calls without types. *)
Theorem add_triples_batch_appends (ts : list KnowledgeGraph.triple)
    (self : KnowledgeGraph) :
  let self' := add_triples_batch ts self in
  triples self' = triples self ++ ts /\
  num_edges self' = (num_edges self + length ts)%nat /\
  entity_types self' = entity_types self /\
  (forall n : string,
     n ∈ node_names (graph self')
     <-> n ∈ node_names (graph self) \/ named_in ts n) /\
  (forall n : string,
     named_in ts n -> node_entity_type (graph self') n = Some "UNKNOWN") /\
  (forall n : string,
     ~ named_in ts n ->
     node_entity_type (graph self') n = node_entity_type (graph self) n) /\
  (forall calls : list call,
     self = after_calls calls -> self' = after_calls (calls ++ untyped_calls ts)).
Proof.
  cbv zeta. induction ts as [|t ts IH] using rev_ind.
  { unfold named_in. simpl. rewrite !app_nil_r.
    repeat split; try done; try lia.
    - by left.
    - intros [?|(t & Ht & _)]; [done|]. by apply elem_of_nil in Ht.
    - intros n (t & Ht & _). by apply elem_of_nil in Ht.
    - intros calls ->. by rewrite app_nil_r. }
  destruct IH as (Hlog & Hedges & Hmap & Hnames & Hattr & Hkeep & Hcalls).
  rewrite add_triples_batch_snoc.
  assert (forall n, named_in (ts ++ [t]) n
                    <-> named_in ts n \/ n = t.1.1 \/ n = t.2) as Hnamed.
  { intros n. unfold named_in. split.
    - intros (t' & Ht' & Hn). apply elem_of_app in Ht' as [Ht'|Ht'].
      + left. by exists t'.
      + apply list_elem_of_singleton in Ht'. subst t'. by right.
    - intros [(t' & Ht' & Hn)|Hn].
      + exists t'. split; [|done]. apply elem_of_app. by left.
      + exists t. split; [|done]. apply elem_of_app. right. by left. }
  split; [|split; [|split; [|split; [|split; [|split]]]]].
  - rewrite add_triple_log, Hlog, <- app_assoc. by destruct t as [[s p] o].
  - destruct (add_triple_counts t.1.1 t.1.2 t.2 None None
                (add_triples_batch ts self)) as [-> _].
    rewrite Hedges, length_app. simpl. lia.
  - by rewrite add_triple_untyped_map.
  - intros n. rewrite node_names_add_triple, Hnames, Hnamed. tauto.
  - intros n Hn. rewrite node_entity_type_untyped.
    destruct (decide (n = t.1.1 \/ n = t.2)) as [Hend|Hend]; [done|].
    apply Hattr. apply Hnamed in Hn. tauto.
  - intros n Hn. rewrite node_entity_type_untyped.
    rewrite Hnamed in Hn.
    rewrite decide_False by tauto. apply Hkeep. tauto.
  - intros calls Hself. unfold untyped_calls.
    rewrite map_app. cbn [map]. rewrite app_assoc, after_calls_snoc.
    specialize (Hcalls calls Hself). unfold untyped_calls in Hcalls.
    unfold apply_call. f_equal. exact Hcalls.
Qed.

(** ** Subgraphs *)

Lemma visit_step (U : gset string) (depth : Z) (st : search_state) (n : string) :
  n ∈ U -> st.1.2 ⊆ U ->
  (visit depth st n).1.2 ⊆ U /\
  search_measure U (visit depth st n) = search_measure U st /\
  (visit depth st n).1.1 = st.1.1 ∪ {[ n ]}.
Proof.
  destruct st as [[inc visited] queue]. cbn [fst snd]. intros Hn Hsub.
  unfold visit, search_measure.
  destruct (decide (n ∈ visited)) as [Hin|Hnot]; cbn [fst snd]; [done|].
  assert (visited ∪ {[ n ]} ⊆ U) as Hsub' by set_solver.
  split; [done|]. split; [|done].
  pose proof (subseteq_size _ _ Hsub') as Hle.
  rewrite size_union in Hle |- * by set_solver.
  rewrite size_singleton in Hle |- *. rewrite length_app. simpl. lia.
Qed.

Lemma visit_fold (U : gset string) (depth : Z) (ns : list string)
    (st : search_state) :
  (forall n, n ∈ ns -> n ∈ U) -> st.1.2 ⊆ U ->
  (fold_left (visit depth) ns st).1.2 ⊆ U /\
  search_measure U (fold_left (visit depth) ns st) = search_measure U st /\
  (fold_left (visit depth) ns st).1.1 = st.1.1 ∪ list_to_set ns.
Proof.
  revert st. induction ns as [|n ns IH]; intros st Hns Hsub; cbn [fold_left].
  { split; [done|]. split; [done|]. set_solver. }
  destruct (visit_step U depth st n) as (H1 & H2 & H3); [apply Hns; by left|done|].
  destruct (IH (visit depth st n)) as (G1 & G2 & G3);
    [intros m Hm; apply Hns; by right|done|].
  split; [done|]. split; [congruence|].
  rewrite G3, H3. set_solver.
Qed.

(** The search ends within as many rounds as its measure, and what it
    adds are nodes. *)
Lemma search_ends (U : gset string) (g : MultiDiGraph) (max_depth : Z) :
  (forall n m, m ∈ successors g n -> m ∈ U) ->
  (forall n m, m ∈ predecessors g n -> m ∈ U) ->
  forall (fuel : nat) (st : search_state),
    st.1.2 ⊆ U -> (search_measure U st <= fuel)%nat ->
    exists nodes_to_include : gset string,
      search fuel g max_depth st = Some nodes_to_include /\
      st.1.1 ⊆ nodes_to_include /\ nodes_to_include ⊆ st.1.1 ∪ U.
Proof.
  intros Hsucc Hpred. induction fuel as [|fuel IH];
    intros [[inc visited] queue] Hsub Hfuel; cbn [fst snd] in *.
  - destruct queue as [|[node depth] queue].
    + exists inc. simpl. set_solver.
    + unfold search_measure in Hfuel. simpl in Hfuel. lia.
  - destruct queue as [|[node depth] queue].
    { exists inc. simpl. set_solver. }
    cbn [search].
    assert (search_measure U (inc, visited, queue) <= fuel)%nat as Hless.
    { unfold search_measure in *. simpl in *. lia. }
    destruct (depth >=? max_depth)%Z.
    { by apply (IH (inc, visited, queue)). }
    destruct (visit_fold U depth (successors g node) (inc, visited, queue))
      as (H1 & H2 & H3); [by apply Hsucc|done|].
    destruct (visit_fold U depth (predecessors g node)
                (fold_left (visit depth) (successors g node)
                   (inc, visited, queue)))
      as (G1 & G2 & G3); [by apply Hpred|done|].
    destruct (IH (fold_left (visit depth) (predecessors g node)
                    (fold_left (visit depth) (successors g node)
                       (inc, visited, queue))))
      as (result & Hres & Hlow & Hhigh); [done|lia|].
    exists result. split; [done|].
    rewrite G3, H3 in Hlow, Hhigh. cbn [fst snd] in *.
    assert (list_to_set (successors g node) ⊆ U) as Hs.
    { intros m Hm. apply elem_of_list_to_set in Hm. by eapply Hsucc. }
    assert (list_to_set (predecessors g node) ⊆ U) as Hp.
    { intros m Hm. apply elem_of_list_to_set in Hm. by eapply Hpred. }
    set_solver.
Qed.

(** The first round of a search from a seed with [max_depth >= 1] takes
    in the neighbours of the seed. *)
Lemma search_first_round (fuel : nat) (g : MultiDiGraph) (max_depth : Z)
    (inc : gset string) (entity : string) :
  (1 <= max_depth)%Z ->
  search (S fuel) g max_depth (inc, {[ entity ]}, [(entity, 0%Z)])
  = search fuel g max_depth
      (fold_left (visit 0) (predecessors g entity)
         (fold_left (visit 0) (successors g entity) (inc, {[ entity ]}, []))).
Proof.
  intros Hd. cbn [search].
  assert ((0 >=? max_depth)%Z = false) as -> by lia. done.
Qed.

Lemma search_depth_zero (fuel : nat) (g : MultiDiGraph) (max_depth : Z)
    (inc : gset string) (entity : string) :
  (max_depth <= 0)%Z ->
  search (S fuel) g max_depth (inc, {[ entity ]}, [(entity, 0%Z)]) = Some inc.
Proof.
  intros Hd. cbn [search].
  assert ((0 >=? max_depth)%Z = true) as -> by lia. by destruct fuel.
Qed.

Lemma successors_elem (g : MultiDiGraph) (n m : string) :
  m ∈ successors g n
  <-> exists e, e ∈ edges g /\ edge_source e = n /\ edge_target e = m.
Proof.
  unfold successors. rewrite first_seen_elem, list_elem_of_fmap.
  setoid_rewrite elem_of_filter_eqb. split.
  - intros (e & -> & Hs & He). by exists e.
  - intros (e & He & Hs & Ht). by exists e.
Qed.

Lemma predecessors_elem (g : MultiDiGraph) (n m : string) :
  m ∈ predecessors g n
  <-> exists e, e ∈ edges g /\ edge_target e = n /\ edge_source e = m.
Proof.
  unfold predecessors. rewrite first_seen_elem, list_elem_of_fmap.
  setoid_rewrite elem_of_filter_eqb. split.
  - intros (e & -> & Hs & He). by exists e.
  - intros (e & He & Hs & Ht). by exists e.
Qed.

(** The log of the store built from the triples kept. *)
Lemma restrict_log (nodes_to_include : gset string) (self : KnowledgeGraph) :
  triples (restrict nodes_to_include self)
  = List.filter (inside nodes_to_include) (triples self).
Proof.
  unfold restrict.
  assert (forall (l : list KnowledgeGraph.triple) (acc : KnowledgeGraph),
            triples
              (fold_left
                 (fun subgraph_kg '((s, p, o) : KnowledgeGraph.triple) =>
                    if bool_decide (s ∈ nodes_to_include)
                       && bool_decide (o ∈ nodes_to_include)
                    then add_triple s p o (entity_types self !! s)
                           (entity_types self !! o) subgraph_kg
                    else subgraph_kg)
                 l acc)
            = triples acc ++ List.filter (inside nodes_to_include) l) as Hfold.
  { induction l as [|[[s p] o] l IH]; intros acc; cbn [fold_left List.filter].
    - by rewrite app_nil_r.
    - rewrite IH. unfold inside at 2. cbn [fst snd].
      destruct (bool_decide (s ∈ nodes_to_include)
                && bool_decide (o ∈ nodes_to_include)); [|done].
      by rewrite add_triple_log, <- app_assoc. }
  by rewrite Hfold.
Qed.

(** The loop over the seeds ends when every search has one round of
    fuel for each node. *)
Lemma collect_ends (U : gset string) (g : MultiDiGraph) (max_depth : Z)
    (fuel : nat) :
  (forall n m, m ∈ successors g n -> m ∈ U) ->
  (forall n m, m ∈ predecessors g n -> m ∈ U) ->
  (forall n, has_node g n = true -> n ∈ U) ->
  (size U <= fuel)%nat ->
  forall (entities : list string) (inc0 : gset string),
    exists nodes_to_include : gset string,
      collect fuel g max_depth entities inc0 = Some nodes_to_include /\
      inc0 ⊆ nodes_to_include /\ nodes_to_include ⊆ inc0 ∪ U /\
      ((max_depth <= 0)%Z -> nodes_to_include = inc0) /\
      ((1 <= max_depth)%Z ->
       forall entity m,
         entity ∈ entities -> has_node g entity = true ->
         m ∈ successors g entity \/ m ∈ predecessors g entity ->
         m ∈ nodes_to_include).
Proof.
  intros Hsucc Hpred Hnode Hfuel.
  induction entities as [|entity entities IH]; intros inc0; cbn [collect].
  { exists inc0. split; [done|]. split; [done|]. split; [set_solver|].
    split; [done|]. intros _ entity m He. by apply elem_of_nil in He. }
  destruct (has_node g entity) eqn:Hentity; cbn [negb].
  2:{ destruct (IH inc0) as (inc & Hc & H1 & H2 & H3 & H4).
      exists inc. repeat split; try done.
      intros Hd e m He He' Hm. apply elem_of_cons in He as [->|He];
        [congruence|by eapply H4]. }
  assert (entity ∈ U) as HU by by apply Hnode.
  assert (1 <= size U)%nat as Hone.
  { assert ({[ entity ]} ⊆ U) as Hsub by set_solver.
    apply subseteq_size in Hsub. by rewrite size_singleton in Hsub. }
  destruct fuel as [|fuel']; [lia|].
  destruct (Z_le_gt_dec max_depth 0) as [Hd|Hd].
  - rewrite search_depth_zero by done.
    destruct (IH inc0) as (inc & Hc & H1 & H2 & H3 & H4).
    exists inc. repeat split; try done. intros; lia.
  - rewrite search_first_round by lia.
    destruct (visit_fold U 0 (successors g entity) (inc0, {[ entity ]}, []))
      as (F1 & F2 & F3); [by apply Hsucc|cbn; set_solver|].
    destruct (visit_fold U 0 (predecessors g entity)
                (fold_left (visit 0) (successors g entity)
                   (inc0, {[ entity ]}, [])))
      as (G1 & G2 & G3); [by apply Hpred|done|].
    destruct (search_ends U g max_depth Hsucc Hpred fuel'
                (fold_left (visit 0) (predecessors g entity)
                   (fold_left (visit 0) (successors g entity)
                      (inc0, {[ entity ]}, []))))
      as (inc1 & -> & Hlow & Hhigh); [done| |].
    { rewrite G2, F2. unfold search_measure. cbn [fst snd length].
      rewrite size_singleton. lia. }
    rewrite G3, F3 in Hlow, Hhigh. cbn [fst snd] in Hlow, Hhigh.
    destruct (IH inc1) as (inc & Hc & H1 & H2 & H3 & H4).
    exists inc. split; [done|].
    assert (list_to_set (successors g entity) ⊆ U) as Hs.
    { intros m Hm. apply elem_of_list_to_set in Hm. by eapply Hsucc. }
    assert (list_to_set (predecessors g entity) ⊆ U) as Hp.
    { intros m Hm. apply elem_of_list_to_set in Hm. by eapply Hpred. }
    split.
    { intros x Hx. apply H1, Hlow.
      apply elem_of_union. left. apply elem_of_union. by left. }
    split.
    { intros x Hx. apply H2 in Hx.
      apply elem_of_union in Hx as [Hx|Hx]; [|apply elem_of_union; by right].
      apply Hhigh in Hx. rewrite !elem_of_union in Hx.
      destruct Hx as [[[Hx|Hx]|Hx]|Hx]; apply elem_of_union;
        [by left|right; by apply Hs|right; by apply Hp|by right]. }
    split; [intros; lia|].
    intros _ e m He He' Hm. apply elem_of_cons in He as [->|He].
    + apply H1, Hlow. destruct Hm as [Hm|Hm].
      * apply elem_of_union. left. apply elem_of_union. right.
        by apply elem_of_list_to_set.
      * apply elem_of_union. right. by apply elem_of_list_to_set.
    + apply (H4 ltac:(lia) e m); done.
Qed.

(** X17.  On a store built by [add_triple] calls, with one round of
    fuel for each node, [get_subgraph] returns: its searches end.  The
    log of the store returned holds, in their order, the logged triples
    with both ends among the nodes collected; these are the seeds and
    nodes of the graph only; with [max_depth <= 0] they are the seeds
    alone, and with [max_depth >= 1] every logged triple with a seed at
    one end is in the store returned. *)
Theorem get_subgraph_keeps_neighbourhood (calls : list call)
    (entities : list string) (max_depth : Z) (fuel : nat) :
  (num_nodes (after_calls calls) <= fuel)%nat ->
  exists (nodes_to_include : gset string) (subgraph_kg : KnowledgeGraph),
    get_subgraph fuel entities max_depth (after_calls calls) = Some subgraph_kg /\
    triples subgraph_kg
    = List.filter (inside nodes_to_include) (triples (after_calls calls)) /\
    (forall n : string, n ∈ entities -> n ∈ nodes_to_include) /\
    (forall n : string,
       n ∈ nodes_to_include ->
       n ∈ entities \/ n ∈ node_names (graph (after_calls calls))) /\
    ((max_depth <= 0)%Z -> nodes_to_include = list_to_set entities) /\
    ((1 <= max_depth)%Z ->
     forall t : KnowledgeGraph.triple,
       t ∈ triples (after_calls calls) ->
       t.1.1 ∈ entities \/ t.2 ∈ entities ->
       t ∈ triples subgraph_kg).
Proof.
  intros Hfuel.
  destruct (coherent_after_calls calls) as (Hlog & Hnd & Hends).
  set (self := after_calls calls) in *.
  set (U := list_to_set (node_names (graph self)) : gset string).
  assert (forall n m, m ∈ successors (graph self) n -> m ∈ U) as Hsucc.
  { intros n m (e & He & _ & <-)%successors_elem.
    apply elem_of_list_to_set. by apply Hends. }
  assert (forall n m, m ∈ predecessors (graph self) n -> m ∈ U) as Hpred.
  { intros n m (e & He & _ & <-)%predecessors_elem.
    apply elem_of_list_to_set. by apply Hends. }
  assert (forall n, has_node (graph self) n = true -> n ∈ U) as Hnode.
  { intros n Hn. apply elem_of_list_to_set. by apply has_node_names. }
  assert (size U <= fuel)%nat as Hsize.
  { unfold U. rewrite size_list_to_set by done.
    unfold num_nodes, number_of_nodes, node_names in *.
    by rewrite length_map. }
  destruct (collect_ends U (graph self) max_depth fuel Hsucc Hpred Hnode Hsize
              entities (list_to_set entities))
    as (inc & Hc & H1 & H2 & H3 & H4).
  exists inc, (restrict inc self).
  split; [unfold get_subgraph; by rewrite Hc|].
  split; [apply restrict_log|].
  split; [intros n Hn; apply H1; by apply elem_of_list_to_set|].
  split.
  { intros n Hn. apply H2 in Hn. apply elem_of_union in Hn as [Hn|Hn].
    - left. by apply elem_of_list_to_set in Hn.
    - right. by apply elem_of_list_to_set in Hn. }
  split; [done|].
  intros Hd t Ht Hseed. rewrite restrict_log.
  apply list_elem_of_In, filter_In. split; [by apply list_elem_of_In|].
  rewrite <- Hlog in Ht. apply list_elem_of_fmap in Ht as (e & -> & He).
  destruct (Hends e He) as [Hs Ho].
  apply has_node_names in Hs, Ho.
  unfold inside, edge_triple. cbn [fst snd].
  apply andb_true_iff. split; apply bool_decide_eq_true.
  - destruct Hseed as [Hseed|Hseed]; cbn [fst snd] in Hseed.
    + apply H1. by apply elem_of_list_to_set.
    + apply (H4 Hd (edge_target e)); [done|done|].
      right. apply predecessors_elem. by exists e.
  - destruct Hseed as [Hseed|Hseed]; cbn [fst snd] in Hseed.
    + apply (H4 Hd (edge_source e)); [done|done|].
      left. apply successors_elem. by exists e.
    + apply H1. by apply elem_of_list_to_set.
Qed.

(** X17 on a chain of two edges, from its first node. *)
Lemma get_subgraph_keeps_neighbourhood_witness :
  exists (nodes_to_include : gset string) (subgraph_kg : KnowledgeGraph),
    get_subgraph 3 ["A"] 1
      (after_calls [("A", "R", "B", None, None); ("B", "R", "C", None, None)])
    = Some subgraph_kg /\
    triples subgraph_kg
    = List.filter (inside nodes_to_include)
        (triples (after_calls [("A", "R", "B", None, None);
                               ("B", "R", "C", None, None)])) /\
    (forall n : string, n ∈ ["A"] -> n ∈ nodes_to_include) /\
    (forall n : string,
       n ∈ nodes_to_include ->
       n ∈ ["A"] \/
       n ∈ node_names
             (graph (after_calls [("A", "R", "B", None, None);
                                  ("B", "R", "C", None, None)]))) /\
    ((1 <= 0)%Z -> nodes_to_include = list_to_set ["A"]) /\
    ((1 <= 1)%Z ->
     forall t : KnowledgeGraph.triple,
       t ∈ triples (after_calls [("A", "R", "B", None, None);
                                 ("B", "R", "C", None, None)]) ->
       t.1.1 ∈ ["A"] \/ t.2 ∈ ["A"] ->
       t ∈ triples subgraph_kg).
Proof.
  apply (get_subgraph_keeps_neighbourhood
           [("A", "R", "B", None, None); ("B", "R", "C", None, None)]
           ["A"] 1 3).
  vm_compute. lia.
Defined.

(** ** Distributions *)

(** X18.  [get_entity_types_distribution] maps each type to the number
    of nodes whose attribute reads as that type, so its counts add up
    to the number of nodes, and the counts of
    [get_relation_distribution] add up to the number of edges; in a
    store built by [add_triple] calls all of whose nodes are typed,
    ['UNKNOWN'] is not a key. *)
Theorem distributions_add_up (self : KnowledgeGraph) :
  (forall t : string,
     default 0%nat (get_entity_types_distribution self !! t)
     = length (filter (fun nd => attribute_read nd = t) (nodes (graph self)))) /\
  count_total (get_entity_types_distribution self) = num_nodes self /\
  count_total (get_relation_distribution self) = num_edges self /\
  (forall calls : list call,
     self = after_calls calls -> typed_store self ->
     get_entity_types_distribution self !! "UNKNOWN" = None).
Proof.
  assert (get_entity_types_distribution self
          = fold_left (fun m nd => counter_add (attribute_read nd) m)
                      (nodes (graph self)) ∅) as Hdist by done.
  split; [|split; [|split]].
  - intros t. rewrite Hdist, tally_lookup. by rewrite lookup_empty.
  - rewrite Hdist, tally_total. done.
  - unfold get_relation_distribution. rewrite tally_total. done.
  - intros calls Hcalls Htyped.
    assert (NoDup (node_names (graph self))) as Hnames.
    { rewrite Hcalls. by destruct (coherent_after_calls calls) as (_ & ? & _). }
    apply not_elem_of_dom. rewrite Hdist, tally_dom.
    rewrite dom_empty_L, union_empty_l_L, elem_of_list_to_set.
    intros (nd & Hread & Hnd)%list_elem_of_fmap.
    destruct (Htyped nd.1) as (t & Ht & Hattr & _).
    { apply list_elem_of_fmap. by exists nd. }
    assert (NoDup (node_names (graph self)) ->
            node_entity_type (graph self) nd.1 = nd.2) as Hfind.
    { unfold node_entity_type, node_names. clear -Hnd.
      induction (nodes (graph self)) as [|x l IH]; [by apply elem_of_nil in Hnd|].
      intros Hdup. apply NoDup_cons in Hdup as [Hx Hdup]. simpl.
      apply elem_of_cons in Hnd as [->|Hnd].
      - by rewrite String.eqb_refl.
      - destruct (String.eqb x.1 nd.1) eqn:Heq; [|by apply IH].
        apply String.eqb_eq in Heq. exfalso. apply Hx. rewrite Heq.
        apply list_elem_of_fmap. by exists nd. }
    rewrite (Hfind Hnames) in Hattr. unfold attribute_read in Hread.
    rewrite Hattr in Hread. simpl in Hread. subst t.
    revert Ht. apply (bool_decide_unpack _). vm_compute. exact I.
Qed.

(** ** Every mention is found *)

Lemma not_alnum_at_false (text : string) (i : nat) :
  not_alnum_at text i -> isalnum_at (Py.lower text) i = false.
Proof.
  intros Hnot. rewrite isalnum_at_lower. unfold isalnum_at.
  destruct (Py.char_at text i) as [c|] eqn:Hc; [by apply Hnot|done].
Qed.

(** The scan for one term reaches every place at which the term stands
    between word boundaries: the place is reported, or it lies inside
    an occurrence reported before it. *)
Lemma find_occurrences_complete (fuel : nat) (entity_type text entity : string)
    (start pos : nat) :
  entity <> "" ->
  (S (String.length (Py.lower text)) - start <= fuel)%nat ->
  (start <= pos)%nat ->
  String.substring pos (String.length entity) (Py.lower text) = entity ->
  ((0 < pos)%nat -> not_alnum_at text (pos - 1)) ->
  not_alnum_at text (pos + String.length entity) ->
  exists (e : span) (p : nat),
    e ∈ find_occurrences fuel entity_type text (Py.lower text) entity start [] /\
    span_type e = entity_type /\
    span_bounds e = (Z.of_nat p, Z.of_nat (p + String.length entity)) /\
    (p <= pos < p + String.length entity)%nat.
Proof.
  intros Hne Hfuel Hstart Hsub Hbefore Hafter.
  assert (0 < String.length entity)%nat as Hlen.
  { destruct entity; [done|simpl; lia]. }
  assert (pos + String.length entity <= String.length (Py.lower text))%nat
    as Hfits.
  { pose proof (f_equal String.length Hsub) as Hl.
    rewrite length_substring in Hl. lia. }
  revert start Hfuel Hstart.
  induction fuel as [|fuel IH]; intros start Hfuel Hstart; [lia|].
  cbn [find_occurrences].
  destruct (Py.find (Py.lower text) entity start) as [p|] eqn:Hf.
  2:{ exfalso. unfold Py.find in Hf.
      by apply (index_correct3 start pos entity (Py.lower text) Hf Hne Hstart). }
  pose proof (find_bounds _ _ _ _ Hf) as [Hsp Hpfits].
  assert (p <= pos)%nat as Hp.
  { destruct (decide (p <= pos)%nat) as [|Hgt]; [done|]. exfalso.
    unfold Py.find in Hf.
    apply (index_correct2 start p entity (Py.lower text) Hf pos); [done|lia|done]. }
  destruct ((0 <? p)%nat && isalnum_at (Py.lower text) (p - 1)) eqn:Hb.
  { apply andb_true_iff in Hb as [Hp0 Hal]. apply Nat.ltb_lt in Hp0.
    assert (p <> pos) as Hneq.
    { intros ->. rewrite not_alnum_at_false in Hal by auto. done. }
    apply IH; lia. }
  destruct ((p + String.length entity <? String.length (Py.lower text))%nat
            && isalnum_at (Py.lower text) (p + String.length entity)) eqn:Ha.
  { apply andb_true_iff in Ha as [_ Hal].
    assert (p <> pos) as Hneq.
    { intros ->. rewrite not_alnum_at_false in Hal by auto. done. }
    apply IH; lia. }
  rewrite find_occurrences_acc.
  destruct (decide (pos < p + String.length entity)%nat) as [Hin|Hout].
  - eexists _, p. split; [apply elem_of_app; left; by left|].
    repeat split; try done; lia.
  - destruct (IH (p + String.length entity)%nat) as (e & q & He & Hrest);
      [lia|lia|].
    exists e, q. split; [|done]. apply elem_of_app. by right.
Qed.

(** X19.  On an ASCII text [_match_dictionary] finds every mention:
    wherever a term of a dictionary stands in the lower-cased text with
    no alphanumeric character just before or just after it, a span of
    the type of that dictionary is reported, in the embedding on
    [string]s and in the one on code points alike, that is an
    occurrence of the term and covers the place: the mention itself, or
    an occurrence of the same term that starts before it and reaches
    into it. *)
Theorem dictionary_matching_finds_every_mention (text entity_type : string)
    (dictionary : list string) (entity : string) (pos : nat) :
  isascii text = true ->
  (entity_type, dictionary) ∈ entity_dictionaries -> entity ∈ dictionary ->
  String.substring pos (String.length entity) (Py.lower text) = entity ->
  ((0 < pos)%nat -> not_alnum_at text (pos - 1)) ->
  not_alnum_at text (pos + String.length entity) ->
  exists e : span,
    e ∈ _match_dictionary text /\
    span_type e = entity_type /\
    term_at text (span_bounds e) = entity /\
    (span_start e <= Z.of_nat pos < span_end e)%Z /\
    (exists reported : list CodePoints.span,
       CodePoints._match_dictionary (CodePoints.of_string text) = Some reported /\
       code_points_of_span e ∈ reported).
Proof.
  intros Hascii Hd He Hsub Hbefore Hafter.
  assert (entity ∈ dictionary_terms) as Hterm.
  { unfold dictionary_terms. apply list_elem_of_In, in_flat_map.
    exists (entity_type, dictionary). split; by apply list_elem_of_In. }
  pose proof dictionary_terms_nonempty as Hne. rewrite Forall_forall in Hne.
  specialize (Hne _ Hterm).
  destruct (find_occurrences_complete (S (String.length text)) entity_type text
              entity 0 pos Hne) as (e & p & Hin & Hty & Hb & Hp);
    try done; try lia.
  { unfold Py.lower. rewrite length_map_chars. lia. }
  assert (e ∈ _match_dictionary text) as Hmem.
  { rewrite match_dictionary_walk_source, match_dictionary_walk_flat.
    apply list_elem_of_In, in_flat_map. exists (entity_type, dictionary).
    split; [by apply list_elem_of_In|]. apply in_flat_map. exists entity.
    split; by apply list_elem_of_In. }
  exists e. split; [done|]. split; [done|]. split; [|split].
  - apply (occurrences_term text entity_type).
    apply list_elem_of_fmap. by exists e.
  - unfold span_bounds in Hb. injection Hb as -> ->. lia.
  - exists (map code_points_of_span (_match_dictionary text)).
    split; [by apply code_points_match_dictionary|].
    apply list_elem_of_fmap. by exists e.
Qed.

(** X19 on the mention of a location at the start of a text. *)
Lemma dictionary_matching_finds_every_mention_witness :
  exists e : span,
    e ∈ _match_dictionary "US tariffs" /\
    span_type e = "LOCATION" /\
    term_at "US tariffs" (span_bounds e) = "us" /\
    (span_start e <= Z.of_nat 0 < span_end e)%Z /\
    (exists reported : list CodePoints.span,
       CodePoints._match_dictionary (CodePoints.of_string "US tariffs")
       = Some reported /\
       code_points_of_span e ∈ reported).
Proof.
  pose proof (list_elem_of_lookup_2 entity_dictionaries 1) as Hentry.
  destruct (entity_dictionaries !! 1%nat) as [[entity_type dictionary]|]
    eqn:Hlookup; [|vm_compute in Hlookup; done].
  specialize (Hentry _ eq_refl).
  vm_compute in Hlookup. injection Hlookup as <- <-.
  eapply (dictionary_matching_finds_every_mention "US tariffs" "LOCATION"
            _ "us" 0).
  - reflexivity.
  - exact Hentry.
  - apply (bool_decide_unpack _). vm_compute. exact I.
  - reflexivity.
  - lia.
  - intros c Hc. vm_compute in Hc. injection Hc as <-. reflexivity.
Defined.

(** ** Nothing is lost to the dedup sets but repetitions *)

Lemma first_occurrences_covers {A K : Type} `{Countable K} (key : A -> K)
    (seen : gset K) (l : list A) (x : A) :
  x ∈ l -> key x ∉ seen ->
  exists y, y ∈ first_occurrences key seen l /\ key y = key x.
Proof.
  revert seen. induction l as [|z l IH]; intros seen Hx Hseen.
  { by apply elem_of_nil in Hx. }
  cbn [first_occurrences].
  destruct (decide (key z ∈ seen)) as [Hz|Hz].
  - apply elem_of_cons in Hx as [->|Hx]; [done|]. by apply IH.
  - destruct (decide (key z = key x)) as [Heq|Hne].
    + exists z. split; [by left|done].
    + apply elem_of_cons in Hx as [->|Hx]; [done|].
      destruct (IH (seen ∪ {[ key z ]}) Hx) as (y & Hy & Hkey).
      { apply not_elem_of_union. split; [done|].
        apply not_elem_of_singleton. congruence. }
      exists y. split; [by right|done].
Qed.

Lemma emitted_covers {A K : Type} `{Countable K} (key : A -> K)
    (candidates : list A) (x : A) :
  x ∈ candidates -> exists y, y ∈ emitted key candidates /\ key y = key x.
Proof.
  intros Hx. unfold emitted. rewrite fold_dedup. simpl.
  apply first_occurrences_covers; [done|set_solver].
Qed.

Lemma elem_of_enumerate {A : Type} (l : list A) (i : nat) (x : A) :
  l !! i = Some x -> (i, x) ∈ Py.enumerate l.
Proof.
  intros Hl. unfold Py.enumerate. apply elem_of_lookup_imap. by exists i, x.
Qed.

(** X20.  The dedup sets of the two extractors lose repetitions only.
    For two entities of the text, the first starting before the second,
    and a rule that allows their types and finds one of its connecting
    phrases between them, [extract_relations] returns a triple with the
    key of the triple of that rule; for any two places [i < j] of the
    entity list, [extract_simple_triples] returns a triple with their
    two lower-cased texts. *)
Theorem extractors_lose_only_repetitions (s : string) :
  (forall (i j : nat) (subj obj : span) (rule : relation_pattern),
     extract_entities_with_positions (PyStr s) !! i = Some subj ->
     extract_entities_with_positions (PyStr s) !! j = Some obj ->
     (span_start subj < span_start obj)%Z ->
     rule ∈ relation_patterns ->
     span_type subj ∈ subject_types rule ->
     span_type obj ∈ object_types rule ->
     (_find_connecting_phrase s (span_end subj) (span_start obj)
        (connecting_words rule)).1 = true ->
     exists t : triple,
       t ∈ extract_relations (PyStr s) /\
       triple_key t = triple_key (span_text subj, predicate rule, span_text obj)) /\
  (forall (i j : nat) (e1 e2 : string * string),
     (i < j)%nat ->
     extract_entities (PyStr s) !! i = Some e1 ->
     extract_entities (PyStr s) !! j = Some e2 ->
     exists t : triple,
       t ∈ extract_simple_triples (PyStr s) /\
       ordered_pair_key t = (Py.lower e1.2, Py.lower e2.2)).
Proof.
  split.
  - intros i j subj obj rule Hi Hj Hstart Hrule Hst Hot Hfound.
    rewrite extract_relations_emitted.
    apply (emitted_covers triple_key).
    unfold relation_candidates.
    destruct (usable_text (PyStr s)) as [s'|] eqn:Hs.
    2:{ unfold extract_entities_with_positions in Hi. by rewrite Hs in Hi. }
    apply usable_text_str in Hs as Heq. injection Heq as <-.
    unfold pair_candidates.
    apply list_elem_of_In, in_flat_map. exists (i, subj).
    split; [by apply list_elem_of_In, elem_of_enumerate|].
    apply in_flat_map. exists (j, obj).
    split; [by apply list_elem_of_In, elem_of_enumerate|].
    assert (i <> j) as Hij.
    { intros ->. rewrite Hi in Hj. injection Hj as ->. lia. }
    apply Nat.eqb_neq in Hij. rewrite Hij.
    assert ((span_start subj >=? span_start obj)%Z = false) as -> by lia.
    unfold rule_candidates. apply in_flat_map. exists rule.
    split; [by apply list_elem_of_In|].
    apply str_in_true in Hst, Hot. rewrite Hst, Hot, Hfound. by left.
  - intros i j e1 e2 Hij Hi Hj.
    rewrite extract_simple_triples_emitted.
    destruct (emitted_covers ordered_pair_key (simple_candidates (PyStr s))
                (e1.2, _infer_relation e1.1 e2.1, e2.2)) as (t & Ht & Hkey).
    + unfold simple_candidates.
      apply list_elem_of_In, in_flat_map. exists (i, e1).
      split; [by apply list_elem_of_In, elem_of_enumerate|].
      apply in_flat_map. exists (j, e2).
      split; [by apply list_elem_of_In, elem_of_enumerate|].
      assert ((j <=? i)%nat = false) as -> by (apply Nat.leb_gt; lia).
      by left.
    + by exists t.
Qed.

(** X20 on a text that names one pair of countries twice. *)
Lemma extractors_lose_only_repetitions_witness :
  exists t : triple,
    t ∈ extract_simple_triples repeated_mention /\
    ordered_pair_key t = (Py.lower "India", Py.lower "China").
Proof.
  apply (proj2 (extractors_lose_only_repetitions "China and India and China")
           1%nat 2%nat ("LOCATION", "India") ("LOCATION", "China")).
  - lia.
  - vm_compute. reflexivity.
  - vm_compute. reflexivity.
Defined.
